(** * TreeGen LLM: validation, scoring, grammar, inference wrappers and
      the single flight

    A shallow embedding of the parameter pipeline of
    [TreeGenLLM/__init__ .py]: [clip_value], [validate_and_clip],
    [confidence_score], [_gbnf_for_schema], the JSON span extraction and
    the control skeleton of [run_llm_soft] and [run_llm_hard]; of the
    schema of [user_socket_schema.py]; and of the task registry, the
    operators [TREE_OT_Generate], [TREE_OT_Cancel] and [TREE_OT_Reset]
    and the timer callbacks, as steps on the state they share.

    Python dictionaries with string keys are [gmap string _]; Python
    floats are IEEE binary64 values in the inductive form of
    [SpecFloat]; a raised exception is [None] in the option monad. *)

From Stdlib Require Import ZArith String Ascii List Bool Lia.
From Stdlib Require Import SpecFloat DecimalString.
From stdpp Require Import gmap strings list fin_maps.

Set Warnings "-register-all".

(* ===================================================================== *)
(** * Text helpers *)
(* ===================================================================== *)

Module Text.

Definition dquote : ascii := ascii_of_nat 34.
Definition squote : ascii := ascii_of_nat 39.
Definition newline : ascii := ascii_of_nat 10.
Definition backslash : ascii := ascii_of_nat 92.

Definition code (c : ascii) : N := N_of_ascii c.

Definition chars (s : string) : list ascii := list_ascii_of_string s.
Definition text (cs : list ascii) : string := string_of_list_ascii cs.

(** Source literals are written with apostrophes where the Python text
    has double quotes; [q] puts the double quotes back. *)
Definition q (s : string) : string :=
  text (map (fun c => if Ascii.eqb c squote then dquote else c) (chars s)).

Definition is_digit (c : ascii) : bool :=
  ((48 <=? code c) && (code c <=? 57))%N.

Definition digit_val (c : ascii) : Z := (Z.of_N (code c) - 48)%Z.

(** ASCII part of [str.lower]. *)
Definition lower_char (c : ascii) : ascii :=
  if ((65 <=? code c) && (code c <=? 90))%N
  then ascii_of_N (code c + 32) else c.

Definition lower (s : string) : string := text (map lower_char (chars s)).

(** The ASCII characters Python treats as whitespace: tab, LF, VT, FF,
    CR, the separators 0x1c..0x1f and the space. *)
Definition is_space (c : ascii) : bool :=
  (((9 <=? code c) && (code c <=? 13))
   || ((28 <=? code c) && (code c <=? 32)))%N.

Fixpoint lstrip (cs : list ascii) : list ascii :=
  match cs with
  | c :: r => if is_space c then lstrip r else cs
  | [] => []
  end.

Definition strip_chars (cs : list ascii) : list ascii :=
  rev (lstrip (rev (lstrip cs))).

Definition strip (s : string) : string := text (strip_chars (chars s)).

(** [sep.join(xs)] *)
Fixpoint join (sep : string) (xs : list string) : string :=
  match xs with
  | [] => EmptyString
  | [x] => x
  | x :: r => (x ++ sep ++ join sep r)%string
  end.

Definition nl : string := String newline EmptyString.

(** [str(n)] for an integer. *)
Definition decimal (z : Z) : string := NilZero.string_of_int (Z.to_int z).

(** A run of decimal digits in which single underscores may separate
    digits ([digitpart] of the Python grammar), accumulated on [acc];
    the count of digits read and the unread rest are returned.  The
    caller checks that the run starts with a digit. *)
Fixpoint digits_acc (acc : Z) (cnt : nat) (cs : list ascii)
  : Z * nat * list ascii :=
  match cs with
  | c :: r =>
      if is_digit c then digits_acc (10 * acc + digit_val c)%Z (S cnt) r
      else if Ascii.eqb c "_"%char then
        match r with
        | d :: _ => if is_digit d then digits_acc acc cnt r else (acc, cnt, cs)
        | [] => (acc, cnt, cs)
        end
      else (acc, cnt, cs)
  | [] => (acc, cnt, cs)
  end.

(** An optional [digitpart] continuing the value [acc]. *)
Definition opt_digits (acc : Z) (cs : list ascii) : Z * nat * list ascii :=
  match cs with
  | c :: _ => if is_digit c then digits_acc acc 0 cs else (acc, 0%nat, cs)
  | [] => (acc, 0%nat, cs)
  end.

(** An optional sign: [true] for a minus. *)
Definition opt_sign (cs : list ascii) : bool * list ascii :=
  match cs with
  | c :: r =>
      if Ascii.eqb c "-"%char then (true, r)
      else if Ascii.eqb c "+"%char then (false, r)
      else (false, cs)
  | [] => (false, cs)
  end.

End Text.

(* ===================================================================== *)
(** * Binary64 floats *)
(* ===================================================================== *)

Module F64.

Definition prec : Z := 53.
Definition emax : Z := 1024.

Abbreviation float := spec_float.

Definition zero : float := S754_zero false.
Definition nan : float := S754_nan.
Definition one : float := S754_finite false 4503599627370496 (-52).

Definition is_nan (f : float) : bool :=
  match f with S754_nan => true | _ => false end.

Definition ltb (x y : float) : bool := SFltb x y.
Definition leb (x y : float) : bool := SFleb x y.
Definition eqb (x y : float) : bool := SFeqb x y.

Definition add (x y : float) : float := SFadd prec emax x y.
Definition sub (x y : float) : float := SFsub prec emax x y.
Definition mul (x y : float) : float := SFmul prec emax x y.
Definition abs (x : float) : float := SFabs x.

(** Float division; Python raises [ZeroDivisionError] on a zero
    divisor. *)
Definition div (x y : float) : option float :=
  match y with
  | S754_zero _ => None
  | _ => Some (SFdiv prec emax x y)
  end.

(** [float(n)] for an integer: round to nearest, ties to even;
    [OverflowError] when the integer is too large. *)
Definition of_Z (z : Z) : option float :=
  match binary_normalize prec emax z 0 false with
  | S754_infinity _ => None
  | f => Some f
  end.

(** The integer [s * m * 2^e] rounded to an integer, ties to even. *)
Definition round_half_even (s : bool) (m : positive) (e : Z) : Z :=
  let v :=
    match e with
    | Zneg p =>
        let d := Z.pow 2 (Zpos p) in
        let qt := Z.div (Zpos m) d in
        let r := Z.modulo (Zpos m) d in
        match Z.compare (2 * r) d with
        | Lt => qt
        | Gt => qt + 1
        | Eq => if Z.even qt then qt else qt + 1
        end
    | _ => Zpos m * Z.pow 2 e
    end%Z in
  if s then Z.opp v else v.

(** [round(x)]: [ValueError] on a NaN, [OverflowError] on an
    infinity. *)
Definition round (x : float) : option Z :=
  match x with
  | S754_zero _ => Some 0%Z
  | S754_finite s m e => Some (round_half_even s m e)
  | S754_infinity _ | S754_nan => None
  end.

(** [int(x)]: truncation toward zero, with the same errors. *)
Definition trunc (x : float) : option Z :=
  match x with
  | S754_zero _ => Some 0%Z
  | S754_finite s m e =>
      let v :=
        match e with
        | Zneg p => Z.div (Zpos m) (Z.pow 2 (Zpos p))
        | _ => Zpos m * Z.pow 2 e
        end%Z in
      Some (if s then Z.opp v else v)
  | S754_infinity _ | S754_nan => None
  end.

(** Exact comparison of an integer with a float, as Python compares an
    [int] with a [float]. *)
Definition compare_Z (z : Z) (x : float) : option comparison :=
  match x with
  | S754_nan => None
  | S754_infinity s => Some (if s then Gt else Lt)
  | S754_zero _ => Some (Z.compare z 0)
  | S754_finite s m e =>
      let sm := if s then Zneg m else Zpos m in
      match e with
      | Zneg p => Some (Z.compare (z * Z.pow 2 (Zpos p)) sm)
      | _ => Some (Z.compare z (sm * Z.pow 2 e))
      end
  end%Z.

(** The decimal number [(-1)^neg * mant * 10^e10] rounded to the
    nearest float, ties to even; an overflow gives an infinity, as
    [float("1e999")] does. *)
Definition of_decimal (neg : bool) (mant : Z) (e10 : Z) : float :=
  match mant with
  | Zpos m =>
      match e10 with
      | Zneg k =>
          let '(mz, ez, lz) :=
            SFdiv_core_binary prec emax (Zpos m) 0 (Z.pow 10 (Zpos k)) 0 in
          binary_round_aux prec emax neg mz ez lz
      | _ => binary_normalize prec emax
               (if neg then Z.opp (Zpos m * Z.pow 10 e10) else Zpos m * Z.pow 10 e10)%Z
               0 neg
      end
  | _ => S754_zero neg
  end.

(** [number [exponent]] of the Python float grammar, read to the end of
    the text: the mantissa digits and the decimal exponent. *)
Definition parse_number (cs : list ascii) : option (Z * Z) :=
  let '(ip, ic, r1) := Text.opt_digits 0 cs in
  let '(mant, fc, r2) :=
    match r1 with
    | c :: r => if Ascii.eqb c "."%char then Text.opt_digits ip r
                else (ip, 0%nat, r1)
    | [] => (ip, 0%nat, r1)
    end in
  if (ic + fc =? 0)%nat then None
  else
    match r2 with
    | [] => Some (mant, (- Z.of_nat fc)%Z)
    | c :: r =>
        if Ascii.eqb c "e"%char || Ascii.eqb c "E"%char then
          let '(eneg, r3) := Text.opt_sign r in
          match Text.opt_digits 0 r3 with
          | (_, O, _) => None
          | (ev, _, []) =>
              Some (mant, ((if eneg then - ev else ev) - Z.of_nat fc)%Z)
          | _ => None
          end
        else None
    end.

(** [float(s)] for a string: [ValueError] is [None].  The text is read
    as ASCII: blanks and digits of other scripts, which Python also
    takes, are not. *)
Definition of_string (s : string) : option float :=
  let '(neg, body) := Text.opt_sign (Text.strip_chars (Text.chars s)) in
  let word := Text.text (map Text.lower_char body) in
  if String.eqb word "inf" || String.eqb word "infinity"
  then Some (S754_infinity neg)
  else if String.eqb word "nan" then Some S754_nan
  else
    match parse_number body with
    | Some (mant, e10) => Some (of_decimal neg mant e10)
    | None => None
    end.

(** A float literal of the source. *)
Definition lit (s : string) : float := default S754_nan (of_string s).

End F64.

(* ===================================================================== *)
(** * Python values and the builtins the source applies to them *)
(* ===================================================================== *)

(** The values a JSON document or a schema literal can hold.  A nested
    dictionary keeps its items as an association list. *)
Inductive pyval :=
| PNone
| PBool (b : bool)
| PInt (z : Z)
| PFloat (f : F64.float)
| PStr (s : string)
| PList (l : list pyval)
| PDict (d : list (string * pyval)).

(** A python [dict] with string keys. *)
Abbreviation dict V := (gmap string V).

(** [d.get(k)] and [d.get(k, dflt)]. *)
Definition dict_get (d : dict pyval) (k : string) : pyval :=
  default PNone (d !! k).
Definition dict_get_or (d : dict pyval) (k : string) (dflt : pyval) : pyval :=
  default dflt (d !! k).

Module Py.

(** A number as the numeric tower sees it: [bool] is a subclass of
    [int]. *)
Inductive number := NInt (z : Z) | NFloat (f : F64.float).

Definition as_number (v : pyval) : option number :=
  match v with
  | PBool b => Some (NInt (if b then 1 else 0))
  | PInt z => Some (NInt z)
  | PFloat f => Some (NFloat f)
  | _ => None
  end.

(** [isinstance(v, bool)] and [isinstance(v, (int, float))]. *)
Definition isinstance_bool (v : pyval) : bool :=
  match v with PBool _ => true | _ => false end.
Definition isinstance_int_float (v : pyval) : bool :=
  match v with PBool _ | PInt _ | PFloat _ => true | _ => false end.

Definition num_compare (a b : number) : option comparison :=
  match a, b with
  | NInt x, NInt y => Some (Z.compare x y)
  | NFloat x, NFloat y => SFcompare x y
  | NInt x, NFloat y => F64.compare_Z x y
  | NFloat x, NInt y => option_map CompOpp (F64.compare_Z y x)
  end.

Definition num_eq (a b : number) : bool :=
  match num_compare a b with Some Eq => true | _ => false end.

Definition both_nan (a b : pyval) : bool :=
  match a, b with
  | PFloat x, PFloat y => F64.is_nan x && F64.is_nan y
  | _, _ => false
  end.

Fixpoint assoc (k : string) (d : list (string * pyval)) : option pyval :=
  match d with
  | [] => None
  | (k', v) :: r => if String.eqb k k' then Some v else assoc k r
  end.

(** [a == b].  Numbers compare by value across [bool], [int] and
    [float]; a NaN differs from everything, itself included.  The items
    of a list or dictionary are compared as containers do, identity
    first: the only containers the source compares are one object with
    itself (a value passed through unchanged), so an item that is a NaN
    meets the very same NaN object at the same position. *)
Fixpoint eq (a b : pyval) : bool :=
  match a, b with
  | PNone, PNone => true
  | PStr s, PStr t => String.eqb s t
  | PList l, PList l' =>
      (fix items (l l' : list pyval) : bool :=
         match l, l' with
         | [], [] => true
         | x :: xs, y :: ys => (both_nan x y || eq x y) && items xs ys
         | _, _ => false
         end) l l'
  | PDict d, PDict d' =>
      (length d =? length d')%nat &&
      (fix items (d : list (string * pyval)) : bool :=
         match d with
         | [] => true
         | (k, v) :: r =>
             match assoc k d' with
             | Some w => (both_nan v w || eq v w) && items r
             | None => false
             end
         end) d
  | _, _ =>
      match as_number a, as_number b with
      | Some x, Some y => num_eq x y
      | _, _ => false
      end
  end.

(** [a != b] *)
Definition ne (a b : pyval) : bool := negb (eq a b).

(** [max(a, b)] and [min(a, b)] of two positional arguments: the first
    argument is kept unless the second is strictly beyond it. *)
Definition max2 {A} (lt : A -> A -> bool) (a b : A) : A :=
  if lt a b then b else a.
Definition min2 {A} (lt : A -> A -> bool) (a b : A) : A :=
  if lt b a then b else a.

(** [float(v)]; [None] is a [TypeError], [ValueError] or
    [OverflowError]. *)
Definition float (v : pyval) : option F64.float :=
  match v with
  | PFloat f => Some f
  | PInt z => F64.of_Z z
  | PBool b => Some (if b then F64.one else F64.zero)
  | PStr s => F64.of_string s
  | PNone | PList _ | PDict _ => None
  end.

(** [int(s)] for a string: decimal digits with an optional sign. *)
Definition int_of_string (s : string) : option Z :=
  let '(neg, body) := Text.opt_sign (Text.strip_chars (Text.chars s)) in
  match Text.opt_digits 0 body with
  | (_, O, _) => None
  | (n, _, []) => Some (if neg then - n else n)%Z
  | _ => None
  end.

(** [int(v)] *)
Definition int (v : pyval) : option Z :=
  match v with
  | PInt z => Some z
  | PBool b => Some (if b then 1 else 0)%Z
  | PFloat f => F64.trunc f
  | PStr s => int_of_string s
  | PNone | PList _ | PDict _ => None
  end.

(** [str(v)] where its text can matter to the source, which only tests
    it against the words true, 1, yes and on.  The text of a finite
    float always holds a point or an exponent, that of a list or
    dictionary starts with a bracket: none of them is one of the four
    words, and they are left out ([None]). *)
Definition str (v : pyval) : option string :=
  match v with
  | PNone => Some "None"
  | PBool true => Some "True"
  | PBool false => Some "False"
  | PInt z => Some (Text.decimal z)
  | PStr s => Some s
  | PFloat S754_nan => Some "nan"
  | PFloat (S754_infinity s) => Some (if s then "-inf" else "inf")
  | PFloat _ | PList _ | PDict _ => None
  end%string.

End Py.

(** [t == name] for the value [t] of [spec.get("type")]. *)
Definition type_is (spec : dict pyval) (name : string) : bool :=
  match spec !! "type" with
  | Some (PStr s) => String.eqb s name
  | _ => false
  end.

(* ===================================================================== *)
(** * Validation helpers *)
(* ===================================================================== *)

Definition truthy_words : list string := ["true"; "1"; "yes"; "on"]%string.

(** [str(value).lower() in ("true", "1", "yes", "on")] *)
Definition str_lower_in_truthy (value : pyval) : bool :=
  match Py.str value with
  | Some s => bool_decide (Text.lower s ∈ truthy_words)
  | None => false
  end.

(** [try: x = e  except Exception: x = fallback] *)
Definition try_except {A} (e fallback : option A) : option A :=
  match e with
  | Some x => Some x
  | None => fallback
  end.

Definition clip_value (value : pyval) (spec : dict pyval) : option pyval :=
  if type_is spec "float" then
    x ← try_except (Py.float value)
                   (Py.float (dict_get_or spec "default" (PFloat F64.zero)));
    lo ← Py.float (dict_get_or spec "min" (PFloat x));
    hi ← Py.float (dict_get_or spec "max" (PFloat x));
    Some (PFloat (Py.min2 F64.ltb (Py.max2 F64.ltb x lo) hi))
  else if type_is spec "integer" then
    x ← try_except (Py.float value ≫= F64.round)
                   (Py.int (dict_get_or spec "default" (PInt 0)));
    lo ← Py.int (dict_get_or spec "min" (PInt x));
    hi ← Py.int (dict_get_or spec "max" (PInt x));
    Some (PInt (Py.min2 Z.ltb (Py.max2 Z.ltb x lo) hi))
  else if type_is spec "bool" then
    if Py.isinstance_bool value then Some value
    else Some (PBool (str_lower_in_truthy value))
  else Some value.

(** One entry of the clip report: [{"in": v_in, "out": v}]. *)
Record clip_entry := ClipEntry { clip_in : pyval; clip_out : pyval }.

(** The three dictionaries [out, clipped, violations]. *)
Record validation := Validation {
  v_out : dict pyval;
  v_clipped : dict clip_entry;
  v_violations : dict string
}.

(** The body of the loop over [schema.items()]. *)
Definition validate_entry (params : dict pyval) (k : string) (spec : dict pyval)
    (acc : option validation) : option validation :=
  st ← acc;
  match params !! k with
  | None =>
      Some (Validation (<[k := dict_get spec "default"]> (v_out st))
                       (v_clipped st)
                       (<[k := "missing->default"%string]> (v_violations st)))
  | Some v_in =>
      v ← clip_value v_in spec;
      Some (Validation (<[k := v]> (v_out st))
                       (if Py.ne v v_in
                        then <[k := ClipEntry v_in v]> (v_clipped st)
                        else v_clipped st)
                       (v_violations st))
  end.

(** The body of the loop over [list(params.keys())]. *)
Definition drop_unknown (schema : dict (dict pyval)) (k : string) (_ : pyval)
    (violations : dict string) : dict string :=
  match schema !! k with
  | None => <[k := "unknown-key->dropped"%string]> violations
  | Some _ => violations
  end.

Definition validate_and_clip (params : dict pyval) (schema : dict (dict pyval))
  : option validation :=
  st ← map_fold (validate_entry params) (Some (Validation ∅ ∅ ∅)) schema;
  Some (Validation (v_out st) (v_clipped st)
                   (map_fold (drop_unknown schema) (v_violations st) params)).

(** Two values that a container comparison takes for equal: the same
    object, or values that [==] holds equal.  One object is one term
    here; where the statements below use the first case, the two passes
    hold the very same object (a value passed through, or the float that
    [float], [max] and [min] hand back untouched). *)
Definition same_value (a b : pyval) : Prop := a = b ∨ Py.eq a b = true.

(** Equality of two validated-params dictionaries as [==] decides it:
    the same keys, and at each key the same value. *)
Definition params_eq (a b : dict pyval) : Prop :=
  ∀ k, match a !! k, b !! k with
       | Some x, Some y => same_value x y
       | None, None => True
       | _, _ => False
       end.

(* ===================================================================== *)
(** * Confidence score *)
(* ===================================================================== *)

Module Num.

Import Py.

(** The float of a number: [OverflowError] for an integer too large. *)
Definition to_float (a : number) : option F64.float :=
  match a with
  | NInt z => F64.of_Z z
  | NFloat f => Some f
  end.

Definition abs (a : number) : number :=
  match a with
  | NInt z => NInt (Z.abs z)
  | NFloat f => NFloat (F64.abs f)
  end.

Definition add (a b : number) : option number :=
  match a, b with
  | NInt x, NInt y => Some (NInt (x + y))
  | _, _ => x ← to_float a; y ← to_float b; Some (NFloat (F64.add x y))
  end.

Definition sub (a b : number) : option number :=
  match a, b with
  | NInt x, NInt y => Some (NInt (x - y))
  | _, _ => x ← to_float a; y ← to_float b; Some (NFloat (F64.sub x y))
  end.

(** The quotient of two integers rounded once to the nearest float:
    [ZeroDivisionError] and [OverflowError] are [None]. *)
Definition int_true_div (x y : Z) : option F64.float :=
  let neg := xorb (x <? 0)%Z (y <? 0)%Z in
  match y, x with
  | Z0, _ => None
  | _, Z0 => Some (S754_zero neg)
  | _, _ =>
      let '(mz, ez, lz) :=
        SFdiv_core_binary F64.prec F64.emax (Z.abs x) 0 (Z.abs y) 0 in
      match binary_round_aux F64.prec F64.emax neg mz ez lz with
      | S754_infinity _ => None
      | f => Some f
      end
  end.

(** [a / b], always a float. *)
Definition div (a b : number) : option F64.float :=
  match a, b with
  | NInt x, NInt y => int_true_div x y
  | _, _ => x ← to_float a; y ← to_float b; F64.div x y
  end.

End Num.

(** The float literals of [confidence_score], read once. *)
Definition eps : F64.float := Eval vm_compute in F64.lit "1e-9".
Definition f_0_0 : F64.float := Eval vm_compute in F64.lit "0.0".
Definition f_0_3 : F64.float := Eval vm_compute in F64.lit "0.3".
Definition f_0_5 : F64.float := Eval vm_compute in F64.lit "0.5".
Definition f_1_0 : F64.float := Eval vm_compute in F64.lit "1.0".

(** The body of the loop over [keys]: what the key appends to [diffs]
    ([Some None] when it appends nothing), or the exception it raises. *)
Definition key_diff (v d : pyval) : option (option F64.float) :=
  if Py.isinstance_int_float v && Py.isinstance_int_float d then
    match Py.as_number v, Py.as_number d with
    | Some nv, Some nd =>
        rng ← Num.add (Num.abs nd) (Py.NFloat f_1_0);
        den ← Num.add rng (Py.NFloat eps);
        dist ← Num.sub nv nd;
        qt ← Num.div (Num.abs dist) den;
        Some (Some (Py.min2 F64.ltb f_1_0 qt))
    | _, _ => None
    end
  else if Py.isinstance_bool v && Py.isinstance_bool d then
    Some (Some (if Py.ne v d then f_0_3 else f_0_0))
  else Some None.

(** The loop over [keys], in the order of the keys given. *)
Fixpoint collect_diffs (items : list (pyval * pyval)) : option (list F64.float) :=
  match items with
  | [] => Some []
  | (v, d) :: r =>
      x ← key_diff v d;
      ds ← collect_diffs r;
      Some (match x with Some f => f :: ds | None => ds end)
  end.

(** [sum(diffs)]: additions from the integer 0, left to right, each
    rounded (the sum of the interpreter the add-on runs in, Python
    3.11). *)
Definition py_sum (diffs : list F64.float) : option Py.number :=
  foldl (fun acc f => a ← acc; Num.add a (Py.NFloat f)) (Some (Py.NInt 0)) diffs.

(** The score from the differences collected: the part of
    [confidence_score] after the loop. *)
Definition score_of_diffs (diffs : list F64.float) (n_clipped n_validated : nat)
  : option F64.float :=
  total ← py_sum diffs;
  base ← Num.div total (Py.NInt (Z.max 1 (Z.of_nat (length diffs))));
  ratio ← Num.div (Py.NInt (Z.of_nat n_clipped))
                  (Py.NInt (Z.max 1 (Z.of_nat n_validated)));
  let clip_penalty := Py.min2 F64.ltb f_0_5 ratio in
  Some (Py.max2 F64.ltb f_0_0
          (Py.min2 F64.ltb f_1_0 (F64.mul base (F64.sub f_1_0 clip_penalty)))).

(** The pairs [(validated[k], defaults[k])] for the keys of [validated]
    that are in [defaults].  The keys come in the order of the map; the
    Python dictionary gives them in insertion order, which can only
    change the rounding of a sum of three or more differences. *)
Definition comparable (validated defaults : dict pyval) : list (pyval * pyval) :=
  omap (fun '(k, v) => d ← defaults !! k; Some (v, d)) (map_to_list validated).

Definition confidence_score {C} (validated defaults : dict pyval) (clipped : dict C)
  : option F64.float :=
  match comparable validated defaults with
  | [] => Some f_0_0
  | items =>
      diffs ← collect_diffs items;
      score_of_diffs diffs (size clipped) (size validated)
  end.

Definition defaults_from_schema (schema : dict (dict pyval)) : dict pyval :=
  (fun v => dict_get v "default") <$> schema.

(* ===================================================================== *)
(** * Grammar compiler *)
(* ===================================================================== *)

Module Json.

Definition hex_digit (n : N) : ascii :=
  ascii_of_N (if (n <? 10)%N then 48 + n else 87 + n).

(** [\uXXXX] with four lower-case hexadecimal digits. *)
Definition u_escape (cp : N) : list ascii :=
  [Text.backslash; "u"%char;
   hex_digit (N.land (N.shiftr cp 12) 15); hex_digit (N.land (N.shiftr cp 8) 15);
   hex_digit (N.land (N.shiftr cp 4) 15); hex_digit (N.land cp 15)].

(** The escape of one code point under [ensure_ascii=True]. *)
Definition escape_cp (cp : N) : list ascii :=
  if (cp =? 34)%N then [Text.backslash; Text.dquote]
  else if (cp =? 92)%N then [Text.backslash; Text.backslash]
  else if (cp =? 10)%N then [Text.backslash; "n"%char]
  else if (cp =? 13)%N then [Text.backslash; "r"%char]
  else if (cp =? 9)%N then [Text.backslash; "t"%char]
  else if (cp =? 8)%N then [Text.backslash; "b"%char]
  else if (cp =? 12)%N then [Text.backslash; "f"%char]
  else if ((32 <=? cp) && (cp <? 127))%N then [ascii_of_N cp]
  else if (cp <? 65536)%N then u_escape cp
  else
    let v := (cp - 65536)%N in
    u_escape (55296 + N.shiftr v 10) ++ u_escape (56320 + N.land v 1023).

Definition cont (c : ascii) : N := N.land (Text.code c) 63.

(** The text is UTF-8; its code points are escaped one by one. *)
Fixpoint escape (cs : list ascii) : list ascii :=
  match cs with
  | [] => []
  | c :: r =>
      let b := Text.code c in
      if (b <? 192)%N then escape_cp b ++ escape r
      else if (b <? 224)%N then
        match r with
        | c2 :: r' => escape_cp (N.shiftl (N.land b 31) 6 + cont c2) ++ escape r'
        | _ => escape_cp b ++ escape r
        end
      else if (b <? 240)%N then
        match r with
        | c2 :: c3 :: r' =>
            escape_cp (N.shiftl (N.land b 15) 12 + N.shiftl (cont c2) 6 + cont c3)
              ++ escape r'
        | _ => escape_cp b ++ escape r
        end
      else
        match r with
        | c2 :: c3 :: c4 :: r' =>
            escape_cp (N.shiftl (N.land b 7) 18 + N.shiftl (cont c2) 12
                       + N.shiftl (cont c3) 6 + cont c4)
              ++ escape r'
        | _ => escape_cp b ++ escape r
        end
  end.

(** [json.dumps(s)] for a string. *)
Definition dumps_str (s : string) : string :=
  Text.text (Text.dquote :: escape (Text.chars s) ++ [Text.dquote]).

End Json.

(** [xs.sort()] on strings: insertion into code-point order. *)
Fixpoint insert_sorted (x : string) (xs : list string) : list string :=
  match xs with
  | [] => [x]
  | y :: r => if String.leb x y then x :: xs else y :: insert_sorted x r
  end.

Definition sort_strings (xs : list string) : list string :=
  foldr insert_sorted [] xs.

Definition keys_where (p : dict pyval -> bool) (schema : dict (dict pyval))
  : list string :=
  sort_strings (map fst (filter (fun kv => p (snd kv) = true) (map_to_list schema))).

Definition number_keys (schema : dict (dict pyval)) : list string :=
  keys_where (fun s => type_is s "float" || type_is s "integer") schema.

Definition bool_keys (schema : dict (dict pyval)) : list string :=
  keys_where (fun s => type_is s "bool") schema.

Definition _alts (xs : list string) : string :=
  Text.join " | " (map Json.dumps_str xs).

Definition boolean_def : string :=
  Text.join Text.nl [
    Text.q "boolean ::= 'true' | 'false'";
    Text.q "number  ::= integer frac? exp?";
    Text.q "integer ::= '-'? ('0' | [1-9] [0-9]*)";
    Text.q "frac    ::= '.' [0-9]+";
    Text.q "exp     ::= ('e' | 'E') ('+' | '-')? [0-9]+";
    Text.q "ws ::= ([ \t\n\r] | comment)*";
    Text.q "comment ::= '/*' ([^*] | '*'+ [^*/])* '*'+ '/'";
    EmptyString
  ].

(** The grammar of the last branch: an object with no members. *)
Definition empty_object_grammar : string :=
  Text.join Text.nl [Text.q "root ::= ws '{' ws '}' ws"; EmptyString; boolean_def].

Definition _gbnf_for_schema (schema : dict (dict pyval)) : string :=
  let number_keys := number_keys schema in
  let bool_keys := bool_keys schema in
  match number_keys, bool_keys with
  | _ :: _, _ :: _ =>
      Text.join Text.nl [
        Text.q "root ::= ws '{' ws members? ws '}' ws";
        Text.q "members ::= pair (ws ',' ws pair)*";
        Text.q "pair ::= number_pair | bool_pair";
        Text.q "number_pair ::= number_key ws ':' ws number";
        ("number_key ::= " ++ _alts number_keys)%string;
        Text.q "bool_pair ::= bool_key ws ':' ws boolean";
        ("bool_key ::= " ++ _alts bool_keys)%string;
        EmptyString;
        boolean_def
      ]
  | _ :: _, [] =>
      Text.join Text.nl [
        Text.q "root ::= ws '{' ws members? ws '}' ws";
        Text.q "members ::= number_pair (ws ',' ws number_pair)*";
        Text.q "number_pair ::= number_key ws ':' ws number";
        ("number_key ::= " ++ _alts number_keys)%string;
        EmptyString;
        boolean_def
      ]
  | [], _ => empty_object_grammar
  end.

(** Whether the text [needle] occurs in [hay]. *)
Fixpoint occurs_in_chars (needle hay : list ascii) : bool :=
  match hay with
  | [] => match needle with [] => true | _ => false end
  | _ :: r => bool_decide (needle `prefix_of` hay) || occurs_in_chars needle r
  end.

Definition occurs_in (needle hay : string) : bool :=
  occurs_in_chars (Text.chars needle) (Text.chars hay).

(* ===================================================================== *)
(** * The JSON span of a response *)
(* ===================================================================== *)

Definition open_brace : ascii := "{"%char.
Definition close_brace : ascii := "}"%char.

(** The longest prefix of [cs] that ends with a closing brace: what the
    greedy [.*] followed by a closing brace matches, the dot matching
    every character under [re.S]. *)
Fixpoint upto_last_close (cs : list ascii) : option (list ascii) :=
  match cs with
  | [] => None
  | c :: r =>
      match upto_last_close r with
      | Some m => Some (c :: m)
      | None => if Ascii.eqb c close_brace then Some [c] else None
      end
  end.

(** [re.search(r"\{.*\}", raw, flags=re.S)]: the leftmost start at which
    the pattern matches, and there the longest match. *)
Fixpoint re_search_braces (cs : list ascii) : option (list ascii) :=
  match cs with
  | [] => None
  | c :: r =>
      if Ascii.eqb c open_brace then
        match upto_last_close r with
        | Some m => Some (c :: m)
        | None => re_search_braces r
        end
      else re_search_braces r
  end.

(** [json_text = m.group(0) if m else raw] *)
Definition json_text_of (raw : string) : string :=
  match re_search_braces (Text.chars raw) with
  | Some m => Text.text m
  | None => raw
  end.

(** The wording of the specification, for comparison: the text after an
    opening brace up to the brace that closes it, counting the braces
    opened in between. *)
Fixpoint balanced_rest (depth : nat) (cs : list ascii) : option (list ascii) :=
  match cs with
  | [] => None
  | c :: r =>
      if Ascii.eqb c open_brace then cons c <$> balanced_rest (S depth) r
      else if Ascii.eqb c close_brace then
        match depth with
        | O => Some [c]
        | S d => cons c <$> balanced_rest d r
        end
      else cons c <$> balanced_rest depth r
  end.

(** The first balanced span of the specification: at the leftmost
    opening brace that is ever closed, the span up to its closing
    brace. *)
Fixpoint first_balanced_span (cs : list ascii) : option (list ascii) :=
  match cs with
  | [] => None
  | c :: r =>
      if Ascii.eqb c open_brace then
        match balanced_rest 0 r with
        | Some m => Some (c :: m)
        | None => first_balanced_span r
        end
      else first_balanced_span r
  end.

Definition spec_json_text_of (raw : string) : string :=
  match first_balanced_span (Text.chars raw) with
  | Some m => Text.text m
  | None => raw
  end.

(* ===================================================================== *)
(** * The inference wrappers *)
(* ===================================================================== *)

(** What the wrappers do to their collaborators, in order. *)
Inductive event :=
| EvAcquireLock
| EvReleaseLock
| EvLoadModel (path : string)
| EvCompileGrammar (grammar : string)
| EvEngineCall (temperature : F64.float) (grammar abort_callback : bool)
| EvWriteWorkerScript
| EvMakeTmpDir
| EvWriteArgs
| EvSpawnWorker
| EvTerminate
| EvSleep (seconds : F64.float)
| EvKill
| EvCommunicate
| EvRemoveArgs.

(** What [llm.create_chat_completion] does on one call: it returns a
    reply whose [choices[0].message.content] is a string or null, a reply
    of another shape, or it raises. *)
Inductive engine_reply :=
| Reply (content : option string)
| Malformed
| RaiseTypeError (mentions_abort_callback : bool)
| RaiseOther.

(** Where an attempt can raise. *)
Inductive failure :=
| EngineRaised (call : nat)
| BadReplyShape
| EmptyResponse
| JsonDecodeError (text : string)
| ValidationRaised (parsed : pyval)
| ScoreRaised
| CommunicateRaised
| BadPayload (payload : pyval).

(** The collaborators: file system, clock, interpreter, llama_cpp, the
    worker.  [spec_block_builds] says whether [build_spec_block(schema)]
    returns the prompt text: it raises when a midpoint [(lo+hi)/2]
    overflows a float or an integer has more digits than the interpreter
    prints; the text itself only reaches the engine. *)
Record world := World {
  path_exists : string -> bool;
  basename : string -> string;
  llama_importable : bool;
  llama_import_error : string;
  load_succeeds : string -> bool;
  grammar_compiles : string -> bool;
  spec_block_builds : dict (dict pyval) -> bool;
  supports_abort_callback : bool;
  engine : nat -> engine_reply;
  json_loads : string -> option pyval;
  exn_text : failure -> string;
  clock : nat -> F64.float;
  mkdir_ok : bool;
  write_args_ok : bool;
  spawn_ok : bool;
  terminate_ok : bool;
  worker_exited : nat -> bool;
  communicate_ok : bool;
  worker_stdout : string;
  worker_stderr_tail : string
}.

(** A [threading.Event] seen through the successive results of its
    [is_set()]; the parameter is [None] when no event is passed. *)
Abbreviation cancel_event := (option (nat -> bool)).

Record state := State {
  trace : list event;
  cancel_reads : nat;
  clock_reads : nat;
  engine_calls : nat;
  polls : nat;
  loaded_model : option string
}.

Definition initial (loaded : option string) : state := State [] 0 0 0 0 loaded.

Inductive report :=
| Report (d : dict pyval)
| Forwarded (v : pyval).

(** The dictionary every path returns. *)
Record result := Result {
  ok : bool;
  params : option (dict pyval);
  elapsed : pyval;
  confidence : F64.float;
  raw : option string;
  clipped : option (dict clip_entry);
  violations : option report;
  model : string
}.

(** How a call ends: it returns, an exception leaves it, or the polling
    budget given to the model of the [while True] loop ran out. *)
Inductive outcome A :=
| Returned (a : A)
| Raised
| StillPolling.
Arguments Returned {A} a.
Arguments Raised {A}.
Arguments StillPolling {A}.

Module Run.

Definition emit (e : event) (s : state) : state :=
  State (trace s ++ [e]) (cancel_reads s) (clock_reads s) (engine_calls s)
        (polls s) (loaded_model s).

(** [cancel_event is not None and cancel_event.is_set()] *)
Definition is_canceled (ev : cancel_event) (s : state) : bool * state :=
  match ev with
  | None => (false, s)
  | Some is_set =>
      (is_set (cancel_reads s),
       State (trace s) (S (cancel_reads s)) (clock_reads s) (engine_calls s)
             (polls s) (loaded_model s))
  end.

(** [perf_counter()] *)
Definition now (w : world) (s : state) : F64.float * state :=
  (clock w (clock_reads s),
   State (trace s) (cancel_reads s) (S (clock_reads s)) (engine_calls s)
         (polls s) (loaded_model s)).

(** [proc.poll() is not None] *)
Definition exited (w : world) (s : state) : bool * state :=
  (worker_exited w (polls s),
   State (trace s) (cancel_reads s) (clock_reads s) (engine_calls s)
         (S (polls s)) (loaded_model s)).

Definition next_reply (w : world) (s : state) : engine_reply * state :=
  (engine w (engine_calls s),
   State (trace s) (cancel_reads s) (clock_reads s) (S (engine_calls s))
         (polls s) (loaded_model s)).

Definition set_loaded (p : string) (s : state) : state :=
  State (trace s) (cancel_reads s) (clock_reads s) (engine_calls s)
        (polls s) (Some p).

Definition error_report (tag : string) : option report :=
  Some (Report {[ "error"%string := PStr tag ]}).

(** The failing results, which differ in elapsed time, tag and model
    name. *)
Definition failed (elapsed : pyval) (violations : option report) (model : string)
  : result :=
  Result false None elapsed f_0_0 None None violations model.

(** [x or None] for a dictionary. *)
Definition or_none {V} (d : dict V) : option (dict V) :=
  if decide (d = ∅) then None else Some d.

(** Truth value of a JSON value. *)
Definition truthy (v : pyval) : bool :=
  match v with
  | PNone => false
  | PBool b => b
  | PInt z => negb (z =? 0)%Z
  | PFloat (S754_zero _) => false
  | PFloat _ => true
  | PStr s => negb (String.eqb s EmptyString)
  | PList l => match l with [] => false | _ => true end
  | PDict d => match d with [] => false | _ => true end
  end.

Definition failure_text (w : world) (f : failure) : string :=
  match f with
  | EmptyResponse => "RuntimeError: empty_response"
  | _ => exn_text w f
  end.

(** From the stripped response text to the validated result: the
    statements both wrappers share.  [json.loads] must give a mapping
    for [validate_and_clip] not to raise. *)
Definition interpret (w : world) (schema : dict (dict pyval)) (raw : string)
  : failure + (validation * F64.float) :=
  match json_loads w (json_text_of raw) with
  | None => inl (JsonDecodeError (json_text_of raw))
  | Some (PDict items) =>
      match validate_and_clip (list_to_map items) schema with
      | None => inl (ValidationRaised (PDict items))
      | Some v =>
          match confidence_score (v_out v) (defaults_from_schema schema)
                                 (v_clipped v) with
          | None => inl ScoreRaised
          | Some conf => inr (v, conf)
          end
      end
  | Some other => inl (ValidationRaised other)
  end.

Definition success (v : validation) (conf : F64.float) (elapsed : pyval)
    (raw : string) (model : string) : result :=
  Result true (Some (v_out v)) elapsed conf (Some raw)
         (or_none (v_clipped v))
         (Report <$> or_none (PStr <$> v_violations v))
         model.

(* ------------------------------------------------------------------- *)
(** ** SOFT: in process, under the inference lock *)

(** [_call(temp, use_grammar)]: the reply, or [None] when the call
    raises.  A [TypeError] naming [abort_callback] is answered by one
    more call without the callback. *)
Definition _call (w : world) (grammar_obj with_abort : bool)
    (temp : F64.float) (use_grammar : bool) (s : state)
  : option engine_reply * state :=
  let g := use_grammar && grammar_obj in
  let '(r, s) := next_reply w (emit (EvEngineCall temp g with_abort) s) in
  match r with
  | RaiseTypeError true =>
      let '(r', s) := next_reply w (emit (EvEngineCall temp g false) s) in
      match r' with
      | RaiseTypeError _ | RaiseOther => (None, s)
      | _ => (Some r', s)
      end
  | RaiseTypeError false | RaiseOther => (None, s)
  | _ => (Some r, s)
  end.

Definition canceled_at (w : world) (t0 : F64.float) (model_path : string)
    (s : state) : result * state :=
  let '(t, s) := now w s in
  (failed (PFloat (F64.sub t t0)) (error_report "canceled")
          (basename w model_path), s).

(** The [try] block of one attempt after the first cancellation test:
    a result to return, or the failure the [except] clause catches. *)
Definition attempt_body (w : world) (ev : cancel_event) (schema : dict (dict pyval))
    (grammar_obj with_abort : bool) (t0 : F64.float) (model_path : string)
    (temp : F64.float) (use_g : bool) (s : state)
  : (failure + result) * state :=
  let call_no := engine_calls s in
  let '(r, s) := _call w grammar_obj with_abort temp use_g s in
  match r with
  | None => (inl (EngineRaised call_no), s)
  | Some reply =>
      let '(c, s) := is_canceled ev s in
      if c then let '(res, s) := canceled_at w t0 model_path s in (inr res, s)
      else
        match reply with
        | Reply content =>
            let raw := Text.strip (default EmptyString content) in
            if String.eqb raw EmptyString then (inl EmptyResponse, s)
            else
              match interpret w schema raw with
              | inl f => (inl f, s)
              | inr (v, conf) =>
                  let '(t, s) := now w s in
                  (inr (success v conf (PFloat (F64.sub t t0)) raw
                                (basename w model_path)), s)
              end
        | _ => (inl BadReplyShape, s)
        end
  end.

(** The loop over the three attempts. *)
Fixpoint attempts (w : world) (ev : cancel_event) (schema : dict (dict pyval))
    (grammar_obj with_abort : bool) (t0 : F64.float) (model_path : string)
    (plan : list (F64.float * bool)) (last_err : option string) (s : state)
  : result * state :=
  match plan with
  | [] =>
      let '(t, s) := now w s in
      (failed (PFloat (F64.sub t t0))
              (error_report (default "unknown"%string last_err))
              (basename w model_path), s)
  | (temp, use_g) :: rest =>
      let '(c, s) := is_canceled ev s in
      if c then canceled_at w t0 model_path s
      else
        let '(r, s) :=
          attempt_body w ev schema grammar_obj with_abort t0 model_path
                       temp use_g s in
        match r with
        | inr res => (res, s)
        | inl f =>
            let '(c, s) := is_canceled ev s in
            if c then canceled_at w t0 model_path s
            else attempts w ev schema grammar_obj with_abort t0 model_path
                          rest (Some (failure_text w f)) s
        end
  end.

Definition plan : list (F64.float * bool) :=
  [(F64.lit "0.4", true); (F64.lit "0.2", true); (F64.lit "0.4", false)].

Definition has_event (ev : cancel_event) : bool :=
  match ev with Some _ => true | None => false end.

(** The body of [with INFER_LOCK:]. *)
Definition locked_body (w : world) (ev : cancel_event) (model_path : string)
    (schema : dict (dict pyval)) (s : state) : outcome result * state :=
  let reload :=
    match loaded_model s with
    | Some p => negb (String.eqb p model_path)
    | None => true
    end in
  let s := if reload then emit (EvLoadModel model_path) s else s in
  if reload && negb (load_succeeds w model_path) then (Raised, s)
  else
    let s := if reload then set_loaded model_path s else s in
    let s := emit (EvCompileGrammar (_gbnf_for_schema schema)) s in
    let grammar_obj := grammar_compiles w (_gbnf_for_schema schema) in
    if negb (spec_block_builds w schema) then (Raised, s)
    else
      let with_abort := has_event ev && supports_abort_callback w in
      let '(t0, s) := now w s in
      let '(res, s) :=
        attempts w ev schema grammar_obj with_abort t0 model_path plan None s in
      (Returned res, s).

Definition run_llm_soft (w : world) (ev : cancel_event) (model_path : string)
    (schema : dict (dict pyval)) (s : state) : outcome result * state :=
  if negb (path_exists w model_path) then
    (Returned (failed (PFloat f_0_0) (error_report "model_missing") "(unset)"), s)
  else if decide (schema = ∅) then
    (Returned (failed (PFloat f_0_0) (error_report "schema_missing")
                      (basename w model_path)), s)
  else if negb (llama_importable w) then
    (Returned (failed (PFloat f_0_0)
                      (error_report ("llama import failed: " ++ llama_import_error w))
                      (basename w model_path)), s)
  else
    let '(r, s) := locked_body w ev model_path schema (emit EvAcquireLock s) in
    (r, emit EvReleaseLock s).

(* ------------------------------------------------------------------- *)
(** ** HARD: a worker process, killed on cancel *)

(** What the parent makes of the line the worker printed: the [try]
    block after the polling loop. *)
Definition read_worker (w : world) (schema : dict (dict pyval)) (t0 : F64.float)
    (model_path : string) (s : state) : (failure + result) * state :=
  let s := emit EvCommunicate s in
  let name := basename w model_path in
  if negb (communicate_ok w) then (inl CommunicateRaised, s)
  else if String.eqb (worker_stdout w) EmptyString then
    let '(t, s) := now w s in
    (inr (failed (PFloat (F64.sub t t0))
                 (Some (Report (<["stderr"%string := PStr (worker_stderr_tail w)]>
                                  {[ "error"%string := PStr "subproc_no_output" ]})))
                 name), s)
  else
    match json_loads w (worker_stdout w) with
    | None => (inl (JsonDecodeError (worker_stdout w)), s)
    | Some (PDict payload) =>
        if truthy (default PNone (Py.assoc "ok" payload)) then
          let raw_field := default PNone (Py.assoc "raw" payload) in
          match (if truthy raw_field then raw_field else PStr EmptyString) with
          | PStr text =>
              let raw := Text.strip text in
              if String.eqb raw EmptyString then
                let '(t, s) := now w s in
                (inr (failed (PFloat (F64.sub t t0))
                             (error_report "empty_response") name), s)
              else
                match interpret w schema raw with
                | inl f => (inl f, s)
                | inr (v, conf) =>
                    let '(t, s) := now w s in
                    (inr (success v conf
                            (default (PFloat (F64.sub t t0))
                                     (Py.assoc "elapsed" payload))
                            raw name), s)
                end
          | _ => (inl (BadPayload (PDict payload)), s)
          end
        else
          let '(t, s) := now w s in
          let reported := default PNone (Py.assoc "violations" payload) in
          (inr (failed (PFloat (F64.sub t t0))
                       (if truthy reported then Some (Forwarded reported)
                        else error_report "subproc_failed")
                       name), s)
    | Some other => (inl (BadPayload other), s)
    end.

(** The polling loop and what follows it, inside [try]; [fuel] bounds
    the number of rounds of the loop. *)
Fixpoint poll_loop (fuel : nat) (w : world) (ev : cancel_event)
    (schema : dict (dict pyval)) (t0 : F64.float) (model_path : string)
    (s : state) : outcome result * state :=
  match fuel with
  | O => (StillPolling, s)
  | S fuel' =>
      let '(c, s) := is_canceled ev s in
      if c then
        let s := emit EvTerminate s in
        let s :=
          if terminate_ok w then
            let '(gone, s) := exited w (emit (EvSleep (F64.lit "0.25")) s) in
            if gone then s else emit EvKill s
          else s in
        let '(res, s) := canceled_at w t0 model_path s in
        (Returned res, s)
      else
        let '(gone, s) := exited w s in
        if gone then
          let '(r, s) := read_worker w schema t0 model_path s in
          match r with
          | inr res => (Returned res, s)
          | inl f =>
              let '(t, s) := now w s in
              (Returned (failed (PFloat (F64.sub t t0))
                                (error_report ("subproc_error: " ++ exn_text w f))
                                (basename w model_path)), s)
          end
        else
          poll_loop fuel' w ev schema t0 model_path
                    (emit (EvSleep (F64.lit "0.05")) s)
  end.

Definition run_llm_hard (fuel : nat) (w : world) (ev : cancel_event)
    (model_path : string) (schema : dict (dict pyval)) (s : state)
  : outcome result * state :=
  let '(t0, s) := now w s in
  if negb (path_exists w model_path) then
    (Returned (failed (PFloat f_0_0) (error_report "model_missing") "(unset)"), s)
  else if decide (schema = ∅) then
    (Returned (failed (PFloat f_0_0) (error_report "schema_missing")
                      (basename w model_path)), s)
  else
    let s := emit EvMakeTmpDir (emit EvWriteWorkerScript s) in
    if negb (mkdir_ok w) then (Raised, s)
    else
      let s := emit EvWriteArgs s in
      if negb (write_args_ok w) then (Raised, s)
      else
        let s := emit EvSpawnWorker s in
        if negb (spawn_ok w) then (Raised, s)
        else
          let '(r, s) := poll_loop fuel w ev schema t0 model_path s in
          (r, emit EvRemoveArgs s).

(** The events by which inference is set going: a completion call in
    this process, or the start of the worker process that loads the
    model and runs the completion. *)
Definition starts_inference (e : event) : bool :=
  match e with
  | EvEngineCall _ _ _ | EvSpawnWorker => true
  | _ => false
  end.

Definition is_engine_call (e : event) : bool :=
  match e with
  | EvEngineCall _ _ _ => true
  | _ => false
  end.

End Run.

(* ===================================================================== *)
(** * Predicates used in the statements *)
(* ===================================================================== *)

(** What the three dictionaries hold at key [k] once the schema [m] has
    been walked for the candidate [params]. *)
Definition entry_done (params : dict pyval) (m : dict (dict pyval))
    (st : validation) (k : string) : Prop :=
  match m !! k with
  | None =>
      v_out st !! k = None ∧ v_clipped st !! k = None
      ∧ v_violations st !! k = None
  | Some spec =>
      match params !! k with
      | None =>
          v_out st !! k = Some (dict_get spec "default")
          ∧ v_clipped st !! k = None
          ∧ v_violations st !! k = Some "missing->default"%string
      | Some v_in =>
          ∃ v, clip_value v_in spec = Some v
               ∧ v_out st !! k = Some v
               ∧ v_clipped st !! k
                 = (if Py.ne v v_in then Some (ClipEntry v_in v) else None)
               ∧ v_violations st !! k = None
      end
  end.

(** Whether the conversions [clip_value] applies to the entry itself
    (to its default and to the bounds it has) succeed. *)
Definition converts {A} (conv : pyval -> option A) (o : option pyval) : bool :=
  match o with
  | Some v => match conv v with Some _ => true | None => false end
  | None => true
  end.

Definition conversions_ok (spec : dict pyval) : bool :=
  if type_is spec "float" then
    converts Py.float (Some (dict_get_or spec "default" (PFloat F64.zero)))
    && converts Py.float (spec !! "min") && converts Py.float (spec !! "max")
  else if type_is spec "integer" then
    converts Py.int (Some (dict_get_or spec "default" (PInt 0)))
    && converts Py.int (spec !! "min") && converts Py.int (spec !! "max")
  else true.

(** [lo <= f <= hi] on floats. *)
Definition float_between (lo hi f : F64.float) : bool :=
  F64.leb lo f && F64.leb f hi.

(** The scenarios of the specification. *)
Definition x_spec : dict pyval :=
  <["type" := PStr "float"]> (<["min" := PInt 0]> (<["max" := PInt 10]>
    (<["default" := PInt 5]> ∅))).

Definition x_schema : dict (dict pyval) := <["x" := x_spec]> ∅.

Definition flag_spec : dict pyval :=
  <["type" := PStr "bool"]> (<["default" := PBool false]> ∅).

Definition flag_schema : dict (dict pyval) := <["flag" := flag_spec]> ∅.

Definition flag_yes : dict pyval := <["flag" := PStr "yes"]> ∅.

(** A float entry whose default lies outside its bounds, and one with
    no default at all. *)
Definition wide_spec : dict pyval :=
  <["type" := PStr "float"]> (<["min" := PInt 0]> (<["max" := PInt 10]>
    (<["default" := PInt 50]> ∅))).

Definition bare_spec : dict pyval := <["type" := PStr "float"]> ∅.

(** A boolean entry whose default is a word. *)
Definition odd_spec : dict pyval :=
  <["type" := PStr "bool"]> (<["default" := PStr "maybe"]> ∅).

Definition wide_schema : dict (dict pyval) :=
  <["x" := wide_spec]> (<["y" := bare_spec]> (<["z" := odd_spec]> ∅)).

Definition ten : F64.float := F64.lit "10".

Definition nan_candidate : dict pyval := <["x" := PStr "nan"]> ∅.

(** A schema whose only entry has its default outside its bounds. *)
Definition wide_x_schema : dict (dict pyval) := <["x" := wide_spec]> ∅.

(** An integer entry that meets [min <= default <= max], with a default
    that no float represents: 2^53 + 1. *)
Definition big_spec : dict pyval :=
  <["type" := PStr "integer"]> (<["min" := PInt 0]>
    (<["max" := PInt 1152921504606846976]>
      (<["default" := PInt 9007199254740993]> ∅))).

Definition big_schema : dict (dict pyval) := <["n" := big_spec]> ∅.

(** A schema with a float, an integer and a boolean entry, and a
    candidate that lacks the float. *)
Definition n_spec : dict pyval :=
  <["type" := PStr "integer"]> (<["min" := PInt 1]> (<["max" := PInt 25]>
    (<["default" := PInt 12]> ∅))).

Definition mixed_schema : dict (dict pyval) :=
  <["x" := x_spec]> (<["n" := n_spec]> (<["flag" := flag_spec]> ∅)).

Definition mixed_candidate : dict pyval :=
  <["n" := PStr "7.6"]> (<["flag" := PStr "yes"]> ∅).

(** What the numeric branch of [key_diff] gives for a boolean that
    changed: 1/(1 + 1 + 1e-9) downwards, 1/(0 + 1 + 1e-9) upwards. *)
Definition diff_true_to_false : F64.float := S754_finite false 9007199250237392 (-54).
Definition diff_false_to_true : F64.float := S754_finite false 9007199245733792 (-53).

Definition flag_true : dict pyval := <["flag" := PBool true]> ∅.
Definition flag_false : dict pyval := <["flag" := PBool false]> ∅.

(** Two objects in one response, and an object followed by a stray
    closing brace. *)
Definition sure_done : string := Text.q "Sure! {'x': 3} done.".
Definition x_is_3 : string := Text.q "{'x': 3}".
Definition two_objects : string := Text.q "{'x': 3} and {'y': 4}".
Definition stray_brace : string := Text.q "{'x': 3} :-}".

(** Some opening brace of the text has a closing brace after it. *)
Definition has_braces (cs : list ascii) : Prop :=
  ∃ pre mid post, cs = pre ++ (open_brace :: (mid ++ (close_brace :: post))).

(** A world in which the model file is there or not, every collaborator
    works, the engine answers with an empty object and the worker never
    exits by itself; and an event that is set from the start. *)
Definition calm_world (model_there : bool) : world :=
  World (fun _ => model_there) (fun p => p) true EmptyString
        (fun _ => true) (fun _ => true) (fun _ => true) true
        (fun _ => Reply (Some "{}"%string)) (fun _ => Some (PDict []))
        (fun _ => EmptyString) (fun _ => F64.zero)
        true true true true (fun _ => false) true EmptyString EmptyString.

Definition always_set : nat -> bool := fun _ => true.

(** What the parent does to the worker once it has asked it to
    terminate, and the removal of the argument file. *)
Definition is_cleanup (e : event) : bool :=
  match e with
  | EvSleep _ | EvKill | EvRemoveArgs => true
  | _ => false
  end.

Definition no_inference (es : list event) : bool :=
  forallb (fun e => negb (Run.starts_inference e)) es.

(* ===================================================================== *)
(** * Definitions for the further properties *)
(* ===================================================================== *)

(** A dictionary display [{k1: v1, k2: v2, ...}]: the items are stored
    in order, a later one replacing an earlier one with the same key. *)
Definition dict_of {V} (items : list (string * V)) : dict V :=
  foldl (fun d kv => <[kv.1 := kv.2]> d) ∅ items.

(** An entry that keeps the invariant of the data model: a float entry
    has a float default and bounds that [float] accepts, with
    min <= default <= max; an integer entry has integer bounds and
    default, with min <= default <= max, within the integers a float
    holds exactly; a boolean entry has a boolean default.  An entry of
    another type, whose values pass through, is not constrained. *)
Definition well_formed (spec : dict pyval) : bool :=
  if type_is spec "float" then
    match spec !! "min", spec !! "max", spec !! "default" with
    | Some mn, Some mx, Some (PFloat d) =>
        match Py.float mn, Py.float mx with
        | Some lo, Some hi =>
            F64.leb lo hi && F64.leb lo d && F64.leb d hi
        | _, _ => false
        end
    | _, _, _ => false
    end
  else if type_is spec "integer" then
    match spec !! "min", spec !! "max", spec !! "default" with
    | Some (PInt lo), Some (PInt hi), Some (PInt d) =>
        ((lo <=? d) && (d <=? hi) && (- 2 ^ 53 <=? lo) && (hi <=? 2 ^ 53))%Z
    | _, _, _ => false
    end
  else if type_is spec "bool" then
    match spec !! "default" with Some (PBool _) => true | _ => false end
  else true.

(** A value of the type of the entry and within its bounds; a float may
    also be a NaN, which no bound holds. *)
Definition within (spec : dict pyval) (r : pyval) : bool :=
  if type_is spec "float" then
    match r, spec !! "min" ≫= Py.float, spec !! "max" ≫= Py.float with
    | PFloat f, Some lo, Some hi => F64.is_nan f || float_between lo hi f
    | _, _, _ => false
    end
  else if type_is spec "integer" then
    match r, spec !! "min", spec !! "max" with
    | PInt z, Some (PInt lo), Some (PInt hi) => ((lo <=? z) && (z <=? hi))%Z
    | _, _, _ => false
    end
  else if type_is spec "bool" then Py.isinstance_bool r
  else true.

(** The schema the add-on ships, [USER_SOCKET_SCHEMA] of
    [user_socket_schema.py], entry by entry; [-x] is the negation of the
    literal [x]. *)
Definition USER_SOCKET_SCHEMA : dict (dict pyval) :=
  dict_of [
    ("Socket_3", dict_of
      [("description", PStr "幹の全長（根元から先端までの距離）");
       ("type", PStr "float");
       ("min", PFloat (F64.lit "0.0"));
       ("max", PFloat (F64.lit "40.0"));
       ("default", PFloat (F64.lit "4.0"))]);
    ("Socket_4", dict_of
      [("description", PStr "第1段の枝の長さ");
       ("type", PStr "float");
       ("min", PFloat (F64.lit "0.0"));
       ("max", PFloat (F64.lit "40.0"));
       ("default", PFloat (F64.lit "3.0"))]);
    ("Socket_5", dict_of
      [("description", PStr "第2段の枝の長さ");
       ("type", PStr "float");
       ("min", PFloat (F64.lit "0.0"));
       ("max", PFloat (F64.lit "40.0"));
       ("default", PFloat (F64.lit "2.0"))]);
    ("Socket_6", dict_of
      [("description", PStr "第3段の枝の長さ");
       ("type", PStr "float");
       ("min", PFloat (F64.lit "0.0"));
       ("max", PFloat (F64.lit "40.0"));
       ("default", PFloat (F64.lit "2.0"))]);
    ("Socket_7", dict_of
      [("description", PStr "第4段の枝の長さ");
       ("type", PStr "float");
       ("min", PFloat (F64.lit "0.0"));
       ("max", PFloat (F64.lit "40.0"));
       ("default", PFloat (F64.lit "1.0"))]);
    ("Socket_8", dict_of
      [("description", PStr "第5段の枝の長さ");
       ("type", PStr "float");
       ("min", PFloat (F64.lit "0.0"));
       ("max", PFloat (F64.lit "40.0"));
       ("default", PFloat (F64.lit "1.0"))]);
    ("Socket_9", dict_of
      [("description", PStr "幹カーブの制御点数");
       ("type", PStr "integer");
       ("min", PInt 1);
       ("max", PInt 25);
       ("default", PInt 12)]);
    ("Socket_10", dict_of
      [("description", PStr "第1段の枝カーブの制御点数");
       ("type", PStr "integer");
       ("min", PInt 1);
       ("max", PInt 20);
       ("default", PInt 8)]);
    ("Socket_11", dict_of
      [("description", PStr "第2段の枝カーブの制御点数");
       ("type", PStr "integer");
       ("min", PInt 1);
       ("max", PInt 15);
       ("default", PInt 5)]);
    ("Socket_12", dict_of
      [("description", PStr "第3段の枝カーブの制御点数");
       ("type", PStr "integer");
       ("min", PInt 1);
       ("max", PInt 10);
       ("default", PInt 5)]);
    ("Socket_13", dict_of
      [("description", PStr "第4段の枝カーブの制御点数");
       ("type", PStr "integer");
       ("min", PInt 1);
       ("max", PInt 5);
       ("default", PInt 3)]);
    ("Socket_14", dict_of
      [("description", PStr "第5段の枝カーブの制御点数");
       ("type", PStr "integer");
       ("min", PInt 1);
       ("max", PInt 5);
       ("default", PInt 3)]);
    ("Socket_23", dict_of
      [("description", PStr "第1段の枝の生える角度（-π/2〜+π/2）");
       ("type", PStr "float");
       ("min", PFloat (SFopp (F64.lit "1.57079")));
       ("max", PFloat (F64.lit "1.57079"));
       ("default", PFloat (F64.lit "1.0472"))]);
    ("Socket_24", dict_of
      [("description", PStr "第2段の枝の生える角度（0〜π/2）");
       ("type", PStr "float");
       ("min", PFloat (F64.lit "0.0"));
       ("max", PFloat (F64.lit "1.57079"));
       ("default", PFloat (F64.lit "1.0472"))]);
    ("Socket_25", dict_of
      [("description", PStr "第3段の枝の生える角度（0〜π/2）");
       ("type", PStr "float");
       ("min", PFloat (F64.lit "0.0"));
       ("max", PFloat (F64.lit "1.57079"));
       ("default", PFloat (F64.lit "1.0472"))]);
    ("Socket_26", dict_of
      [("description", PStr "第4段の枝の生える角度（0〜π/2）");
       ("type", PStr "float");
       ("min", PFloat (F64.lit "0.0"));
       ("max", PFloat (F64.lit "1.57079"));
       ("default", PFloat (F64.lit "1.0472"))]);
    ("Socket_27", dict_of
      [("description", PStr "第5段の枝の生える角度（0〜π/2）");
       ("type", PStr "float");
       ("min", PFloat (F64.lit "0.0"));
       ("max", PFloat (F64.lit "1.57079"));
       ("default", PFloat (F64.lit "1.0472"))]);
    ("Socket_36", dict_of
      [("description", PStr "幹の基部半径");
       ("type", PStr "float");
       ("min", PFloat (F64.lit "0.0"));
       ("max", PInt 10);
       ("default", PFloat (F64.lit "0.2"))]);
    ("Socket_42", dict_of
      [("description", PStr "葉を有効化（ONで葉を生成／OFFで枝のみ）");
       ("type", PStr "bool");
       ("default", PBool true)]);
    ("Socket_44", dict_of
      [("description", PStr "葉の密度スケール（最終密度 = 〈この値〉 × pow(分布インデックス, 密度指数)）");
       ("type", PStr "float");
       ("min", PFloat (F64.lit "0.0"));
       ("max", PFloat (F64.lit "500.0"));
       ("default", PFloat (F64.lit "200.0"))]);
    ("Socket_45", dict_of
      [("description", PStr "密度指数（ガンマ）：1で線形、1未満は“低域持ち上げ”、1より大きいと“抑え気味”の分布にする");
       ("type", PStr "float");
       ("min", PFloat (F64.lit "0.0"));
       ("max", PFloat (F64.lit "1.0"));
       ("default", PFloat (F64.lit "0.5"))]);
    ("Socket_46", dict_of
      [("description", PStr "葉の生成レベル（1〜6）。値以上の分岐階層にのみ葉を生成：1=幹から／2=一次枝から／3=二次枝から／4=三次枝から／5=四次枝から／6=五次枝のみ");
       ("type", PStr "integer");
       ("min", PInt 1);
       ("max", PInt 6);
       ("default", PInt 4)]);
    ("Socket_47", dict_of
      [("description", PStr "葉の縦方向角（基準角、ラジアン）。0=水平、正で上向き・負で下向き");
       ("type", PStr "float");
       ("min", PFloat (SFopp (F64.lit "1.57079")));
       ("max", PFloat (F64.lit "1.57079"));
       ("default", PFloat (SFopp (F64.lit "0.349066")))]);
    ("Socket_48", dict_of
      [("description", PStr "葉の角度のカーブ寄せ角（ラジアン）。0=寄せない／±で寄せ量を調整（-π/2〜+π/2）");
       ("type", PStr "float");
       ("min", PFloat (SFopp (F64.lit "1.57079")));
       ("max", PFloat (F64.lit "1.57079"));
       ("default", PFloat (F64.lit "0.785398"))]);
    ("Socket_49", dict_of
      [("description", PStr "葉の基準スケール（相対倍率）。値が大きいほど葉が大きくなる");
       ("type", PStr "float");
       ("min", PFloat (F64.lit "0.01"));
       ("max", PFloat (F64.lit "5.0"));
       ("default", PFloat (F64.lit "1.0"))])
  ]%string.

(** Code-point order along a list, as [sort] leaves it. *)
Fixpoint ascending (xs : list string) : bool :=
  match xs with
  | x :: (y :: _) as r => String.leb x y && ascending r
  | _ => true
  end.

(** [t in ("float", "integer")] *)
Definition is_numeric (spec : dict pyval) : bool :=
  type_is spec "float" || type_is spec "integer".

(** The events of the in-process strategy between taking and releasing
    the lock, and the events of the worker-process strategy. *)
Definition in_process (e : event) : bool :=
  match e with
  | EvLoadModel _ | EvCompileGrammar _ | EvEngineCall _ _ _ => true
  | _ => false
  end.

Definition out_of_process (e : event) : bool :=
  match e with
  | EvWriteWorkerScript | EvMakeTmpDir | EvWriteArgs | EvSpawnWorker
  | EvTerminate | EvSleep _ | EvKill | EvCommunicate | EvRemoveArgs => true
  | _ => false
  end.

(** [s'] comes after [s] by the events [added], all of them completion
    calls, one for each call counted; nothing else but the counters of
    the clock and of the cancellation event moved. *)
Definition calls_added (s s' : state) (added : list event) : Prop :=
  trace s' = trace s ++ added
  ∧ forallb Run.is_engine_call added = true
  ∧ engine_calls s' = (engine_calls s + length added)%nat
  ∧ polls s' = polls s
  ∧ loaded_model s' = loaded_model s
  ∧ (cancel_reads s <= cancel_reads s')%nat.

(** The same for the worker-process strategy: the events [added] are
    its own, and no completion call is counted. *)
Definition worker_events_added (s s' : state) (added : list event) : Prop :=
  trace s' = trace s ++ added
  ∧ forallb out_of_process added = true
  ∧ engine_calls s' = engine_calls s
  ∧ loaded_model s' = loaded_model s
  ∧ (cancel_reads s <= cancel_reads s')%nat.

(** The result every cancellation path returns, the elapsed time apart. *)
Definition is_canceled_result (r : result) : Prop :=
  ok r = false ∧ params r = None ∧ raw r = None ∧ clipped r = None
  ∧ confidence r = f_0_0
  ∧ violations r = Some (Report {[ "error"%string := PStr "canceled" ]}).

(** What [cancel_event.is_set()] gives on its [i]-th reading; no event,
    no cancellation. *)
Definition seen (ev : cancel_event) (i : nat) : bool :=
  match ev with
  | Some is_set => is_set i
  | None => false
  end.

(** The shape every returned dictionary has.  With [ok] it holds the
    response text, not empty, and what the pipeline made of its JSON
    span: the validated parameters, of exactly the keys of the schema,
    the clip report and a confidence in [0, 1].  Without [ok] it holds
    no parameters, no text, no clip report, the confidence 0.0 and a
    report of the error. *)
Definition well_shaped (w : world) (schema : dict (dict pyval)) (r : result)
  : Prop :=
  if ok r then
    ∃ text items v,
      raw r = Some text ∧ text ≠ EmptyString
      ∧ json_loads w (json_text_of text) = Some (PDict items)
      ∧ validate_and_clip (list_to_map items) schema = Some v
      ∧ params r = Some (v_out v) ∧ dom (v_out v) = dom schema
      ∧ clipped r = Run.or_none (v_clipped v)
      ∧ violations r = Report <$> Run.or_none (PStr <$> v_violations v)
      ∧ confidence_score (v_out v) (defaults_from_schema schema) (v_clipped v)
        = Some (confidence r)
      ∧ float_between f_0_0 f_1_0 (confidence r) = true
  else
    params r = None ∧ raw r = None ∧ clipped r = None
    ∧ confidence r = f_0_0 ∧ is_Some (violations r).

(** The postcondition of the attempt loop and of its parts: the events
    added are completion calls, at most [budget] of them; a result is
    well shaped; and a reading of the event that gave [True] is followed
    by the canceled result. *)
Definition attempt_post (w : world) (ev : cancel_event) (schema : dict (dict pyval))
    (budget : nat) (s : state) (res : option result) (s' : state) : Prop :=
  (∃ added, calls_added s s' added ∧ (length added <= budget)%nat)
  ∧ (∀ r, res = Some r → well_shaped w schema r)
  ∧ (∀ i, (cancel_reads s <= i < cancel_reads s')%nat → seen ev i = true →
          ∃ r, res = Some r ∧ is_canceled_result r).

(** The postcondition of the polling loop: the events added are those
    of the worker-process strategy; no exception leaves the loop; a
    result is well shaped; and a reading of the event that gave [True]
    is followed by the canceled result. *)
Definition poll_post (w : world) (ev : cancel_event) (schema : dict (dict pyval))
    (s : state) (out : outcome result) (s' : state) : Prop :=
  (∃ added, worker_events_added s s' added)
  ∧ out ≠ Raised
  ∧ (∀ r, out = Returned r → well_shaped w schema r)
  ∧ (∀ i, (cancel_reads s <= i < cancel_reads s')%nat → seen ev i = true →
          ∃ r, out = Returned r ∧ is_canceled_result r).

(** [(not gen.is_loaded()) or (gen.model_path != model_path)] *)
Definition must_load (s : state) (model_path : string) : bool :=
  match loaded_model s with
  | Some p => negb (String.eqb p model_path)
  | None => true
  end.

(** A world like the calm one whose engine raises on every call. *)
Definition failing_world : world :=
  World (fun _ => true) (fun p => p) true EmptyString
        (fun _ => true) (fun _ => true) (fun _ => true) true
        (fun _ => RaiseOther) (fun _ => Some (PDict []))
        (fun _ => "RuntimeError: boom"%string) (fun _ => F64.zero)
        true true true true (fun _ => false) true EmptyString EmptyString.

(* ===================================================================== *)
(** * Single flight: the task registry, the operators and the callbacks *)
(* ===================================================================== *)
Module Ui.

(** A [_Task] object: its [id], whether its [cancel_event] is set and
    whether a worker process is attached ([proc is not None]);
    [started_at] is never read. *)
Record _Task := Task {
  task_id : Z;
  cancel_event_set : bool;
  proc_attached : bool
}.

(** A worker thread that [TREE_OT_Generate] started and whose callback
    has not run yet: the task it was given (the position of the object
    in [tasks]), the cancel mode, and whether it is inside
    [with INFER_LOCK]. *)
Record worker_thread := WorkerThread {
  th_task : nat;
  th_cancel_mode : string;
  th_in_lock : bool
}.

(** What the operators and callbacks show or set going, in order. *)
Inductive ui_event :=
| Report (level message : string)
| Popup (title : string)
| ProgressBegin
| ProgressEnd
| ThreadStart (task : nat) (prompt model_path : string)
    (schema_copy : dict (dict pyval)) (cancel_mode : string)
| ProcTerminate (task : nat)
| ProcKill (task : nat)
| Sleep
| ModelPathSet (path : string)
| ObjectSpawned (r : result)
| ObjectRemoved.

(** The globals [_TASK_SEQ] and [_CURRENT_TASK], the [_Task] objects made
    so far (an object is named by its position; [is] compares
    positions), the two flags of the window manager, the worker threads
    under way and the effects so far. *)
Record session := Session {
  tasks : list _Task;
  _TASK_SEQ : Z;
  _CURRENT_TASK : option nat;
  treegen_busy : bool;
  treegen_engine_busy : bool;
  threads : list worker_thread;
  shown : list ui_event
}.

(** The state at [register()]: both flags at their default. *)
Definition registered : session := Session [] 0 None false false [] [].

Definition show (es : list ui_event) (st : session) : session :=
  Session (tasks st) (_TASK_SEQ st) (_CURRENT_TASK st) (treegen_busy st)
          (treegen_engine_busy st) (threads st) (shown st ++ es).

Definition set_busy (b : bool) (st : session) : session :=
  Session (tasks st) (_TASK_SEQ st) (_CURRENT_TASK st) b
          (treegen_engine_busy st) (threads st) (shown st).

Definition set_engine_busy (b : bool) (st : session) : session :=
  Session (tasks st) (_TASK_SEQ st) (_CURRENT_TASK st) (treegen_busy st)
          b (threads st) (shown st).

Definition set_threads (ths : list worker_thread) (st : session) : session :=
  Session (tasks st) (_TASK_SEQ st) (_CURRENT_TASK st) (treegen_busy st)
          (treegen_engine_busy st) ths (shown st).

Definition set_tasks (ts : list _Task) (st : session) : session :=
  Session ts (_TASK_SEQ st) (_CURRENT_TASK st) (treegen_busy st)
          (treegen_engine_busy st) (threads st) (shown st).

(** [INFER_LOCK.locked()]: only [run_llm_soft] takes the lock, in a
    worker thread. *)
Definition locked (st : session) : bool := existsb th_in_lock (threads st).

Definition _new_task (st : session) : nat * session :=
  let seq := (_TASK_SEQ st + 1)%Z in
  (length (tasks st),
   Session (tasks st ++ [Task seq false false]) seq (Some (length (tasks st)))
           (treegen_busy st) (treegen_engine_busy st) (threads st) (shown st)).

Definition _get_task (st : session) : option nat := _CURRENT_TASK st.

Definition _clear_task_if (task : nat) (st : session) : session :=
  match _CURRENT_TASK st with
  | Some t =>
      if Nat.eqb t task
      then Session (tasks st) (_TASK_SEQ st) None (treegen_busy st)
                   (treegen_engine_busy st) (threads st) (shown st)
      else st
  | None => st
  end.

(** [_end_progress(wm)] *)
Definition _end_progress (st : session) : session := show [ProgressEnd] st.

(** What an operator hands back: the sets [{'FINISHED'}] and
    [{'CANCELLED'}], or an exception. *)
Inductive verdict := FINISHED | CANCELLED | RAISED.

(** What [TREE_OT_Generate.execute] reads: the prompt, the schema [SC],
    the cancel mode and the model path of the preferences, made
    absolute; the files there are before and after
    [ensure_models(auto_download=True)], which downloads; what
    [ensure_models] and [default_model_path] return; and the copy
    [json.loads(json.dumps(SC))], [None] when it raises. *)
Record generate_input := GenerateInput {
  g_prompt : string;
  g_SC : dict (dict pyval);
  g_cancel_mode : string;
  g_model_path : string;
  g_exists : string -> bool;
  g_ensure_models : bool;
  g_default_model_path : string;
  g_exists_after : string -> bool;
  g_schema_copy : option (dict (dict pyval))
}.

Definition unset (p : string) : bool := String.eqb p EmptyString.

(** The block that resolves the model: the path to use, [None] when
    there is none, and the path written to the preferences if any.  When
    the configured path is unset or names no file, [ensure_models] runs
    and the files are looked for again. *)
Definition resolve_model (g : generate_input) : option string * list ui_event :=
  let p := g_model_path g in
  if unset p || negb (g_exists g p) then
    let '(p', set) :=
      if g_ensure_models g && g_exists_after g (g_default_model_path g)
      then (g_default_model_path g, [ModelPathSet (g_default_model_path g)])
      else (p, []) in
    if unset p' || negb (g_exists_after g p') then (None, set)
    else (Some p', set)
  else (Some p, []).

Definition TREE_OT_Generate_execute (g : generate_input) (st : session)
  : verdict * session :=
  if treegen_engine_busy st || locked st then
    (CANCELLED,
     show [Report "WARNING" "Engine is busy (running or stopping). Please wait."] st)
  else
    let prompt := Text.strip (g_prompt g) in
    if String.eqb prompt EmptyString then
      (CANCELLED, show [Report "WARNING" "プロンプトが空です"] st)
    else if decide (g_SC g = ∅) then
      (CANCELLED, show [Popup "Schema Missing"] st)
    else
      match resolve_model g with
      | (None, set) =>
          (CANCELLED,
           show (set ++ [Popup "Setup Required";
                         Report "ERROR" "Model missing. Go to Preferences to Setup."]) st)
      | (Some model_path, set) =>
          let st := show set st in
          let st := set_busy true (set_engine_busy true st) in
          let st := show [ProgressBegin] st in
          let '(t, st) := _new_task st in
          match g_schema_copy g with
          | None => (RAISED, st)
          | Some schema_copy =>
              let st :=
                set_threads (threads st ++ [WorkerThread t (g_cancel_mode g) false])
                            st in
              (FINISHED,
               show [ThreadStart t prompt model_path schema_copy (g_cancel_mode g);
                     Report "INFO" "Running LLM..."] st)
          end
      end.

(** [task.cancel_event.set()] *)
Definition set_cancel_event (task : nat) (st : session) : session :=
  set_tasks (alter (fun t => Task (task_id t) true (proc_attached t)) task (tasks st))
            st.

(** [task.proc = proc] *)
Definition attach_proc (task : nat) (st : session) : session :=
  set_tasks (alter (fun t => Task (task_id t) (cancel_event_set t) true) task
                   (tasks st)) st.

(** What [TREE_OT_Cancel.execute] finds when it looks at the worker
    process: whether it is still running at the first and at the second
    [poll()], and whether [terminate()] works. *)
Record cancel_input := CancelInput {
  c_running : bool;
  c_terminate_ok : bool;
  c_running_after : bool
}.

(** The block [if task is not None:] of [TREE_OT_Cancel.execute]: the
    event of the current task is set and its process, if one is attached
    and still runs, is terminated, then killed if it lingers. *)
Definition cancel_current (c : cancel_input) (st : session) : session :=
  match _get_task st with
  | Some task =>
      let st := set_cancel_event task st in
      match tasks st !! task with
      | Some t =>
          if proc_attached t && c_running c then
            if c_terminate_ok c then
              show ([ProcTerminate task; Sleep]
                      ++ (if c_running_after c then [ProcKill task] else [])) st
            else show [ProcTerminate task] st
          else st
      | None => st
      end
  | None => st
  end.

Definition TREE_OT_Cancel_execute (c : cancel_input) (st : session)
  : verdict * session :=
  let st := cancel_current c st in
  let st := _end_progress st in
  let st := set_busy false st in
  let st := set_engine_busy true st in
  (FINISHED,
   show [Report "INFO" "Cancel requested. Waiting for the engine to stop."] st).

(** What [TREE_OT_Reset.execute] finds: no active object with the
    modifier, one that it removes, or one whose removal raises. *)
Inductive reset_input :=
| NoTreeGenObject
| Removed (name : string)
| RemoveFailed (error : string).

Definition TREE_OT_Reset_execute (r : reset_input) (st : session)
  : verdict * session :=
  if treegen_engine_busy st || locked st then
    (CANCELLED, show [Report "WARNING" "Engine is running/stopping. Cancel first."] st)
  else
    (FINISHED,
     show match r with
          | NoTreeGenObject =>
              [Report "INFO" "No active TreeGen object. Properties were reset."]
          | Removed name =>
              [ObjectRemoved;
               Report "INFO" ("Deleted '" ++ name ++ "' (TreeGen object).")]
          | RemoveFailed error =>
              [Report "ERROR" ("Delete failed: " ++ error);
               Report "INFO" "No active TreeGen object. Properties were reset."]
          end st).

(** [_apply_result]: without [ok] nothing is made; with it an object is
    spawned and the parameters are written, unless the host raises
    ([host_ok] false), which the function catches.  Every path ends the
    progress display and clears [treegen_busy]. *)
Definition _apply_result (r : result) (host_ok : bool) (st : session) : session :=
  if negb (ok r) then set_busy false (_end_progress st)
  else if host_ok then set_busy false (_end_progress (show [ObjectSpawned r] st))
  else show [Popup "TreeGen Error"] (set_busy false (_end_progress st)).

Definition task_canceled (task : nat) (st : session) : bool :=
  match tasks st !! task with
  | Some t => cancel_event_set t
  | None => false
  end.

(** The timer callback [_apply] of a worker whose wrapper returned. *)
Definition _apply (task : nat) (r : result) (host_ok : bool) (st : session)
  : session :=
  let st :=
    if task_canceled task st then
      _clear_task_if task
        (set_engine_busy false (set_busy false (_end_progress st)))
    else _clear_task_if task (_apply_result r host_ok st) in
  set_engine_busy false st.

(** The timer callback [_err] of a worker whose wrapper raised. *)
Definition _err (task : nat) (st : session) : session :=
  show [Popup "TreeGen Error"]
    (_clear_task_if task
       (set_engine_busy false (set_busy false (_end_progress st)))).

(** [use_hard] of [_worker]. *)
Definition use_hard (cancel_mode : string) (supports_abort_callback : bool) : bool :=
  String.eqb cancel_mode "HARD"
  || (String.eqb cancel_mode "AUTO" && negb supports_abort_callback).

(** What can happen next: an operator is run, a worker thread enters or
    leaves [with INFER_LOCK], the worker attaches its process to the
    current task ([run_llm_hard]), or the wrapper of a worker has ended
    and its timer callback runs on the main thread. *)
Inductive input :=
| PressGenerate (g : generate_input)
| PressCancel (c : cancel_input)
| PressReset (r : reset_input)
| EnterLock (task : nat)
| LeaveLock (task : nat)
| AttachProc (task : nat)
| Callback (task : nat) (out : outcome result) (host_ok : bool).

Definition has_thread (task : nat) (st : session) : bool :=
  existsb (fun th => Nat.eqb (th_task th) task) (threads st).

Definition thread_in_lock (task : nat) (st : session) : bool :=
  existsb (fun th => Nat.eqb (th_task th) task && th_in_lock th) (threads st).

Definition set_in_lock (task : nat) (b : bool) (st : session) : session :=
  set_threads
    (map (fun th => if Nat.eqb (th_task th) task
                    then WorkerThread (th_task th) (th_cancel_mode th) b
                    else th) (threads st)) st.

Definition drop_thread (task : nat) (st : session) : session :=
  set_threads
    (List.filter (fun th => negb (Nat.eqb (th_task th) task)) (threads st)) st.

(** One step.  A step of a thread that is not there, or that the lock
    does not allow, leaves the state as it is. *)
Definition step (st : session) (i : input) : session :=
  match i with
  | PressGenerate g => (TREE_OT_Generate_execute g st).2
  | PressCancel c => (TREE_OT_Cancel_execute c st).2
  | PressReset r => (TREE_OT_Reset_execute r st).2
  | EnterLock task =>
      if has_thread task st && negb (locked st) then set_in_lock task true st
      else st
  | LeaveLock task =>
      if thread_in_lock task st then set_in_lock task false st else st
  | AttachProc task =>
      if has_thread task st then
        match _get_task st with
        | Some t => attach_proc t st
        | None => st
        end
      else st
  | Callback task out host_ok =>
      if has_thread task st && negb (thread_in_lock task st) then
        match out with
        | Returned r => _apply task r host_ok (drop_thread task st)
        | Raised => _err task (drop_thread task st)
        | StillPolling => st
        end
      else st
  end.

Definition run (inputs : list input) : session := foldl step registered inputs.

(** The events by which work is set going or an object is made. *)
Definition sets_going (e : ui_event) : bool :=
  match e with
  | ThreadStart _ _ _ _ _ | ObjectSpawned _ => true
  | _ => false
  end.

Definition quiet (es : list ui_event) : bool :=
  forallb (fun e => negb (sets_going e)) es.

(** The status line of [TREE_PT_Main.draw]. *)
Definition status (st : session) : string :=
  if treegen_busy st then "Status: Running..."
  else if treegen_engine_busy st || locked st then "Status: Stopping..."
  else "Status: Idle".

End Ui.

(** What holds between two steps: at most one worker thread is under
    way, it works for the current task, and while it exists, or the
    progress flag is up, the engine flag is up; the ids of the tasks count
    up from 1. *)
Definition single_flight (st : Ui.session) : Prop :=
  (length (Ui.threads st) <= 1)%nat
  ∧ (∀ th, th ∈ Ui.threads st →
       Ui.treegen_engine_busy st = true
       ∧ Ui._CURRENT_TASK st = Some (Ui.th_task th)
       ∧ (Ui.th_task th < length (Ui.tasks st))%nat)
  ∧ (Ui.treegen_busy st = true → Ui.treegen_engine_busy st = true)
  ∧ Ui._TASK_SEQ st = Z.of_nat (length (Ui.tasks st))
  ∧ (∀ a t, Ui.tasks st !! a = Some t → Ui.task_id t = Z.of_nat (S a))
  ∧ (∀ a, Ui._CURRENT_TASK st = Some a → (a < length (Ui.tasks st))%nat).

(** A request with a prompt, a schema and a model file that is there. *)
Definition a_request : Ui.generate_input :=
  Ui.GenerateInput "a tall pine" x_schema "AUTO" "model.gguf"
                   (fun _ => true) true "model.gguf" (fun _ => true)
                   (Some x_schema).

Definition a_cancel : Ui.cancel_input := Ui.CancelInput true true false.

(** A result that would be applied: [ok] with parameters. *)
Definition a_result : result :=
  Result true (Some (<["x" := PFloat (F64.lit "3")]> ∅)) (PFloat F64.one) f_0_5
         (Some (Text.q "{'x': 3}")) None None "model.gguf".

(** With no worker under way, the engine flag up and the progress flag
    down, nothing moves. *)
Definition stuck (st : Ui.session) : Prop :=
  Ui.threads st = [] ∧ Ui.treegen_engine_busy st = true
  ∧ Ui.treegen_busy st = false.

(** The body of [_worker] up to the registration of the callback: the
    clock is read, the strategy is chosen and its wrapper run, and the
    clock is read again when the wrapper returns.  The two times only
    reach the log. *)
Definition _worker (fuel : nat) (w : world) (cancel_mode : string)
    (ev : cancel_event) (model_path : string) (schema_copy : dict (dict pyval))
    (s : state) : outcome result * state :=
  let '(_, s) := Run.now w s in
  let '(out, s) :=
    if Ui.use_hard cancel_mode (supports_abort_callback w)
    then Run.run_llm_hard fuel w ev model_path schema_copy s
    else Run.run_llm_soft w ev model_path schema_copy s in
  match out with
  | Returned r => let '(_, s) := Run.now w s in (Returned r, s)
  | _ => (out, s)
  end.

(** The events of the in-process strategy, the lock included. *)
Definition under_lock (e : event) : bool :=
  match e with
  | EvAcquireLock | EvReleaseLock => true
  | _ => in_process e
  end.

(* ===================================================================== *)
(** * Proof automation *)
(* ===================================================================== *)

(** Case analysis on the comparisons of a float clamp, innermost first;
    [irrefl] is the irreflexivity of [F64.ltb]. *)
Ltac float_cases irrefl :=
  unfold Py.min2, Py.max2;
  repeat match goal with
         | |- context [F64.ltb ?a ?b] =>
             lazymatch a with
             | context [F64.ltb _ _] => fail
             | _ => lazymatch b with
                    | context [F64.ltb _ _] => fail
                    | _ => let E := fresh "E" in
                           destruct (F64.ltb a b) eqn:E
                    end
             end
         end;
  repeat match goal with
         | H : F64.ltb ?a ?a = true |- _ => rewrite irrefl in H; discriminate
         end;
  try congruence.

(** The same on an integer clamp. *)
Ltac int_cases :=
  simpl; unfold Py.min2, Py.max2;
  repeat (match goal with
          | |- context [Z.ltb ?a ?b] =>
              is_var a; is_var b; destruct (Z.ltb_spec a b)
          end; cbn iota);
  lia.


(* ===================================================================== *)
(** * Properties of the validation loop *)
(* ===================================================================== *)

Section ValidationLoop.

Variable params : dict pyval.

Lemma validate_loop_entries (schema : dict (dict pyval)) :
  ∀ st, map_fold (validate_entry params) (Some (Validation ∅ ∅ ∅)) schema = Some st →
        ∀ k, entry_done params schema st k.
Proof.
  apply (map_fold_weak_ind
           (fun acc m => ∀ st, acc = Some st → ∀ k, entry_done params m st k)).
  - intros st [= <-] k. unfold entry_done. rewrite lookup_empty. simpl.
    by rewrite !lookup_empty.
  - intros i spec m r Hfresh IH st Hst k.
    unfold validate_entry in Hst.
    destruct r as [st0|]; simpl in Hst; [|discriminate].
    specialize (IH st0 eq_refl).
    unfold entry_done. destruct (decide (i = k)) as [->|Hne].
    + rewrite lookup_insert_eq.
      pose proof (IH k) as Hk. unfold entry_done in Hk. rewrite Hfresh in Hk.
      destruct Hk as (Ho & Hc & Hv).
      destruct (params !! k) as [v_in|] eqn:Hp.
      * destruct (clip_value v_in spec) as [v|] eqn:Hclip; simpl in Hst;
          [|discriminate].
        injection Hst as <-. simpl. exists v. split; [done|].
        rewrite lookup_insert_eq. split; [done|]. split; [|done].
        destruct (Py.ne v v_in); [by rewrite lookup_insert_eq|done].
      * injection Hst as <-. simpl. by rewrite !lookup_insert_eq.
    + rewrite lookup_insert_ne by done.
      pose proof (IH k) as Hk. unfold entry_done in Hk.
      assert (v_out st !! k = v_out st0 !! k
              ∧ v_clipped st !! k = v_clipped st0 !! k
              ∧ v_violations st !! k = v_violations st0 !! k) as (-> & -> & ->);
        [|exact Hk].
      destruct (params !! i) as [v_in|].
      * destruct (clip_value v_in spec) as [v|]; simpl in Hst; [|discriminate].
        injection Hst as <-. simpl. rewrite lookup_insert_ne by done.
        split; [done|]. split; [|done].
        destruct (Py.ne v v_in); [by rewrite lookup_insert_ne|done].
      * injection Hst as <-. simpl. by rewrite !lookup_insert_ne.
Qed.

Lemma validate_loop_total (schema : dict (dict pyval)) :
  (∀ k spec v_in, schema !! k = Some spec → params !! k = Some v_in →
                  is_Some (clip_value v_in spec)) →
  is_Some (map_fold (validate_entry params) (Some (Validation ∅ ∅ ∅)) schema).
Proof.
  apply (map_fold_weak_ind
           (fun acc m =>
              (∀ k spec v_in, m !! k = Some spec → params !! k = Some v_in →
                              is_Some (clip_value v_in spec)) → is_Some acc)).
  - intros _. by eexists.
  - intros i spec m r Hfresh IH Hok.
    destruct IH as [st0 ->].
    { intros k sp v_in Hk Hp. apply (Hok k sp v_in); [|done].
      rewrite lookup_insert_ne; [done|]. intros ->. congruence. }
    unfold validate_entry. simpl.
    destruct (params !! i) as [v_in|] eqn:Hp; [|by eexists].
    destruct (Hok i spec v_in) as [v ->]; [by rewrite lookup_insert_eq|done|].
    simpl. by eexists.
Qed.

(** The second loop touches only the keys that are not in the schema. *)
Lemma drop_unknown_lookup (schema : dict (dict pyval)) (viol : dict string) k :
  map_fold (drop_unknown schema) viol params !! k
  = match schema !! k, params !! k with
    | None, Some _ => Some "unknown-key->dropped"%string
    | _, _ => viol !! k
    end.
Proof.
  clear. revert k.
  apply (map_fold_weak_ind
           (fun acc (m : dict pyval) =>
              ∀ k, acc !! k = match schema !! k, m !! k with
                              | None, Some _ => Some "unknown-key->dropped"%string
                              | _, _ => viol !! k
                              end)).
  - intros k. rewrite lookup_empty. by destruct (schema !! k).
  - intros i x m r Hfresh IH k. unfold drop_unknown.
    destruct (decide (i = k)) as [->|Hne].
    + rewrite lookup_insert_eq. specialize (IH k). rewrite Hfresh in IH.
      destruct (schema !! k); [|by rewrite lookup_insert_eq].
      rewrite IH. done.
    + rewrite (lookup_insert_ne m) by done. rewrite <- IH.
      destruct (schema !! i); [done|]. by rewrite lookup_insert_ne.
Qed.

End ValidationLoop.

(** What a returned validation holds at each key. *)
Lemma validate_and_clip_entries params schema v :
  validate_and_clip params schema = Some v →
  ∀ k, match schema !! k with
       | Some _ => entry_done params schema v k
       | None =>
           v_out v !! k = None ∧ v_clipped v !! k = None
           ∧ v_violations v !! k
             = match params !! k with
               | Some _ => Some "unknown-key->dropped"%string
               | None => None
               end
       end.
Proof.
  unfold validate_and_clip. intros Hv k.
  destruct (map_fold (validate_entry params) _ schema) as [st|] eqn:Hloop;
    simpl in Hv; [|discriminate].
  injection Hv as <-.
  pose proof (validate_loop_entries params schema st Hloop k) as Hk.
  unfold entry_done in *. simpl. rewrite drop_unknown_lookup.
  destruct (schema !! k) as [spec|].
  - destruct (params !! k); exact Hk.
  - destruct Hk as (-> & -> & ->). by destruct (params !! k).
Qed.

Lemma validate_and_clip_dom params schema v :
  validate_and_clip params schema = Some v → dom (v_out v) = dom schema.
Proof.
  intros Hv. apply set_eq. intros k. rewrite !elem_of_dom.
  pose proof (validate_and_clip_entries params schema v Hv k) as Hk.
  unfold entry_done in Hk. destruct (schema !! k) as [spec|] eqn:Hs.
  - split; [by eexists|]. intros _.
    destruct (params !! k).
    + destruct Hk as (x & _ & -> & _). by eexists.
    + destruct Hk as (-> & _). by eexists.
  - destruct Hk as (-> & _). done.
Qed.

(* ===================================================================== *)
(** * Properties of [clip_value] *)
(* ===================================================================== *)

Section FloatOrder.

Lemma SFcompare_antisym x y :
  SFcompare y x = option_map CompOpp (SFcompare x y).
Proof.
  destruct x as [[]|[]| |[] m1 e1], y as [[]|[]| |[] m2 e2];
    simpl; try reflexivity.
  - rewrite (Z.compare_antisym e1 e2).
    destruct (e1 ?= e2)%Z; simpl; try reflexivity.
    do 2 f_equal. symmetry. exact (Pos.compare_cont_antisym m1 m2 Eq).
  - rewrite (Z.compare_antisym e1 e2).
    destruct (e1 ?= e2)%Z; simpl; try reflexivity.
    f_equal. symmetry. exact (Pos.compare_cont_antisym m1 m2 Eq).
Qed.

Lemma SFcompare_refl x : F64.is_nan x = false → SFcompare x x = Some Eq.
Proof.
  destruct x as [[]|[]| |[] m e]; simpl; intros H; try done.
  - rewrite Z.compare_refl. f_equal.
    exact (f_equal CompOpp (Pos.compare_cont_refl m Eq)).
  - rewrite Z.compare_refl. f_equal. exact (Pos.compare_cont_refl m Eq).
Qed.

Lemma SFcompare_total x y :
  F64.is_nan x = false → F64.is_nan y = false → is_Some (SFcompare x y).
Proof.
  destruct x as [[]|[]| |[] m1 e1], y as [[]|[]| |[] m2 e2];
    simpl; intros Hx Hy; try done; by eexists.
Qed.

Lemma ltb_irrefl x : F64.ltb x x = false.
Proof.
  unfold F64.ltb, SFltb. destruct (F64.is_nan x) eqn:Hn.
  - by destruct x.
  - by rewrite SFcompare_refl.
Qed.

Lemma leb_not_nan x y :
  F64.leb x y = true → F64.is_nan x = false ∧ F64.is_nan y = false.
Proof.
  unfold F64.leb, SFleb.
  destruct x as [[]|[]| |[] m1 e1], y as [[]|[]| |[] m2 e2]; simpl; done.
Qed.

Lemma leb_refl x : F64.is_nan x = false → F64.leb x x = true.
Proof. intros H. unfold F64.leb, SFleb. by rewrite SFcompare_refl. Qed.

Lemma ltb_false_leb x y :
  F64.is_nan x = false → F64.is_nan y = false →
  F64.ltb x y = false → F64.leb y x = true.
Proof.
  intros Hx Hy. unfold F64.ltb, F64.leb, SFltb, SFleb.
  rewrite (SFcompare_antisym x y).
  destruct (SFcompare_total x y Hx Hy) as [c ->]. by destruct c.
Qed.

Lemma leb_ltb_false x y : F64.leb x y = true → F64.ltb y x = false.
Proof.
  unfold F64.ltb, F64.leb, SFltb, SFleb.
  rewrite (SFcompare_antisym x y).
  destruct (SFcompare x y) as [[]|]; done.
Qed.

(** The clamp [min(max(x, lo), hi)] of a number lands between the
    bounds when these are in order. *)
Lemma clamp_between x lo hi :
  F64.is_nan x = false → F64.leb lo hi = true →
  float_between lo hi (Py.min2 F64.ltb (Py.max2 F64.ltb x lo) hi) = true.
Proof.
  intros Hx Hle. destruct (leb_not_nan _ _ Hle) as [Hlo Hhi].
  unfold float_between, Py.min2, Py.max2.
  destruct (F64.ltb x lo) eqn:E1.
  - rewrite (leb_ltb_false _ _ Hle). by rewrite leb_refl, Hle.
  - pose proof (ltb_false_leb _ _ Hx Hlo E1) as Hlx.
    destruct (F64.ltb hi x) eqn:E2.
    + by rewrite Hle, leb_refl.
    + by rewrite Hlx, (ltb_false_leb _ _ Hhi Hx E2).
Qed.

(** A NaN goes through the clamp whatever the bounds. *)
Lemma clamp_nan lo hi :
  Py.min2 F64.ltb (Py.max2 F64.ltb F64.nan lo) hi = F64.nan.
Proof.
  unfold Py.min2, Py.max2, F64.ltb, SFltb, F64.nan. simpl.
  by destruct hi as [[]|[]| |[] m e].
Qed.

(** Clamped once, a float is left alone by the same clamp. *)
Lemma clamp_fixed x lo hi :
  let r := Py.min2 F64.ltb (Py.max2 F64.ltb x lo) hi in
  Py.min2 F64.ltb (Py.max2 F64.ltb r lo) hi = r.
Proof.
  simpl. unfold Py.min2, Py.max2.
  destruct (F64.ltb x lo) eqn:E1.
  - destruct (F64.ltb hi lo) eqn:E2;
      repeat (rewrite ?E2, ?ltb_irrefl; simpl); done.
  - destruct (F64.ltb hi x) eqn:E2.
    + destruct (F64.ltb hi lo) eqn:E3;
        repeat (rewrite ?E3, ?ltb_irrefl; simpl); done.
    + by rewrite E1, E2.
Qed.

End FloatOrder.

Lemma converts_Some {A} (conv : pyval -> option A) v :
  converts conv (Some v) = true → is_Some (conv v).
Proof. unfold converts. destruct (conv v); [by eexists|done]. Qed.

Lemma converts_bound {A} (conv : pyval -> option A) (spec : dict pyval) key x :
  converts conv (spec !! key) = true → is_Some (conv x) →
  is_Some (conv (dict_get_or spec key x)).
Proof.
  unfold dict_get_or, converts. destruct (spec !! key) as [b|]; simpl; [|done].
  destruct (conv b); [by eexists|done].
Qed.

(** With a default and bounds that convert, [clip_value] raises for no
    candidate value. *)
Lemma clip_value_total value spec :
  conversions_ok spec = true → is_Some (clip_value value spec).
Proof.
  unfold conversions_ok, clip_value.
  destruct (type_is spec "float").
  - intros H. apply andb_true_iff in H as [H Hmax].
    apply andb_true_iff in H as [Hd Hmin].
    assert (∃ x, try_except (Py.float value)
                   (Py.float (dict_get_or spec "default" (PFloat F64.zero))) = Some x)
      as [x ->].
    { destruct (Py.float value); simpl; [by eexists|].
      by apply converts_Some in Hd as [x ->]; eexists. }
    simpl.
    destruct (converts_bound Py.float spec "min" (PFloat x) Hmin) as [lo ->];
      [by eexists|].
    destruct (converts_bound Py.float spec "max" (PFloat x) Hmax) as [hi ->];
      [by eexists|].
    simpl. by eexists.
  - destruct (type_is spec "integer").
    + intros H. apply andb_true_iff in H as [H Hmax].
      apply andb_true_iff in H as [Hd Hmin].
      assert (∃ x, try_except (Py.float value ≫= F64.round)
                     (Py.int (dict_get_or spec "default" (PInt 0))) = Some x)
        as [x ->].
      { destruct (Py.float value ≫= F64.round); simpl; [by eexists|].
        by apply converts_Some in Hd as [x ->]; eexists. }
      simpl.
      destruct (converts_bound Py.int spec "min" (PInt x) Hmin) as [lo ->];
        [by eexists|].
      destruct (converts_bound Py.int spec "max" (PInt x) Hmax) as [hi ->];
        [by eexists|].
      simpl. by eexists.
    + intros _. destruct (type_is spec "bool"); [|by eexists].
      destruct (Py.isinstance_bool value); by eexists.
Qed.

Lemma validate_and_clip_total params schema :
  map_Forall (fun _ spec => conversions_ok spec = true) schema →
  is_Some (validate_and_clip params schema).
Proof.
  intros Hok. unfold validate_and_clip.
  destruct (validate_loop_total params schema) as [st ->]; [|by eexists].
  intros k spec v_in Hk _. apply clip_value_total. exact (Hok k spec Hk).
Qed.

(* ===================================================================== *)
(** * C1: the key set of the validated parameters *)
(* ===================================================================== *)



(* ===================================================================== *)
(** * C10: a missing key takes the default as it stands *)
(* ===================================================================== *)

(** C10.  For a key of the schema that the candidate lacks, the step of
    the loop stores [spec.get("default")] and the violation
    "missing->default" without calling [clip_value]; in the validation
    returned the key holds that default unchanged, has no clip entry and
    carries the violation. *)
Theorem missing_key_takes_default
    (params : dict pyval) (schema : dict (dict pyval)) (v : validation)
    (k : string) (spec : dict pyval) :
  validate_and_clip params schema = Some v →
  schema !! k = Some spec →
  params !! k = None →
  (∀ st, validate_entry params k spec (Some st)
         = Some (Validation (<[k := dict_get spec "default"]> (v_out st))
                            (v_clipped st)
                            (<[k := "missing->default"%string]> (v_violations st))))
  ∧ v_out v !! k = Some (dict_get spec "default")
  ∧ v_clipped v !! k = None
  ∧ v_violations v !! k = Some "missing->default"%string.
Proof.
  intros Hv Hs Hp. split.
  - intros st. unfold validate_entry. simpl. by rewrite Hp.
  - pose proof (validate_and_clip_entries params schema v Hv k) as Hk.
    rewrite Hs in Hk. unfold entry_done in Hk. by rewrite Hs, Hp in Hk.
Qed.

(** A default outside the bounds, a default that is absent and a default
    of the wrong type all come out unchanged: 50 for the bounds 0..10,
    [None], and the word maybe for a boolean. *)
Lemma missing_key_takes_default_witness :
  ∃ v, validate_and_clip ∅ wide_schema = Some v
       ∧ v_out v !! "x" = Some (PInt 50)
       ∧ v_clipped v !! "x" = None
       ∧ v_violations v !! "x" = Some "missing->default"%string
       ∧ v_out v !! "y" = Some PNone
       ∧ v_out v !! "z" = Some (PStr "maybe").
Proof.
  assert (∃ v, validate_and_clip ∅ wide_schema = Some v
               ∧ v_out v !! "y" = Some PNone
               ∧ v_out v !! "z" = Some (PStr "maybe")) as (v & Hv & Hy).
  { eexists. split; [vm_compute; reflexivity|].
    split; vm_compute; reflexivity. }
  assert (wide_schema !! "x" = Some wide_spec) as Hs by (vm_compute; reflexivity).
  assert ((∅ : dict pyval) !! "x" = None) as Hp by apply lookup_empty.
  assert (dict_get wide_spec "default" = PInt 50) as Hd by (vm_compute; reflexivity).
  exists v.
  destruct (missing_key_takes_default ∅ wide_schema v "x" wide_spec Hv Hs Hp)
    as (_ & Ho & Hc & Hvi).
  rewrite Hd in Ho.
  exact (conj Hv (conj Ho (conj Hc (conj Hvi Hy)))).
Defined.

(* ===================================================================== *)
(** * C4: a truthy word for a boolean entry *)
(* ===================================================================== *)

(** C4, as the code has it.  For the schema with the one boolean entry
    [flag] (default false) and the candidate that gives it the word yes,
    the validated parameters are [{"flag": true}], no violation is
    recorded, and the clip report records the coercion:
    [{"flag": {"in": "yes", "out": true}}]. *)
Theorem flag_yes_is_coerced_and_reported :
  validate_and_clip flag_yes flag_schema
  = Some (Validation {[ "flag"%string := PBool true ]}
                     {[ "flag"%string := ClipEntry (PStr "yes") (PBool true) ]}
                     ∅).
Proof. by vm_compute. Qed.

(** The scenario as the specification words it fails: the clip report
    does hold an entry for [flag]. *)
Lemma flag_yes_has_a_clip_entry :
  ∃ v, validate_and_clip flag_yes flag_schema = Some v
       ∧ v_out v = {[ "flag"%string := PBool true ]}
       ∧ is_Some (v_clipped v !! "flag").
Proof.
  eexists. split; [by vm_compute|]. split; [by vm_compute|].
  by vm_compute; eexists.
Qed.

(** A word given for a boolean entry is always reported: a boolean never
    equals a string. *)
Lemma bool_entry_reports_a_string (s : string) (spec : dict pyval) :
  type_is spec "bool" = true →
  type_is spec "float" = false → type_is spec "integer" = false →
  ∃ b, clip_value (PStr s) spec = Some (PBool b) ∧ Py.ne (PBool b) (PStr s) = true.
Proof.
  intros Hb Hf Hi. unfold clip_value. rewrite Hf, Hi, Hb. simpl.
  by eexists.
Qed.

(* ===================================================================== *)
(** * C2: the range of a clipped number *)
(* ===================================================================== *)

Lemma dict_get_or_Some (spec : dict pyval) key v dflt :
  spec !! key = Some v → dict_get_or spec key dflt = v.
Proof. intros H. unfold dict_get_or. by rewrite H. Qed.

Lemma dict_get_or_None (spec : dict pyval) key dflt :
  spec !! key = None → dict_get_or spec key dflt = dflt.
Proof. intros H. unfold dict_get_or. by rewrite H. Qed.


(** X4.  An integer entry whose bounds convert with
    [int(min) <= int(max)] gives, for every candidate value for which
    [clip_value] returns, an integer between these bounds: what is no
    finite number falls back to the default before the clamp. *)
Lemma clip_value_integer_between value spec mn mx lo hi r :
  type_is spec "float" = false → type_is spec "integer" = true →
  spec !! "min" = Some mn → spec !! "max" = Some mx →
  Py.int mn = Some lo → Py.int mx = Some hi → (lo <= hi)%Z →
  clip_value value spec = Some r →
  ∃ z, r = PInt z ∧ (lo <= z <= hi)%Z.
Proof.
  intros Hf Ht Hmin Hmax Hlo Hhi Hle. unfold clip_value. rewrite Hf, Ht.
  destruct (try_except _ _) as [x|]; simpl; [|discriminate].
  rewrite (dict_get_or_Some _ _ _ _ Hmin), (dict_get_or_Some _ _ _ _ Hmax).
  rewrite Hlo, Hhi. simpl. intros [= <-]. eexists. split; [done|].
  unfold Py.min2, Py.max2.
  destruct (Z.ltb_spec x lo); destruct (Z.ltb_spec hi lo);
    destruct (Z.ltb_spec hi x); lia.
Qed.

(** Whatever converts to a NaN comes out of a float entry as a NaN. *)
Lemma clip_value_float_nan value spec :
  type_is spec "float" = true → Py.float value = Some S754_nan →
  conversions_ok spec = true →
  clip_value value spec = Some (PFloat S754_nan).
Proof.
  intros Ht Hv Hok. unfold conversions_ok in Hok. rewrite Ht in Hok.
  apply andb_true_iff in Hok as [Hok Hmax].
  apply andb_true_iff in Hok as [_ Hmin].
  unfold clip_value. rewrite Ht, Hv. simpl.
  destruct (converts_bound Py.float spec "min" (PFloat S754_nan) Hmin) as [lo ->];
    [by eexists|].
  destruct (converts_bound Py.float spec "max" (PFloat S754_nan) Hmax) as [hi ->];
    [by eexists|].
  simpl. f_equal. f_equal. apply clamp_nan.
Qed.

(** C2, on the code.  For the float entry [x] with the bounds 0 and 10
    and the candidate that gives it the word nan, [float("nan")] raises
    nothing, the clamp keeps the NaN, and the value stored for [x] is a
    NaN, which is not between 0 and 10. *)
Theorem nan_is_stored_unclamped :
  ∃ v, validate_and_clip nan_candidate x_schema = Some v
       ∧ x_spec !! "min" = Some (PInt 0) ∧ x_spec !! "max" = Some (PInt 10)
       ∧ Py.float (PInt 0) = Some F64.zero ∧ Py.float (PInt 10) = Some ten
       ∧ F64.leb F64.zero ten = true
       ∧ v_out v !! "x" = Some (PFloat S754_nan)
       ∧ float_between F64.zero ten S754_nan = false.
Proof. eexists. repeat split; by vm_compute. Qed.

(* ===================================================================== *)
(** * C3: validating the validated parameters again *)
(* ===================================================================== *)

(** ** An integer of at most 53 bits survives [int(round(float(n)))] *)

Lemma digits2_pos_size p : digits2_pos p = Pos.size p.
Proof. induction p; simpl; congruence. Qed.

Lemma digits2_pos_shift m k :
  digits2_pos (Pos.iter xO m k) = (digits2_pos m + k)%positive.
Proof.
  induction k using Pos.peano_ind.
  - simpl. lia.
  - rewrite Pos.iter_succ. simpl. rewrite IHk. lia.
Qed.

Lemma Zpos_shift m k : Zpos (Pos.iter xO m k) = (Zpos m * 2 ^ Zpos k)%Z.
Proof.
  induction k using Pos.peano_ind.
  - simpl. lia.
  - rewrite Pos.iter_succ. rewrite Pos2Z.inj_xO, IHk.
    rewrite Pos2Z.inj_succ, Z.pow_succ_r by lia. lia.
Qed.

Lemma digits_bound m : (Zpos m < 2 ^ 53)%Z → (Zpos (digits2_pos m) <= 53)%Z.
Proof.
  intros H. rewrite digits2_pos_size.
  pose proof (Pos.size_le m) as Hle.
  assert (Zpos (2 ^ Pos.size m) <= Zpos m~0)%Z as H2 by lia.
  rewrite Pos2Z.inj_pow in H2. rewrite Pos2Z.inj_xO in H2.
  destruct (Z.le_gt_cases (Zpos (Pos.size m)) 53) as [|Hgt]; [done|].
  assert (2 ^ 54 <= 2 ^ Zpos (Pos.size m))%Z by (apply Z.pow_le_mono_r; lia).
  change (2 ^ 54)%Z with (2 * 2 ^ 53)%Z in *. lia.
Qed.

Lemma binary_round_aux_exact s mz ez :
  Zpos (digits2_pos mz) = 53%Z → (-1074 <= ez <= 971)%Z →
  binary_round_aux 53 1024 s (Zpos mz) ez loc_Exact = S754_finite s mz ez.
Proof.
  intros Hd He. unfold binary_round_aux, shr_fexp. simpl Zdigits2. rewrite Hd.
  assert (fexp 53 1024 (53 + ez) = ez) as Hf.
  { unfold fexp, emin. lia. }
  rewrite Hf, Z.sub_diag. simpl. rewrite Hd, Hf, Z.sub_diag. simpl.
  destruct (Z.leb_spec ez (1024 - 53)); [done|lia].
Qed.

Lemma binary_round_small s m :
  (Zpos m < 2 ^ 53)%Z →
  ∃ mz ez, binary_round 53 1024 s m 0 = S754_finite s mz ez
           ∧ F64.round_half_even s mz ez = (if s then Zneg m else Zpos m).
Proof.
  intros Hm. pose proof (digits_bound m Hm) as Hd.
  unfold binary_round.
  assert (fexp 53 1024 (Zpos (digits2_pos m) + 0) = Zpos (digits2_pos m) - 53)%Z as ->.
  { unfold fexp, emin. lia. }
  unfold shl_align.
  destruct (Zpos (digits2_pos m) - 53 - 0)%Z as [|p|k] eqn:Hk; [|lia|].
  - exists m, 0%Z. split.
    + apply binary_round_aux_exact; lia.
    + unfold F64.round_half_even. destruct s; simpl; lia.
  - exists (Pos.iter xO m k), (Zpos (digits2_pos m) - 53)%Z. split.
    + apply binary_round_aux_exact; [|lia].
      rewrite digits2_pos_shift. lia.
    + assert (Zpos (digits2_pos m) - 53 = Zneg k)%Z as -> by lia.
      unfold F64.round_half_even. rewrite Zpos_shift.
      rewrite Z.div_mul by lia. rewrite Z.mod_mul by lia.
      assert (0 < 2 ^ Zpos k)%Z by (apply Z.pow_pos_nonneg; lia).
      destruct (Z.compare_spec (2 * 0) (2 ^ Zpos k)); try lia.
      by destruct s.
Qed.

Lemma of_Z_round z : (Z.abs z <= 2 ^ 53)%Z → F64.of_Z z ≫= F64.round = Some z.
Proof.
  intros Hz. destruct (decide (Z.abs z = 2 ^ 53)%Z) as [E|N].
  - assert (z = 2 ^ 53 ∨ z = - 2 ^ 53)%Z as [-> | ->] by lia; by vm_compute.
  - unfold F64.of_Z, binary_normalize, F64.prec, F64.emax. destruct z as [|m|m].
    + done.
    + destruct (binary_round_small false m) as (mz & ez & -> & Hr); [lia|].
      cbv beta iota in Hr. by rewrite <- Hr.
    + destruct (binary_round_small true m) as (mz & ez & -> & Hr); [lia|].
      cbv beta iota in Hr. by rewrite <- Hr.
Qed.

(** ** One entry *)

(** When a bound is absent the source takes the value itself for it; the
    clamp of the first pass is then still a fixed point of the second,
    whose absent bounds are the clamped value. *)
Lemma clamp_fixed_absent_min x hi :
  let r := Py.min2 F64.ltb (Py.max2 F64.ltb x x) hi in
  Py.min2 F64.ltb (Py.max2 F64.ltb r r) hi = r.
Proof. simpl. float_cases ltb_irrefl. Qed.

Lemma clamp_fixed_absent_max x lo :
  let r := Py.min2 F64.ltb (Py.max2 F64.ltb x lo) x in
  Py.min2 F64.ltb (Py.max2 F64.ltb r lo) r = r.
Proof. simpl. float_cases ltb_irrefl. Qed.

Lemma clamp_fixed_absent_both x :
  let r := Py.min2 F64.ltb (Py.max2 F64.ltb x x) x in
  Py.min2 F64.ltb (Py.max2 F64.ltb r r) r = r.
Proof. simpl. float_cases ltb_irrefl. Qed.

Lemma int_clamp_fixed x lo hi :
  let r := Py.min2 Z.ltb (Py.max2 Z.ltb x lo) hi in
  Py.min2 Z.ltb (Py.max2 Z.ltb r lo) hi = r.
Proof. int_cases. Qed.

Lemma int_clamp_fixed_absent_min x hi :
  let r := Py.min2 Z.ltb (Py.max2 Z.ltb x x) hi in
  Py.min2 Z.ltb (Py.max2 Z.ltb r r) hi = r.
Proof. int_cases. Qed.

Lemma int_clamp_fixed_absent_max x lo :
  let r := Py.min2 Z.ltb (Py.max2 Z.ltb x lo) x in
  Py.min2 Z.ltb (Py.max2 Z.ltb r lo) r = r.
Proof. int_cases. Qed.

Lemma int_clamp_fixed_absent_both x :
  let r := Py.min2 Z.ltb (Py.max2 Z.ltb x x) x in
  Py.min2 Z.ltb (Py.max2 Z.ltb r r) r = r.
Proof. int_cases. Qed.

(** What [clip_value] returns it returns again when given it back: for
    floats, booleans and values passed through always, for an integer
    when it fits the 53 bits of a float. *)
Lemma clip_value_fixed value spec r :
  clip_value value spec = Some r →
  (type_is spec "float" = false → type_is spec "integer" = true →
   ∀ z, r = PInt z → (Z.abs z <= 2 ^ 53)%Z) →
  clip_value r spec = Some r.
Proof.
  unfold clip_value. destruct (type_is spec "float") eqn:Hf.
  - intros Hc _.
    destruct (try_except _ _) as [x|]; simpl in Hc; [|discriminate].
    unfold dict_get_or in *.
    destruct (spec !! "min") as [mn|] eqn:Hmin; simpl in *;
      destruct (spec !! "max") as [mx|] eqn:Hmax; simpl in *.
    + destruct (Py.float mn) as [lo|]; simpl in *; [|discriminate].
      destruct (Py.float mx) as [hi|]; simpl in *; [|discriminate].
      injection Hc as <-. simpl. do 2 f_equal. apply clamp_fixed.
    + destruct (Py.float mn) as [lo|]; simpl in *; [|discriminate].
      injection Hc as <-. simpl. do 2 f_equal. apply clamp_fixed_absent_max.
    + destruct (Py.float mx) as [hi|]; simpl in *; [|discriminate].
      injection Hc as <-. simpl. do 2 f_equal. apply clamp_fixed_absent_min.
    + injection Hc as <-. simpl. do 2 f_equal. apply clamp_fixed_absent_both.
  - destruct (type_is spec "integer") eqn:Hi.
    + intros Hc Hfit.
      destruct (try_except _ _) as [x|]; simpl in Hc; [|discriminate].
      unfold dict_get_or in *.
      assert (∀ lo hi, PInt (Py.min2 Z.ltb (Py.max2 Z.ltb x lo) hi) = r →
                (Z.abs (Py.min2 Z.ltb (Py.max2 Z.ltb x lo) hi) <= 2 ^ 53)%Z) as Hz.
      { intros lo hi <-. by apply Hfit. }
      destruct (spec !! "min") as [mn|] eqn:Hmin; simpl in *;
        destruct (spec !! "max") as [mx|] eqn:Hmax; simpl in *.
      * destruct (Py.int mn) as [lo|]; simpl in *; [|discriminate].
        destruct (Py.int mx) as [hi|]; simpl in *; [|discriminate].
        injection Hc as Hc. specialize (Hz lo hi Hc). subst r.
        cbn [Py.float]. rewrite (of_Z_round _ Hz). simpl. do 2 f_equal.
        apply int_clamp_fixed.
      * destruct (Py.int mn) as [lo|]; simpl in *; [|discriminate].
        injection Hc as Hc. specialize (Hz lo x Hc). subst r.
        cbn [Py.float]. rewrite (of_Z_round _ Hz). simpl. do 2 f_equal.
        apply int_clamp_fixed_absent_max.
      * destruct (Py.int mx) as [hi|]; simpl in *; [|discriminate].
        injection Hc as Hc. specialize (Hz x hi Hc). subst r.
        cbn [Py.float]. rewrite (of_Z_round _ Hz). simpl. do 2 f_equal.
        apply int_clamp_fixed_absent_min.
      * injection Hc as Hc. specialize (Hz x x Hc). subst r.
        cbn [Py.float]. rewrite (of_Z_round _ Hz). simpl. do 2 f_equal.
        apply int_clamp_fixed_absent_both.
    + intros Hc _. destruct (type_is spec "bool"); [|done].
      destruct (Py.isinstance_bool value) eqn:Hb.
      * injection Hc as <-. by rewrite Hb.
      * by injection Hc as <-.
Qed.

(** ** The whole mapping *)

(** C3, as the code has it.  Feeding the validated parameters back in
    returns parameters equal to them, provided that (a) for each key of
    the schema that the candidate lacks, the default (which the first
    pass stores unclipped) is itself left equal by [clip_value], and
    (b) the integers the first pass computed for integer entries fit the
    53 bits of a float, through which the second pass sends them. *)
Theorem validate_and_clip_fixed_point
    (params : dict pyval) (schema : dict (dict pyval)) (v1 : validation) :
  validate_and_clip params schema = Some v1 →
  (∀ k spec, schema !! k = Some spec → params !! k = None →
     ∃ d, clip_value (dict_get spec "default") spec = Some d
          ∧ same_value d (dict_get spec "default")) →
  (∀ k spec z, schema !! k = Some spec →
     type_is spec "float" = false → type_is spec "integer" = true →
     is_Some (params !! k) → v_out v1 !! k = Some (PInt z) →
     (Z.abs z <= 2 ^ 53)%Z) →
  ∃ v2, validate_and_clip (v_out v1) schema = Some v2
        ∧ params_eq (v_out v2) (v_out v1).
Proof.
  intros Hv Hdef Hfit.
  pose proof (validate_and_clip_entries params schema v1 Hv) as E1.
  assert (∀ k spec v_in v, schema !! k = Some spec → params !! k = Some v_in →
            clip_value v_in spec = Some v → v_out v1 !! k = Some v →
            clip_value v spec = Some v) as Hfix.
  { intros k spec v_in v Hk Hp Hclip Hout.
    apply (clip_value_fixed v_in); [done|].
    intros Hf Hi z ->. by apply (Hfit k spec z). }
  assert (is_Some (validate_and_clip (v_out v1) schema)) as [v2 Hv2].
  { unfold validate_and_clip.
    destruct (validate_loop_total (v_out v1) schema) as [st ->]; [|by eexists].
    intros k spec v_in Hk Hin. specialize (E1 k). rewrite Hk in E1.
    unfold entry_done in E1. rewrite Hk in E1.
    destruct (params !! k) as [v0|] eqn:Hp.
    - destruct E1 as (v & Hclip & Hout & _).
      rewrite Hout in Hin. injection Hin as <-.
      exists v. by apply (Hfix k spec v0).
    - destruct E1 as (Hout & _). rewrite Hout in Hin. injection Hin as <-.
      destruct (Hdef k spec Hk Hp) as (d & -> & _). by eexists. }
  exists v2. split; [done|]. intros k.
  pose proof (validate_and_clip_entries (v_out v1) schema v2 Hv2 k) as E2.
  specialize (E1 k). destruct (schema !! k) as [spec|] eqn:Hk.
  - unfold entry_done in E1, E2. rewrite Hk in E1, E2.
    destruct (params !! k) as [v0|] eqn:Hp.
    + destruct E1 as (v & Hclip & Hout & _). rewrite Hout in E2 |- *.
      destruct E2 as (v' & Hclip' & -> & _).
      rewrite (Hfix k spec v0 v Hk Hp Hclip Hout) in Hclip'.
      injection Hclip' as <-. by left.
    + destruct E1 as (Hout & _). rewrite Hout in E2 |- *.
      destruct E2 as (v' & Hclip' & -> & _).
      destruct (Hdef k spec Hk Hp) as (d & Hd & Hsame).
      rewrite Hd in Hclip'. by injection Hclip' as <-.
  - destruct E1 as (-> & _). by destruct E2 as (-> & _).
Qed.

Lemma validate_and_clip_fixed_point_witness :
  ∃ v1 v2, validate_and_clip mixed_candidate mixed_schema = Some v1
           ∧ v_out v1 !! "x" = Some (PInt 5)
           ∧ v_out v1 !! "n" = Some (PInt 8)
           ∧ validate_and_clip (v_out v1) mixed_schema = Some v2
           ∧ params_eq (v_out v2) (v_out v1).
Proof.
  assert (∃ v1, validate_and_clip mixed_candidate mixed_schema = Some v1
                ∧ v_out v1 !! "x" = Some (PInt 5)
                ∧ v_out v1 !! "n" = Some (PInt 8)) as (v1 & Hv1 & Hx & Hn).
  { eexists. split; [vm_compute; reflexivity|].
    split; vm_compute; reflexivity. }
  assert (mixed_candidate !! "n" = Some (PStr "7.6")) as Cn
    by (vm_compute; reflexivity).
  assert (mixed_candidate !! "flag" = Some (PStr "yes")) as Cf
    by (vm_compute; reflexivity).
  assert (type_is x_spec "float" = true) as Tx by (vm_compute; reflexivity).
  assert (type_is flag_spec "integer" = false) as Tf by (vm_compute; reflexivity).
  assert (clip_value (dict_get x_spec "default") x_spec
          = Some (PFloat (F64.lit "5"))) as Dx by (vm_compute; reflexivity).
  assert (Py.eq (PFloat (F64.lit "5")) (dict_get x_spec "default") = true) as Ex
    by (vm_compute; reflexivity).
  exists v1.
  destruct (validate_and_clip_fixed_point mixed_candidate mixed_schema v1 Hv1)
    as (v2 & Hv2 & Heq).
  - intros k spec Hk Hp. unfold mixed_schema in Hk.
    apply lookup_insert_Some in Hk as [[<- <-]|[_ Hk]].
    { exists (PFloat (F64.lit "5")). split; [exact Dx|]. right. exact Ex. }
    apply lookup_insert_Some in Hk as [[<- <-]|[_ Hk]].
    { rewrite Cn in Hp. discriminate. }
    apply lookup_insert_Some in Hk as [[<- <-]|[_ Hk]].
    { rewrite Cf in Hp. discriminate. }
    by rewrite lookup_empty in Hk.
  - intros k spec z Hk Hf Hi _ Hout. unfold mixed_schema in Hk.
    apply lookup_insert_Some in Hk as [[<- <-]|[_ Hk]].
    { rewrite Tx in Hf. discriminate. }
    apply lookup_insert_Some in Hk as [[<- <-]|[_ Hk]].
    { rewrite Hn in Hout. injection Hout as <-. vm_compute. discriminate. }
    apply lookup_insert_Some in Hk as [[<- <-]|[_ Hk]].
    { rewrite Tf in Hi. discriminate. }
    by rewrite lookup_empty in Hk.
  - exists v2. exact (conj Hv1 (conj Hx (conj Hn (conj Hv2 Heq)))).
Defined.

(** The property as the specification words it fails: a default outside
    the bounds is stored
    unclipped by the first pass and clamped by the second. *)
Lemma unclipped_default_is_not_a_fixed_point :
  ∃ v1 v2, validate_and_clip ∅ wide_x_schema = Some v1
           ∧ validate_and_clip (v_out v1) wide_x_schema = Some v2
           ∧ v_out v1 !! "x" = Some (PInt 50)
           ∧ v_out v2 !! "x" = Some (PFloat ten)
           ∧ ¬ params_eq (v_out v2) (v_out v1).
Proof.
  eexists. eexists. split; [by vm_compute|]. split; [by vm_compute|].
  split; [by vm_compute|]. split; [by vm_compute|].
  intros H. specialize (H "x"%string).
  change (same_value (PFloat ten) (PInt 50)) in H.
  destruct H as [H|H]; [discriminate|].
  revert H. vm_compute. discriminate.
Qed.

(** So does it for a key that is present, under a schema that meets
    [min <= default <= max]: the integer 2^53 + 1, taken from the default
    for a candidate value that is no number, comes back from the float of
    the second pass as 2^53. *)
Lemma wide_integer_is_not_a_fixed_point :
  ∃ v1 v2, validate_and_clip (<["n" := PStr "abc"]> ∅) big_schema = Some v1
           ∧ validate_and_clip (v_out v1) big_schema = Some v2
           ∧ v_out v1 !! "n" = Some (PInt 9007199254740993)
           ∧ v_out v2 !! "n" = Some (PInt 9007199254740992)
           ∧ ¬ params_eq (v_out v2) (v_out v1).
Proof.
  eexists. eexists. split; [by vm_compute|]. split; [by vm_compute|].
  split; [by vm_compute|]. split; [by vm_compute|].
  intros H. specialize (H "n"%string).
  change (same_value (PInt 9007199254740992) (PInt 9007199254740993)) in H.
  destruct H as [H|H]; [discriminate|].
  revert H. vm_compute. discriminate.
Qed.

(* ===================================================================== *)
(** * C5: the difference scored for a boolean key *)
(* ===================================================================== *)

(** The test of the second branch of [key_diff] implies the test of the
    first: a boolean is an instance of [int], so the branch that scores
    0.3 is never taken. *)
Lemma bool_branch_is_shadowed v d :
  Py.isinstance_bool v && Py.isinstance_bool d = true →
  Py.isinstance_int_float v && Py.isinstance_int_float d = true.
Proof. destruct v, d; simpl; done. Qed.

(** C5, on the code.  Two booleans go through the numeric formula
    [min(1, |v-d| / (|d| + 1 + 1e-9))]: a flag turned on scores
    0.999999999, a flag turned off 0.4999999998, never 0.3; only an
    unchanged flag scores what the specification says, 0.  The score of the one
    changed key [flag] is that 0.999999999. *)
Theorem booleans_are_scored_as_numbers :
  key_diff (PBool true) (PBool false) = Some (Some diff_false_to_true)
  ∧ key_diff (PBool false) (PBool true) = Some (Some diff_true_to_false)
  ∧ key_diff (PBool true) (PBool true) = Some (Some f_0_0)
  ∧ key_diff (PBool false) (PBool false) = Some (Some f_0_0)
  ∧ F64.ltb f_0_3 diff_true_to_false = true
  ∧ F64.ltb diff_true_to_false diff_false_to_true = true
  ∧ F64.ltb diff_false_to_true f_1_0 = true
  ∧ confidence_score flag_true flag_false (∅ : dict clip_entry)
    = Some diff_false_to_true.
Proof. repeat split; vm_compute; reflexivity. Qed.

(* ===================================================================== *)
(** * C6: the grammar of a schema *)
(* ===================================================================== *)

(** Without a numeric key the grammar is that of the empty object,
    whatever boolean keys the schema has. *)
Lemma no_number_key_gives_the_empty_object_grammar (schema : dict (dict pyval)) :
  number_keys schema = [] → _gbnf_for_schema schema = empty_object_grammar.
Proof. intros H. unfold _gbnf_for_schema. by rewrite H. Qed.

(** C6, on the code.  The schema with the one boolean key [flag] has no
    numeric key, so the third branch answers: the grammar is the text
    compiled for the empty schema, whose root is an object without
    members, and the key does not occur in it. *)
Theorem bool_only_schema_gets_the_empty_object_grammar :
  bool_keys flag_schema = ["flag"%string]
  ∧ number_keys flag_schema = []
  ∧ _gbnf_for_schema flag_schema = empty_object_grammar
  ∧ _gbnf_for_schema flag_schema = _gbnf_for_schema ∅
  ∧ occurs_in (Json.dumps_str "flag") (_gbnf_for_schema flag_schema) = false
  ∧ occurs_in "members" (_gbnf_for_schema flag_schema) = false
  ∧ occurs_in (Json.dumps_str "flag")
              (_gbnf_for_schema (<["x" := x_spec]> flag_schema)) = true.
Proof. repeat split; vm_compute; reflexivity. Qed.

(* ===================================================================== *)
(** * C7: the JSON span handed to the parser *)
(* ===================================================================== *)

Lemma upto_last_close_Some cs m :
  upto_last_close cs = Some m →
  ∃ mid post, cs = mid ++ (close_brace :: post) ∧ (close_brace ∉ post)
              ∧ m = mid ++ [close_brace].
Proof.
  revert m. induction cs as [|c r IH]; intros m; simpl; [done|].
  destruct (upto_last_close r) as [m'|] eqn:Hr.
  - intros [= <-]. destruct (IH m' eq_refl) as (mid & post & -> & Hpost & ->).
    by exists (c :: mid), post.
  - destruct (Ascii.eqb_spec c close_brace) as [->|]; [|done].
    intros [= <-]. exists [], r. split; [done|]. split; [|done].
    clear IH. induction r as [|c r IH]; [by apply not_elem_of_nil|].
    simpl in Hr. destruct (upto_last_close r); [done|].
    destruct (Ascii.eqb_spec c close_brace); [done|].
    apply not_elem_of_cons. split; [done|]. by apply IH.
Qed.

Lemma upto_last_close_None cs :
  upto_last_close cs = None → close_brace ∉ cs.
Proof.
  induction cs as [|c r IH]; simpl; [intros _; by apply not_elem_of_nil|].
  destruct (upto_last_close r); [done|].
  destruct (Ascii.eqb_spec c close_brace); [done|].
  intros _. apply not_elem_of_cons. split; [done|]. by apply IH.
Qed.

Lemma re_search_braces_Some cs m :
  re_search_braces cs = Some m →
  ∃ pre mid post, cs = pre ++ (open_brace :: (mid ++ (close_brace :: post)))
                  ∧ (open_brace ∉ pre) ∧ (close_brace ∉ post)
                  ∧ m = open_brace :: (mid ++ [close_brace]).
Proof.
  revert m. induction cs as [|c r IH]; intros m; simpl; [done|].
  destruct (Ascii.eqb_spec c open_brace) as [->|Hc].
  - destruct (upto_last_close r) as [m'|] eqn:Hr.
    + intros [= <-].
      destruct (upto_last_close_Some r m' Hr) as (mid & post & -> & Hpost & ->).
      exists [], mid, post. split; [done|]. split; [by apply not_elem_of_nil|done].
    + intros Hm. destruct (IH m Hm) as (pre & mid & post & -> & _).
      exfalso. apply (upto_last_close_None _ Hr).
      rewrite elem_of_app. right. rewrite elem_of_cons. right.
      rewrite elem_of_app. right. rewrite elem_of_cons. by left.
  - intros Hm. destruct (IH m Hm) as (pre & mid & post & -> & Hpre & Hpost & ->).
    exists (c :: pre), mid, post. split; [done|]. split; [|done].
    apply not_elem_of_cons. split; [|done]. intros E. by apply Hc.
Qed.

Lemma re_search_braces_None cs :
  re_search_braces cs = None → ¬ has_braces cs.
Proof.
  induction cs as [|c r IH]; simpl.
  - intros _ (pre & mid & post & H). by destruct pre.
  - destruct (Ascii.eqb_spec c open_brace) as [->|Hc].
    + destruct (upto_last_close r) as [m'|] eqn:Hr; [done|].
      intros _ (pre & mid & post & H).
      apply (upto_last_close_None _ Hr).
      destruct pre as [|p pre]; simpl in H.
      * injection H as ->.
        rewrite elem_of_app. right. rewrite elem_of_cons. by left.
      * injection H as _ ->.
        rewrite elem_of_app. right. rewrite elem_of_cons. right.
        rewrite elem_of_app. right. rewrite elem_of_cons. by left.
    + intros Hn (pre & mid & post & H). apply (IH Hn).
      destruct pre as [|p pre]; simpl in H; injection H as -> ->; [done|].
      by exists pre, mid, post.
Qed.

(** C7, as the code has it.  The text handed to [json.loads] runs from
    the first opening brace of the response to the last closing brace
    that follows it, whatever braces stand in between; the response
    itself is handed over when no opening brace has a closing brace after
    it.  For the response of the scenario that span is [{"x": 3}]. *)
Theorem json_text_is_first_open_to_last_close (raw : string) :
  match re_search_braces (Text.chars raw) with
  | Some m =>
      json_text_of raw = Text.text m
      ∧ ∃ pre mid post,
          Text.chars raw = pre ++ (open_brace :: (mid ++ (close_brace :: post)))
          ∧ (open_brace ∉ pre) ∧ (close_brace ∉ post)
          ∧ m = open_brace :: (mid ++ [close_brace])
  | None => json_text_of raw = raw ∧ ¬ has_braces (Text.chars raw)
  end
  ∧ json_text_of sure_done = x_is_3.
Proof.
  split; [|vm_compute; reflexivity].
  unfold json_text_of.
  destruct (re_search_braces (Text.chars raw)) as [m|] eqn:Hm.
  - split; [done|]. by apply re_search_braces_Some.
  - split; [done|]. by apply re_search_braces_None.
Qed.

(** The span is not the first balanced one: of two objects in one
    response the code hands over both with the text between them, where
    the first balanced span is the first object. *)
Lemma greedy_span_is_not_the_balanced_one :
  json_text_of two_objects = two_objects
  ∧ spec_json_text_of two_objects = x_is_3
  ∧ json_text_of two_objects ≠ spec_json_text_of two_objects.
Proof.
  split; [vm_compute; reflexivity|]. split; [vm_compute; reflexivity|].
  vm_compute. discriminate.
Qed.

(** Nor is it balanced at all when a closing brace strays in later. *)
Lemma greedy_span_takes_a_stray_brace :
  json_text_of stray_brace = stray_brace
  ∧ spec_json_text_of stray_brace = x_is_3.
Proof. split; vm_compute; reflexivity. Qed.

(* ===================================================================== *)
(** * C9: configuration errors *)
(* ===================================================================== *)

(** C9.  Both wrappers return before any attempt: with a model path that
    does not exist the result is [ok=false] with the violations
    [{"error": "model_missing"}] and the model name "(unset)"; with a
    path that exists and an empty schema it is [ok=false] with
    [{"error": "schema_missing"}] and the name of the model file.  No
    event is added to the trace and no engine call is counted; the hard
    wrapper has only read the clock. *)
Theorem configuration_errors_fail_fast
    (fuel : nat) (w : world) (ev : cancel_event) (model_path : string)
    (schema : dict (dict pyval)) (s : state) :
  (path_exists w model_path = false →
   Run.run_llm_soft w ev model_path schema s
   = (Returned (Result false None (PFloat f_0_0) f_0_0 None None
                  (Some (Report {[ "error"%string := PStr "model_missing" ]}))
                  "(unset)"), s)
   ∧ ∃ s', Run.run_llm_hard fuel w ev model_path schema s
           = (Returned (Result false None (PFloat f_0_0) f_0_0 None None
                  (Some (Report {[ "error"%string := PStr "model_missing" ]}))
                  "(unset)"), s')
           ∧ trace s' = trace s ∧ engine_calls s' = engine_calls s)
  ∧ (path_exists w model_path = true → schema = ∅ →
     Run.run_llm_soft w ev model_path schema s
     = (Returned (Result false None (PFloat f_0_0) f_0_0 None None
                    (Some (Report {[ "error"%string := PStr "schema_missing" ]}))
                    (basename w model_path)), s)
     ∧ ∃ s', Run.run_llm_hard fuel w ev model_path schema s
             = (Returned (Result false None (PFloat f_0_0) f_0_0 None None
                    (Some (Report {[ "error"%string := PStr "schema_missing" ]}))
                    (basename w model_path)), s')
             ∧ trace s' = trace s ∧ engine_calls s' = engine_calls s).
Proof.
  split.
  - intros Hp. unfold Run.run_llm_soft, Run.run_llm_hard, Run.now.
    rewrite Hp. cbn [negb]. split; [reflexivity|].
    eexists. split; [reflexivity|]. split; reflexivity.
  - intros Hp ->. unfold Run.run_llm_soft, Run.run_llm_hard, Run.now.
    rewrite Hp. cbn [negb].
    destruct (decide ((∅ : dict (dict pyval)) = ∅)) as [_|Hne]; [|by destruct Hne].
    split; [reflexivity|].
    eexists. split; [reflexivity|]. split; reflexivity.
Qed.

Lemma configuration_errors_fail_fast_witness :
  (Run.run_llm_soft (calm_world false) None "model.gguf" x_schema (initial None)
   = (Returned (Result false None (PFloat f_0_0) f_0_0 None None
                  (Some (Report {[ "error"%string := PStr "model_missing" ]}))
                  "(unset)"), initial None))
  ∧ (Run.run_llm_soft (calm_world true) None "model.gguf" ∅ (initial None)
     = (Returned (Result false None (PFloat f_0_0) f_0_0 None None
                    (Some (Report {[ "error"%string := PStr "schema_missing" ]}))
                    "model.gguf"), initial None)).
Proof.
  split.
  - exact (proj1 (proj1 (configuration_errors_fail_fast
                           0 (calm_world false) None "model.gguf" x_schema
                           (initial None)) eq_refl)).
  - exact (proj1 (proj2 (configuration_errors_fail_fast
                           0 (calm_world true) None "model.gguf" ∅
                           (initial None)) eq_refl eq_refl)).
Defined.

(* ===================================================================== *)
(** * C8: an event set before the call *)
(* ===================================================================== *)


Lemma x_schema_not_empty : x_schema ≠ ∅.
Proof. unfold x_schema. apply insert_non_empty. Qed.



(** The soft wrapper, for comparison, starts nothing. *)
Lemma soft_wrapper_starts_nothing :
  ∃ r s', Run.run_llm_soft (calm_world true) (Some always_set) "model.gguf"
            x_schema (initial None) = (Returned r, s')
          ∧ violations r = Some (Report {[ "error"%string := PStr "canceled" ]})
          ∧ trace s' = [EvAcquireLock; EvLoadModel "model.gguf";
                        EvCompileGrammar (_gbnf_for_schema x_schema);
                        EvReleaseLock]
          ∧ no_inference (trace s') = true.
Proof.
  eexists. eexists. split; [vm_compute; reflexivity|].
  split; [vm_compute; reflexivity|]. split; vm_compute; reflexivity.
Qed.

(* ===================================================================== *)
(** * Further properties of the validation and of the score *)
(* ===================================================================== *)

Lemma ltb_leb x y : F64.ltb x y = true → F64.leb x y = true.
Proof.
  unfold F64.ltb, F64.leb, SFltb, SFleb. by destruct (SFcompare x y) as [[]|].
Qed.

Lemma unit_clamp_between y :
  float_between f_0_0 f_1_0
    (Py.max2 F64.ltb f_0_0 (Py.min2 F64.ltb f_1_0 y)) = true.
Proof.
  unfold float_between, Py.max2, Py.min2.
  destruct (F64.ltb y f_1_0) eqn:E1.
  - destruct (F64.ltb f_0_0 y) eqn:E2.
    + by rewrite (ltb_leb _ _ E1), (ltb_leb _ _ E2).
    + vm_compute. reflexivity.
  - vm_compute. reflexivity.
Qed.

(** X1.  The confidence that [confidence_score] returns lies between 0
    and 1, whatever the validated parameters, the defaults and the clip
    report: the outer [max(0.0, min(1.0, ...))] maps even a NaN to 1. *)
Theorem confidence_score_in_unit_range
    (validated defaults : dict pyval) (clipped : dict clip_entry) (f : F64.float) :
  confidence_score validated defaults clipped = Some f →
  float_between f_0_0 f_1_0 f = true.
Proof.
  unfold confidence_score.
  destruct (comparable validated defaults) as [|item items].
  - intros [= <-]. vm_compute. reflexivity.
  - destruct (collect_diffs (item :: items)) as [diffs|];
      cbv [mbind option_bind]; [|discriminate].
    unfold score_of_diffs.
    destruct (py_sum diffs) as [total|]; cbv [mbind option_bind]; [|discriminate].
    destruct (Num.div total _) as [base|]; [|discriminate].
    match goal with
    | |- context [Num.div ?a ?b] => destruct (Num.div a b) as [ratio|]
    end; [|discriminate].
    intros [= <-]. apply unit_clamp_between.
Qed.

Lemma confidence_score_in_unit_range_witness :
  confidence_score flag_true flag_false (∅ : dict clip_entry)
  = Some diff_false_to_true
  ∧ float_between f_0_0 f_1_0 diff_false_to_true = true.
Proof.
  assert (confidence_score flag_true flag_false (∅ : dict clip_entry)
          = Some diff_false_to_true) as H by (vm_compute; reflexivity).
  split; [exact H|].
  exact (confidence_score_in_unit_range flag_true flag_false ∅
           diff_false_to_true H).
Defined.

(** X2.  Every candidate key that the schema lacks is left out of the
    validated parameters and recorded as "unknown-key->dropped". *)
Theorem unknown_key_is_dropped
    (params : dict pyval) (schema : dict (dict pyval)) (v : validation)
    (k : string) :
  validate_and_clip params schema = Some v →
  schema !! k = None → is_Some (params !! k) →
  v_out v !! k = None ∧ v_clipped v !! k = None
  ∧ v_violations v !! k = Some "unknown-key->dropped"%string.
Proof.
  intros Hv Hs [x Hp].
  pose proof (validate_and_clip_entries params schema v Hv k) as Hk.
  rewrite Hs, Hp in Hk. exact Hk.
Qed.

Lemma unknown_key_is_dropped_witness :
  ∃ v, validate_and_clip (<["zz" := PNone]> flag_yes) flag_schema = Some v
       ∧ v_out v !! "zz" = None ∧ v_clipped v !! "zz" = None
       ∧ v_violations v !! "zz" = Some "unknown-key->dropped"%string.
Proof.
  assert (∃ v, validate_and_clip (<["zz" := PNone]> flag_yes) flag_schema = Some v)
    as [v Hv] by (eexists; vm_compute; reflexivity).
  assert (flag_schema !! "zz" = None) as Hs by (vm_compute; reflexivity).
  assert (is_Some ((<["zz" := PNone]> flag_yes) !! "zz")) as Hp.
  { exists PNone. apply lookup_insert_eq. }
  exists v. split; [exact Hv|].
  exact (unknown_key_is_dropped (<["zz" := PNone]> flag_yes) flag_schema v "zz"
           Hv Hs Hp).
Defined.

Lemma clip_value_integer_between_witness :
  ∃ z, PInt 8 = PInt z ∧ (1 <= z <= 25)%Z.
Proof.
  assert (type_is n_spec "float" = false) as Hf by (vm_compute; reflexivity).
  assert (type_is n_spec "integer" = true) as Hi by (vm_compute; reflexivity).
  assert (n_spec !! "min" = Some (PInt 1)) as Hmin by (vm_compute; reflexivity).
  assert (n_spec !! "max" = Some (PInt 25)) as Hmax by (vm_compute; reflexivity).
  assert (clip_value (PStr "7.6") n_spec = Some (PInt 8)) as Hc
    by (vm_compute; reflexivity).
  assert (1 <= 25)%Z as Hle by lia.
  exact (clip_value_integer_between (PStr "7.6") n_spec (PInt 1) (PInt 25) 1 25
           (PInt 8) Hf Hi Hmin Hmax eq_refl eq_refl Hle Hc).
Defined.


(* ===================================================================== *)
(** * Further properties: the report, the schema shipped, the grammar,
      the wrappers and the single flight *)
(* ===================================================================== *)

(** What the validation holds at each key, by whether the schema and
    the candidate have it. *)
Lemma validate_and_clip_at params schema v k :
  validate_and_clip params schema = Some v →
  match schema !! k, params !! k with
  | Some spec, Some x =>
      ∃ r, clip_value x spec = Some r ∧ v_out v !! k = Some r
           ∧ v_clipped v !! k
             = (if Py.ne r x then Some (ClipEntry x r) else None)
           ∧ v_violations v !! k = None
  | Some spec, None =>
      v_out v !! k = Some (dict_get spec "default") ∧ v_clipped v !! k = None
      ∧ v_violations v !! k = Some "missing->default"%string
  | None, Some _ =>
      v_out v !! k = None ∧ v_clipped v !! k = None
      ∧ v_violations v !! k = Some "unknown-key->dropped"%string
  | None, None =>
      v_out v !! k = None ∧ v_clipped v !! k = None ∧ v_violations v !! k = None
  end.
Proof.
  intros Hv. pose proof (validate_and_clip_entries params schema v Hv k) as Hk.
  unfold entry_done in Hk.
  destruct (schema !! k) as [spec|] eqn:Hs; [|destruct (params !! k); exact Hk].
  destruct (params !! k) as [x|] eqn:Hp; exact Hk.
Qed.

(** X5.  The clip report of [validate_and_clip] is exact: it holds an
    entry for a key exactly when the key is in the schema and in the
    candidate and the validated value differs ([!=]) from the
    candidate's, and the entry holds the candidate's value under "in"
    and the validated value under "out". *)
Theorem clip_report_is_exact
    (params : dict pyval) (schema : dict (dict pyval)) (v : validation)
    (k : string) :
  validate_and_clip params schema = Some v →
  v_clipped v !! k
  = match schema !! k, params !! k, v_out v !! k with
    | Some _, Some x, Some r => if Py.ne r x then Some (ClipEntry x r) else None
    | _, _, _ => None
    end.
Proof.
  intros Hv. pose proof (validate_and_clip_at params schema v k Hv) as Hk.
  destruct (schema !! k) as [spec|], (params !! k) as [x|].
  - destruct Hk as (r & _ & -> & -> & _). reflexivity.
  - destruct Hk as (_ & -> & _). reflexivity.
  - destruct Hk as (_ & -> & _). reflexivity.
  - destruct Hk as (_ & -> & _). reflexivity.
Qed.

Lemma clip_report_is_exact_witness :
  ∃ v, validate_and_clip mixed_candidate mixed_schema = Some v
       ∧ v_clipped v !! "n" = Some (ClipEntry (PStr "7.6") (PInt 8))
       ∧ v_clipped v !! "x" = None.
Proof.
  assert (∃ v, validate_and_clip mixed_candidate mixed_schema = Some v)
    as [v Hv] by (eexists; vm_compute; reflexivity).
  exists v. split; [exact Hv|].
  pose proof (clip_report_is_exact mixed_candidate mixed_schema v "n" Hv) as Hn.
  pose proof (clip_report_is_exact mixed_candidate mixed_schema v "x" Hv) as Hx.
  pose proof (validate_and_clip_at mixed_candidate mixed_schema v "n" Hv) as Hn'.
  assert (mixed_schema !! "n" = Some n_spec) as E1 by (vm_compute; reflexivity).
  assert (mixed_candidate !! "n" = Some (PStr "7.6")) as E2 by (vm_compute; reflexivity).
  assert (mixed_candidate !! "x" = None) as E3 by (vm_compute; reflexivity).
  assert (mixed_schema !! "x" = Some x_spec) as E4 by (vm_compute; reflexivity).
  assert (clip_value (PStr "7.6") n_spec = Some (PInt 8)) as E5
    by (vm_compute; reflexivity).
  rewrite E1, E2 in Hn, Hn'. rewrite E4, E3 in Hx.
  destruct Hn' as (r & Hr & Ho & _). rewrite E5 in Hr.
  injection Hr as <-. rewrite Ho in Hn.
  exact (conj Hn Hx).
Defined.

(** X6.  The violations of [validate_and_clip] are exact: a key
    carries "missing->default" exactly when the schema has it and the
    candidate lacks it, "unknown-key->dropped" exactly when the candidate
    has it and the schema lacks it, and nothing otherwise; so the
    violations are empty exactly when the candidate and the schema have
    the same keys. *)
Theorem violations_are_exact
    (params : dict pyval) (schema : dict (dict pyval)) (v : validation) :
  validate_and_clip params schema = Some v →
  (∀ k, v_violations v !! k
        = match schema !! k, params !! k with
          | Some _, None => Some "missing->default"%string
          | None, Some _ => Some "unknown-key->dropped"%string
          | _, _ => None
          end)
  ∧ (v_violations v = ∅ ↔ dom params = dom schema).
Proof.
  intros Hv.
  assert (∀ k, v_violations v !! k
        = match schema !! k, params !! k with
          | Some _, None => Some "missing->default"%string
          | None, Some _ => Some "unknown-key->dropped"%string
          | _, _ => None
          end) as Hall.
  { intros k. pose proof (validate_and_clip_at params schema v k Hv) as Hk.
    destruct (schema !! k) as [spec|], (params !! k) as [x|].
    - destruct Hk as (r & _ & _ & _ & ->). reflexivity.
    - destruct Hk as (_ & _ & ->). reflexivity.
    - destruct Hk as (_ & _ & ->). reflexivity.
    - destruct Hk as (_ & _ & ->). reflexivity. }
  split; [exact Hall|]. split.
  - intros He. apply set_eq. intros k. rewrite !elem_of_dom.
    pose proof (Hall k) as Hk. rewrite He, lookup_empty in Hk.
    destruct (schema !! k), (params !! k); try discriminate;
      split; intros [? ?]; try discriminate; eauto.
  - intros Hd. apply map_empty. intros k. rewrite Hall.
    assert (is_Some (params !! k) ↔ is_Some (schema !! k)) as Hk
      by (rewrite <- !elem_of_dom, Hd; reflexivity).
    destruct (schema !! k), (params !! k); try reflexivity.
    + destruct Hk as [_ Hk]. destruct Hk; [eauto|discriminate].
    + destruct Hk as [Hk _]. destruct Hk; [eauto|discriminate].
Qed.

Lemma violations_are_exact_witness :
  ∃ v, validate_and_clip mixed_candidate mixed_schema = Some v
       ∧ (∀ k, v_violations v !! k
               = match mixed_schema !! k, mixed_candidate !! k with
                 | Some _, None => Some "missing->default"%string
                 | None, Some _ => Some "unknown-key->dropped"%string
                 | _, _ => None
                 end)
       ∧ (v_violations v = ∅ ↔ dom mixed_candidate = dom mixed_schema).
Proof.
  assert (∃ v, validate_and_clip mixed_candidate mixed_schema = Some v)
    as [v Hv] by (eexists; vm_compute; reflexivity).
  exists v. split; [exact Hv|].
  exact (violations_are_exact mixed_candidate mixed_schema v Hv).
Defined.

(** X7.  For a key that the candidate holds, the validated value
    has the type of the entry: a float for "float", an int for
    "integer", a bool for "bool"; under any other type it is the
    candidate's value itself. *)
Theorem validated_value_has_the_entry_type
    (params : dict pyval) (schema : dict (dict pyval)) (v : validation)
    (k : string) (spec : dict pyval) (x r : pyval) :
  validate_and_clip params schema = Some v →
  schema !! k = Some spec → params !! k = Some x → v_out v !! k = Some r →
  (type_is spec "float" = true → ∃ f, r = PFloat f)
  ∧ (type_is spec "integer" = true → ∃ z, r = PInt z)
  ∧ (type_is spec "bool" = true → ∃ b, r = PBool b)
  ∧ (type_is spec "float" = false → type_is spec "integer" = false →
     type_is spec "bool" = false → r = x).
Proof.
  intros Hv Hs Hp Ho.
  pose proof (validate_and_clip_at params schema v k Hv) as Hk.
  rewrite Hs, Hp in Hk. destruct Hk as (r' & Hc & Ho' & _).
  rewrite Ho in Ho'. injection Ho' as <-.
  assert (∀ a b, a ≠ b → type_is spec a = true → type_is spec b = false) as Hex.
  { intros a b Hab. unfold type_is. destruct (spec !! "type") as [[]|]; try discriminate.
    intros Ha%String.eqb_eq. subst. apply String.eqb_neq. exact Hab. }
  unfold clip_value in Hc.
  repeat split.
  - intros Hf. rewrite Hf in Hc.
    destruct (try_except _ _) as [y|]; [|discriminate]. simpl in Hc.
    destruct (Py.float (dict_get_or spec "min" _)) as [lo|]; [|discriminate].
    simpl in Hc.
    destruct (Py.float (dict_get_or spec "max" _)) as [hi|]; [|discriminate].
    simpl in Hc. injection Hc as <-. eauto.
  - intros Hi. rewrite (Hex "integer" "float")%string in Hc by (discriminate || exact Hi).
    rewrite Hi in Hc.
    destruct (try_except _ _) as [y|]; [|discriminate]. simpl in Hc.
    destruct (Py.int (dict_get_or spec "min" _)) as [lo|]; [|discriminate].
    simpl in Hc.
    destruct (Py.int (dict_get_or spec "max" _)) as [hi|]; [|discriminate].
    simpl in Hc. injection Hc as <-. eauto.
  - intros Hb. rewrite (Hex "bool" "float")%string in Hc by (discriminate || exact Hb).
    rewrite (Hex "bool" "integer")%string in Hc by (discriminate || exact Hb).
    rewrite Hb in Hc.
    destruct x; simpl in Hc; injection Hc as <-; eauto.
  - intros Hf Hi Hb. rewrite Hf, Hi, Hb in Hc. by injection Hc.
Qed.

Lemma validated_value_has_the_entry_type_witness :
  (type_is n_spec "float" = true → ∃ f, PInt 8 = PFloat f)
  ∧ (type_is n_spec "integer" = true → ∃ z, PInt 8 = PInt z)
  ∧ (type_is n_spec "bool" = true → ∃ b, PInt 8 = PBool b)
  ∧ (type_is n_spec "float" = false → type_is n_spec "integer" = false →
     type_is n_spec "bool" = false → PInt 8 = PStr "7.6").
Proof.
  assert (∃ v, validate_and_clip mixed_candidate mixed_schema = Some v
               ∧ v_out v !! "n" = Some (PInt 8)) as (v & Hv & Ho).
  { eexists. split; vm_compute; reflexivity. }
  assert (mixed_schema !! "n" = Some n_spec) as Hs by (vm_compute; reflexivity).
  assert (mixed_candidate !! "n" = Some (PStr "7.6")) as Hp
    by (vm_compute; reflexivity).
  exact (validated_value_has_the_entry_type mixed_candidate mixed_schema v "n"
           n_spec (PStr "7.6") (PInt 8) Hv Hs Hp Ho).
Defined.

(** What a second pass over validated parameters returns, when each
    value stored is left equal by [clip_value]. *)
Lemma second_pass_equal params schema v1 :
  validate_and_clip params schema = Some v1 →
  (∀ k spec r, schema !! k = Some spec → v_out v1 !! k = Some r →
     ∃ r', clip_value r spec = Some r' ∧ same_value r' r) →
  ∃ v2, validate_and_clip (v_out v1) schema = Some v2
        ∧ params_eq (v_out v2) (v_out v1).
Proof.
  intros Hv Hfix.
  assert (is_Some (validate_and_clip (v_out v1) schema)) as [v2 Hv2].
  { unfold validate_and_clip.
    destruct (validate_loop_total (v_out v1) schema) as [st ->]; [|by eexists].
    intros k spec r Hk Hr. destruct (Hfix k spec r Hk Hr) as (r' & -> & _).
    by eexists. }
  exists v2. split; [exact Hv2|]. intros k.
  pose proof (validate_and_clip_at (v_out v1) schema v2 k Hv2) as E2.
  pose proof (validate_and_clip_at params schema v1 k Hv) as E1.
  destruct (schema !! k) as [spec|] eqn:Hk.
  - destruct (v_out v1 !! k) as [r|] eqn:Hr.
    + destruct E2 as (r2 & Hc & -> & _).
      destruct (Hfix k spec r Hk Hr) as (r' & Hc' & Hs).
      rewrite Hc' in Hc. injection Hc as <-. exact Hs.
    + destruct (params !! k).
      * destruct E1 as (r & _ & ? & _). discriminate.
      * destruct E1 as (? & _). discriminate.
  - destruct (v_out v1 !! k) as [r|] eqn:Hr.
    + destruct (params !! k); destruct E1 as (? & _); discriminate.
    + destruct E2 as (-> & _). exact I.
Qed.

Lemma well_formed_conversions spec :
  well_formed spec = true → conversions_ok spec = true.
Proof.
  unfold well_formed, conversions_ok, dict_get_or.
  destruct (type_is spec "float").
  - destruct (spec !! "min") as [mn|]; [|discriminate].
    destruct (spec !! "max") as [mx|]; [|discriminate].
    destruct (spec !! "default") as [[| | |d| | |]|]; try discriminate.
    simpl. destruct (Py.float mn); [|discriminate].
    destruct (Py.float mx); [|discriminate]. reflexivity.
  - destruct (type_is spec "integer"); [|reflexivity].
    destruct (spec !! "min") as [[| |lo| | | |]|]; try discriminate.
    destruct (spec !! "max") as [[| |hi| | | |]|]; try discriminate.
    destruct (spec !! "default") as [[| |d| | | |]|]; try discriminate.
    reflexivity.
Qed.

(** The clamp of a value that lies between the bounds. *)
Lemma clamp_inside x lo hi :
  F64.leb lo x = true → F64.leb x hi = true →
  Py.min2 F64.ltb (Py.max2 F64.ltb x lo) hi = x.
Proof.
  intros H1 H2. unfold Py.min2, Py.max2.
  rewrite (leb_ltb_false _ _ H1), (leb_ltb_false _ _ H2). reflexivity.
Qed.

Lemma int_clamp_between x lo hi :
  (lo <= hi)%Z → (lo <= Py.min2 Z.ltb (Py.max2 Z.ltb x lo) hi <= hi)%Z.
Proof. intros. int_cases. Qed.

Lemma int_clamp_inside x lo hi :
  (lo <= x <= hi)%Z → Py.min2 Z.ltb (Py.max2 Z.ltb x lo) hi = x.
Proof. intros. int_cases. Qed.

Lemma well_formed_default spec :
  well_formed spec = true →
  clip_value (dict_get spec "default") spec = Some (dict_get spec "default")
  ∧ within spec (dict_get spec "default") = true.
Proof.
  unfold well_formed, within, clip_value, dict_get, dict_get_or.
  destruct (type_is spec "float").
  - destruct (spec !! "min") as [mn|]; [|discriminate].
    destruct (spec !! "max") as [mx|]; [|discriminate].
    destruct (spec !! "default") as [[| | |d| | |]|]; try discriminate.
    cbn [default from_option id mbind option_bind Py.float try_except].
    destruct (Py.float mn) as [lo|]; [|discriminate].
    destruct (Py.float mx) as [hi|]; [|discriminate].
    intros [[_ H1]%andb_prop H2]%andb_prop.
    cbn [mbind option_bind].
    rewrite (clamp_inside _ _ _ H1 H2). split; [reflexivity|].
    unfold float_between. rewrite H1, H2. apply orb_true_r.
  - destruct (type_is spec "integer").
    + destruct (spec !! "min") as [[| |lo| | | |]|]; try discriminate.
      destruct (spec !! "max") as [[| |hi| | | |]|]; try discriminate.
      destruct (spec !! "default") as [[| |d| | | |]|]; try discriminate.
      intros H.
      assert (lo <= d <= hi ∧ - 2 ^ 53 <= lo ∧ hi <= 2 ^ 53)%Z as (Hd & Hlo & Hhi).
      { repeat (apply andb_prop in H as [H ?]). lia. }
      cbn [default from_option id Py.float Py.int].
      rewrite (of_Z_round d) by lia.
      cbn [try_except mbind option_bind].
      rewrite (int_clamp_inside _ _ _ Hd). split; [reflexivity|].
      apply andb_true_intro. split; lia.
    + destruct (type_is spec "bool"); [|done].
      destruct (spec !! "default") as [[|b| | | | |]|]; try discriminate.
      done.
Qed.

Lemma well_formed_within value spec r :
  well_formed spec = true → clip_value value spec = Some r →
  within spec r = true.
Proof.
  unfold well_formed, within, clip_value, dict_get_or.
  destruct (type_is spec "float").
  - destruct (spec !! "min") as [mn|]; [|discriminate].
    destruct (spec !! "max") as [mx|]; [|discriminate].
    destruct (spec !! "default") as [[| | |d| | |]|]; try discriminate.
    cbn [default from_option id mbind option_bind Py.float].
    destruct (Py.float mn) as [lo|]; [|discriminate].
    destruct (Py.float mx) as [hi|]; [|discriminate].
    intros [[Hle _]%andb_prop _]%andb_prop.
    destruct (try_except _ _) as [x|]; [|discriminate].
    cbn [mbind option_bind]. intros [= <-].
    destruct (F64.is_nan x) eqn:Hn.
    + destruct x; try discriminate. rewrite clamp_nan. reflexivity.
    + rewrite (clamp_between x lo hi Hn Hle). apply orb_true_r.
  - destruct (type_is spec "integer").
    + destruct (spec !! "min") as [[| |lo| | | |]|]; try discriminate.
      destruct (spec !! "max") as [[| |hi| | | |]|]; try discriminate.
      destruct (spec !! "default") as [[| |d| | | |]|]; try discriminate.
      intros H.
      assert (lo <= hi)%Z as Hle.
      { repeat (apply andb_prop in H as [H ?]). lia. }
      cbn [default from_option id Py.int].
      destruct (try_except _ _) as [x|]; [|discriminate].
      cbn [mbind option_bind]. intros [= <-].
      pose proof (int_clamp_between x lo hi Hle).
      apply andb_true_intro. split; lia.
    + destruct (type_is spec "bool"); [|done].
      intros _. destruct (Py.isinstance_bool value) eqn:Hb.
      * by intros [= <-].
      * by intros [= <-].
Qed.

Lemma within_integer_fits spec z :
  well_formed spec = true → type_is spec "float" = false →
  type_is spec "integer" = true → within spec (PInt z) = true →
  (Z.abs z <= 2 ^ 53)%Z.
Proof.
  unfold well_formed, within. intros H Hf Hi. rewrite Hf, Hi in *.
  destruct (spec !! "min") as [[| |lo| | | |]|]; try discriminate.
  destruct (spec !! "max") as [[| |hi| | | |]|]; try discriminate.
  destruct (spec !! "default") as [[| |d| | | |]|]; try discriminate.
  intros Hw. repeat (apply andb_prop in H as [H ?]).
  apply andb_prop in Hw as [? ?]. lia.
Qed.

Section WellFormed.

Variable schema : dict (dict pyval).
Hypothesis Hwf : map_Forall (fun _ spec => well_formed spec = true) schema.
Variable params : dict pyval.

Lemma well_formed_total : is_Some (validate_and_clip params schema).
Proof.
  apply validate_and_clip_total. intros k spec Hk.
  apply well_formed_conversions. exact (Hwf k spec Hk).
Qed.

Lemma well_formed_stored v1 k spec :
  validate_and_clip params schema = Some v1 → schema !! k = Some spec →
  ∃ r, v_out v1 !! k = Some r ∧ within spec r = true
       ∧ ∃ r', clip_value r spec = Some r' ∧ same_value r' r.
Proof.
  intros Hv Hk.
  pose proof (validate_and_clip_at params schema v1 k Hv) as E.
  rewrite Hk in E. pose proof (Hwf k spec Hk) as Hs.
  destruct (params !! k) as [x|].
  - destruct E as (r & Hc & Ho & _). exists r.
    pose proof (well_formed_within x spec r Hs Hc) as Hw.
    split; [exact Ho|]. split; [exact Hw|].
    exists r. split; [|by left].
    apply (clip_value_fixed x); [exact Hc|].
    intros Hf Hi z ->. exact (within_integer_fits spec z Hs Hf Hi Hw).
  - destruct E as (Ho & _). exists (dict_get spec "default").
    destruct (well_formed_default spec Hs) as [Hc Hw].
    split; [exact Ho|]. split; [exact Hw|].
    exists (dict_get spec "default"). split; [exact Hc|by left].
Qed.

Lemma well_formed_validates :
  ∃ v1 v2, validate_and_clip params schema = Some v1
           ∧ (∀ k spec, schema !! k = Some spec →
                ∃ r, v_out v1 !! k = Some r ∧ within spec r = true)
           ∧ validate_and_clip (v_out v1) schema = Some v2
           ∧ params_eq (v_out v2) (v_out v1).
Proof.
  destruct well_formed_total as [v1 Hv1].
  destruct (second_pass_equal params schema v1 Hv1) as (v2 & Hv2 & Heq).
  { intros k spec r Hk Hr.
    destruct (well_formed_stored v1 k spec Hv1 Hk) as (r0 & Hr0 & _ & Hfix).
    rewrite Hr in Hr0. injection Hr0 as <-. exact Hfix. }
  exists v1, v2. split; [exact Hv1|]. split; [|exact (conj Hv2 Heq)].
  intros k spec Hk.
  destruct (well_formed_stored v1 k spec Hv1 Hk) as (r & Hr & Hw & _).
  exists r. exact (conj Hr Hw).
Qed.

End WellFormed.

Lemma map_Forall_bool {A} (P : A → bool) (m : gmap string A) :
  forallb (fun kv => P kv.2) (map_to_list m) = true →
  map_Forall (fun _ x => P x = true) m.
Proof.
  intros H. apply map_Forall_to_list. apply Forall_forall.
  intros [k x] Hin. rewrite forallb_forall in H.
  apply (H (k, x)). by apply list_elem_of_In.
Qed.

Lemma shipped_schema_well_formed :
  map_Forall (fun _ spec => well_formed spec = true) USER_SOCKET_SCHEMA.
Proof. apply map_Forall_bool. vm_compute. reflexivity. Qed.

Lemma shipped_size : size USER_SOCKET_SCHEMA = 25%nat.
Proof. vm_compute. reflexivity. Qed.

Lemma map_fold_agree {A B} (f g : string → A → B → B) (b : B) (m : gmap string A) :
  (∀ k x acc, m !! k = Some x → f k x acc = g k x acc) →
  map_fold f b m = map_fold g b m.
Proof.
  intros H. rewrite !map_fold_foldr.
  assert (Forall (fun kx => ∀ acc, f kx.1 kx.2 acc = g kx.1 kx.2 acc)
                 (map_to_list m)) as HF.
  { apply Forall_forall. intros [k x] Hin acc.
    apply H. by apply elem_of_map_to_list. }
  induction HF as [|[k x] l Hkx _ IH]; [reflexivity|].
  simpl. rewrite IH. apply Hkx.
Qed.

(** X8.  What [validate_and_clip] makes of a candidate depends on
    the candidate's values at the keys of the schema only: two
    candidates that agree there both raise, or return the same
    parameters, the same clip report and, at the keys of the schema, the
    same violations. *)
Theorem only_schema_keys_matter
    (params params' : dict pyval) (schema : dict (dict pyval)) :
  (∀ k, is_Some (schema !! k) → params !! k = params' !! k) →
  match validate_and_clip params schema, validate_and_clip params' schema with
  | Some v, Some v' =>
      v_out v = v_out v' ∧ v_clipped v = v_clipped v'
      ∧ ∀ k, is_Some (schema !! k) → v_violations v !! k = v_violations v' !! k
  | None, None => True
  | _, _ => False
  end.
Proof.
  intros Hagree. unfold validate_and_clip.
  rewrite (map_fold_agree (validate_entry params) (validate_entry params')).
  - destruct (map_fold _ _ schema) as [st|]; simpl; [|exact I].
    split; [reflexivity|]. split; [reflexivity|].
    intros k [spec Hk]. rewrite !drop_unknown_lookup, Hk. reflexivity.
  - intros k spec acc Hk. unfold validate_entry.
    rewrite (Hagree k) by eauto. reflexivity.
Qed.

Lemma only_schema_keys_matter_witness :
  ∃ v v', validate_and_clip flag_yes flag_schema = Some v
          ∧ validate_and_clip (<["zz" := PNone]> flag_yes) flag_schema = Some v'
          ∧ v_out v = v_out v' ∧ v_clipped v = v_clipped v'.
Proof.
  assert (∃ v, validate_and_clip flag_yes flag_schema = Some v)
    as [v Hv] by (eexists; vm_compute; reflexivity).
  assert (∃ v', validate_and_clip (<["zz" := PNone]> flag_yes) flag_schema = Some v')
    as [v' Hv'] by (eexists; vm_compute; reflexivity).
  exists v, v'.
  pose proof (only_schema_keys_matter flag_yes (<["zz" := PNone]> flag_yes)
                flag_schema) as H.
  rewrite Hv, Hv' in H.
  destruct H as (Ho & Hc & _).
  - intros k [spec Hk]. unfold flag_schema in Hk.
    apply lookup_insert_Some in Hk as [[<- _]|[_ Hk]].
    + symmetry. apply lookup_insert_ne. discriminate.
    + rewrite lookup_empty in Hk. discriminate.
  - exact (conj Hv (conj Hv' (conj Ho Hc))).
Defined.

(** X9.  For the empty candidate [validate_and_clip] never raises:
    it returns [defaults_from_schema(schema)], an empty clip report and
    "missing->default" for every key of the schema. *)
Theorem empty_candidate_gives_the_defaults (schema : dict (dict pyval)) :
  validate_and_clip ∅ schema
  = Some (Validation (defaults_from_schema schema) ∅
                     ((fun _ => "missing->default"%string) <$> schema)).
Proof.
  unfold validate_and_clip, defaults_from_schema.
  assert (map_fold (validate_entry ∅) (Some (Validation ∅ ∅ ∅)) schema
          = Some (Validation ((fun v => dict_get v "default") <$> schema) ∅
                     ((fun _ => "missing->default"%string) <$> schema))) as ->.
  { apply (map_fold_weak_ind
             (fun acc (m : dict (dict pyval)) =>
                acc = Some (Validation ((fun v => dict_get v "default") <$> m) ∅
                                ((fun _ => "missing->default"%string) <$> m)))).
    - by rewrite !fmap_empty.
    - intros k spec m acc Hk ->. unfold validate_entry. simpl.
      rewrite lookup_empty, !fmap_insert. reflexivity. }
  simpl. by rewrite map_fold_empty.
Qed.




Lemma insert_sorted_perm x xs : insert_sorted x xs ≡ₚ x :: xs.
Proof.
  induction xs as [|y r IH]; simpl; [reflexivity|].
  destruct (String.leb x y); [reflexivity|].
  rewrite IH. apply Permutation_swap.
Qed.

Lemma sort_strings_perm xs : sort_strings xs ≡ₚ xs.
Proof.
  induction xs as [|x r IH]; simpl; [reflexivity|].
  rewrite insert_sorted_perm. by rewrite IH.
Qed.

Lemma insert_sorted_ascending x xs :
  ascending xs = true → ascending (insert_sorted x xs) = true.
Proof.
  induction xs as [|y r IH]; simpl; [reflexivity|].
  intros Hs. destruct (String.leb x y) eqn:Hxy.
  - simpl. by rewrite Hxy.
  - assert (String.leb y x = true) as Hyx.
    { destruct (String.leb_total x y) as [H|H]; [congruence|exact H]. }
    destruct r as [|z r'].
    + simpl. by rewrite Hyx.
    + apply andb_prop in Hs as [Hyz Hr]. specialize (IH Hr).
      simpl in IH |- *. destruct (String.leb x z).
      * rewrite Hyx. exact IH.
      * rewrite Hyz. exact IH.
Qed.

Lemma sort_strings_ascending xs : ascending (sort_strings xs) = true.
Proof.
  induction xs as [|x r IH]; [reflexivity|].
  apply insert_sorted_ascending. exact IH.
Qed.

Lemma keys_where_elem (p : dict pyval → bool) (schema : dict (dict pyval)) k :
  k ∈ keys_where p schema ↔ ∃ spec, schema !! k = Some spec ∧ p spec = true.
Proof.
  unfold keys_where. rewrite sort_strings_perm.
  change (map fst ?l) with (fst <$> l).
  rewrite list_elem_of_fmap. split.
  - intros ([k' spec] & -> & Hin). apply list_elem_of_filter in Hin as [Hp Hin].
    apply elem_of_map_to_list in Hin. by exists spec.
  - intros (spec & Hk & Hp). exists (k, spec). split; [reflexivity|].
    apply list_elem_of_filter. split; [exact Hp|]. by apply elem_of_map_to_list.
Qed.

Lemma keys_where_NoDup (p : dict pyval → bool) (schema : dict (dict pyval)) :
  NoDup (keys_where p schema).
Proof.
  unfold keys_where. rewrite sort_strings_perm.
  change (map fst ?l) with (fst <$> l).
  apply NoDup_fmap_fst.
  - intros k x y Hx Hy.
    apply list_elem_of_filter in Hx as [_ Hx]. apply list_elem_of_filter in Hy as [_ Hy].
    apply elem_of_map_to_list in Hx. apply elem_of_map_to_list in Hy. congruence.
  - apply NoDup_filter. apply NoDup_map_to_list.
Qed.

Lemma type_is_exclusive (spec : dict pyval) a b :
  a ≠ b → type_is spec a = true → type_is spec b = false.
Proof.
  intros Hab. unfold type_is.
  destruct (spec !! "type") as [[]|]; try discriminate.
  intros Ha%String.eqb_eq. subst. apply String.eqb_neq. exact Hab.
Qed.

(** X12.  The lists [number_keys] and [bool_keys] of
    [_gbnf_for_schema] hold exactly the keys whose type is "float" or
    "integer", and exactly those whose type is "bool"; each is in
    ascending order and without repetition, and no key is in both. *)
Theorem number_and_bool_keys_are_exact (schema : dict (dict pyval)) :
  (∀ k, k ∈ number_keys schema
        ↔ ∃ spec, schema !! k = Some spec ∧ is_numeric spec = true)
  ∧ (∀ k, k ∈ bool_keys schema
          ↔ ∃ spec, schema !! k = Some spec ∧ type_is spec "bool" = true)
  ∧ ascending (number_keys schema) = true ∧ NoDup (number_keys schema)
  ∧ ascending (bool_keys schema) = true ∧ NoDup (bool_keys schema)
  ∧ (∀ k, k ∈ number_keys schema → k ∉ bool_keys schema).
Proof.
  split; [intros k; apply keys_where_elem|].
  split; [intros k; apply keys_where_elem|].
  split; [apply sort_strings_ascending|].
  split; [apply keys_where_NoDup|].
  split; [apply sort_strings_ascending|].
  split; [apply keys_where_NoDup|].
  intros k Hn Hb.
  apply keys_where_elem in Hn as (spec & Hk & Hn).
  apply keys_where_elem in Hb as (spec' & Hk' & Hb).
  rewrite Hk in Hk'. injection Hk' as <-.
  rewrite (type_is_exclusive spec "bool" "float") in Hn by (discriminate || exact Hb).
  rewrite (type_is_exclusive spec "bool" "integer") in Hn by (discriminate || exact Hb).
  discriminate.
Qed.

Lemma join_cons2 sep x y r :
  Text.join sep (x :: y :: r) = (x ++ sep ++ Text.join sep (y :: r))%string.
Proof. reflexivity. Qed.

Lemma members_grammar_differs (rest : string) :
  (Text.q "root ::= ws '{' ws members? ws '}' ws" ++ rest)%string
  ≠ empty_object_grammar.
Proof.
  intros H. apply (f_equal (String.get 19)) in H.
  revert H. vm_compute. discriminate.
Qed.

(** X13.  [_gbnf_for_schema] returns the grammar of the empty object
    exactly when no entry of the schema has the type "float" or
    "integer". *)
Theorem empty_object_grammar_iff_no_numeric_key (schema : dict (dict pyval)) :
  _gbnf_for_schema schema = empty_object_grammar
  ↔ ∀ k spec, schema !! k = Some spec → is_numeric spec = false.
Proof.
  assert (number_keys schema = []
          ↔ ∀ k spec, schema !! k = Some spec → is_numeric spec = false) as <-.
  { split.
    - intros He k spec Hk. destruct (is_numeric spec) eqn:Hn; [|reflexivity].
      assert (k ∈ number_keys schema) as Hin
        by (apply keys_where_elem; by exists spec).
      rewrite He in Hin. by apply elem_of_nil in Hin.
    - intros Hall. destruct (number_keys schema) as [|k r] eqn:He; [reflexivity|].
      assert (k ∈ number_keys schema) as Hin by (rewrite He; left).
      apply keys_where_elem in Hin as (spec & Hk & Hn).
      fold (is_numeric spec) in Hn.
      rewrite (Hall k spec Hk) in Hn. discriminate. }
  split.
  - unfold _gbnf_for_schema.
    destruct (number_keys schema) as [|k r]; [reflexivity|].
    destruct (bool_keys schema) as [|b r']; rewrite join_cons2;
      intros H; by apply members_grammar_differs in H.
  - apply no_number_key_gives_the_empty_object_grammar.
Qed.

Lemma upto_last_close_snoc mid :
  upto_last_close (mid ++ [close_brace]) = Some (mid ++ [close_brace]).
Proof.
  induction mid as [|c r IH]; [reflexivity|].
  simpl. by rewrite IH.
Qed.

Lemma re_search_braces_whole mid :
  re_search_braces (open_brace :: (mid ++ [close_brace]))
  = Some (open_brace :: (mid ++ [close_brace])).
Proof. simpl. by rewrite upto_last_close_snoc. Qed.

Lemma text_chars s : Text.text (Text.chars s) = s.
Proof. apply string_of_list_ascii_of_string. Qed.

Lemma chars_text cs : Text.chars (Text.text cs) = cs.
Proof. apply list_ascii_of_string_of_list_ascii. Qed.

(** X14.  The JSON span taken from a response is a fixed point of
    the extraction: extracting from the extracted text gives it back,
    and a text that starts with an opening brace and ends with a closing
    brace is taken whole. *)
Theorem json_text_of_is_idempotent (raw : string) :
  json_text_of (json_text_of raw) = json_text_of raw
  ∧ ∀ mid, json_text_of (Text.text (open_brace :: (mid ++ [close_brace])))
           = Text.text (open_brace :: (mid ++ [close_brace])).
Proof.
  assert (∀ mid, json_text_of (Text.text (open_brace :: (mid ++ [close_brace])))
                 = Text.text (open_brace :: (mid ++ [close_brace]))) as Hwhole.
  { intros mid. unfold json_text_of.
    by rewrite chars_text, re_search_braces_whole. }
  split; [|exact Hwhole].
  unfold json_text_of at 2 3.
  destruct (re_search_braces (Text.chars raw)) as [m|] eqn:Hm.
  - apply re_search_braces_Some in Hm as (pre & mid & post & _ & _ & _ & ->).
    apply Hwhole.
  - unfold json_text_of. by rewrite Hm.
Qed.

Lemma score_of_diffs_between diffs n m f :
  score_of_diffs diffs n m = Some f → float_between f_0_0 f_1_0 f = true.
Proof.
  unfold score_of_diffs.
  destruct (py_sum diffs) as [total|]; cbv [mbind option_bind]; [|discriminate].
  destruct (Num.div total _) as [base|]; [|discriminate].
  match goal with
  | |- context [Num.div ?a ?b] => destruct (Num.div a b) as [ratio|]
  end; [|discriminate].
  intros [= <-]. apply unit_clamp_between.
Qed.

Lemma confidence_between {C} (validated defaults : dict pyval) (clipped : dict C) f :
  confidence_score validated defaults clipped = Some f →
  float_between f_0_0 f_1_0 f = true.
Proof.
  unfold confidence_score.
  destruct (comparable validated defaults) as [|item items].
  - intros [= <-]. vm_compute. reflexivity.
  - destruct (collect_diffs (item :: items)) as [diffs|];
      cbv [mbind option_bind]; [|discriminate].
    apply score_of_diffs_between.
Qed.

(** ** What each step does to the state *)
Lemma calls_added_refl s : calls_added s s [].
Proof. unfold calls_added. rewrite app_nil_r. simpl. repeat split; lia. Qed.

Lemma calls_added_trans s1 s2 s3 a b :
  calls_added s1 s2 a → calls_added s2 s3 b → calls_added s1 s3 (a ++ b).
Proof.
  intros (T1 & F1 & E1 & P1 & L1 & C1) (T2 & F2 & E2 & P2 & L2 & C2).
  unfold calls_added. rewrite T2, T1, forallb_app, F1, F2, length_app.
  rewrite app_assoc. repeat split; try congruence; lia.
Qed.

Lemma is_canceled_calls ev s :
  calls_added s (Run.is_canceled ev s).2 [].
Proof.
  destruct ev; simpl; [|apply calls_added_refl].
  unfold calls_added. simpl. rewrite app_nil_r. repeat split; lia.
Qed.

Lemma now_calls w s : calls_added s (Run.now w s).2 [].
Proof.
  unfold calls_added. simpl. rewrite app_nil_r. repeat split; lia.
Qed.

Lemma canceled_at_calls w t0 mp s :
  calls_added s (Run.canceled_at w t0 mp s).2 []
  ∧ is_canceled_result (Run.canceled_at w t0 mp s).1.
Proof.
  unfold Run.canceled_at. simpl. split; [apply (now_calls w s)|].
  unfold is_canceled_result, Run.failed, Run.error_report. simpl. done.
Qed.

Lemma _call_calls w g a temp use_g s :
  ∃ added, calls_added s (Run._call w g a temp use_g s).2 added
           ∧ (1 <= length added <= 2)%nat
           ∧ cancel_reads (Run._call w g a temp use_g s).2 = cancel_reads s.
Proof.
  unfold Run._call, Run.next_reply, Run.emit. simpl.
  destruct (engine w (engine_calls s)) as [c| |[]|]; simpl;
    try (eexists [_]; unfold calls_added; simpl; repeat split; lia).
  destruct (engine w (S (engine_calls s))) as [c| |b|]; simpl;
    eexists [_; _]; unfold calls_added; simpl;
    rewrite <- app_assoc; simpl; repeat split; lia.
Qed.

Lemma interpret_inr w schema text v conf :
  Run.interpret w schema text = inr (v, conf) →
  ∃ items, json_loads w (json_text_of text) = Some (PDict items)
           ∧ validate_and_clip (list_to_map items) schema = Some v
           ∧ confidence_score (v_out v) (defaults_from_schema schema) (v_clipped v)
             = Some conf.
Proof.
  unfold Run.interpret.
  destruct (json_loads w (json_text_of text)) as [[| | | | | |items]|];
    try discriminate.
  destruct (validate_and_clip (list_to_map items) schema) as [v'|] eqn:Hv;
    [|discriminate].
  destruct (confidence_score _ _ _) as [c|] eqn:Hc; [|discriminate].
  intros H. injection H as <- <-. by exists items.
Qed.

Lemma success_well_shaped w schema text v conf el name :
  text ≠ EmptyString →
  Run.interpret w schema text = inr (v, conf) →
  well_shaped w schema (Run.success v conf el text name).
Proof.
  intros Hne (items & Hj & Hv & Hc)%interpret_inr.
  unfold well_shaped, Run.success. simpl.
  exists text, items, v.
  repeat split; try done.
  - by apply (validate_and_clip_dom (list_to_map items)).
  - by apply (confidence_between (v_out v) (defaults_from_schema schema) (v_clipped v)).
Qed.

Lemma failed_well_shaped w schema el tag name :
  well_shaped w schema (Run.failed el (Some tag) name).
Proof.
  unfold well_shaped, Run.failed. simpl.
  repeat (split; [reflexivity|]). by eexists.
Qed.

Lemma canceled_well_shaped w schema r :
  is_canceled_result r → well_shaped w schema r.
Proof.
  intros (Ho & Hp & Hr & Hc & Hf & Hv). unfold well_shaped. rewrite Ho.
  repeat (split; [done|]). rewrite Hv. by eexists.
Qed.

Lemma is_canceled_reads ev s :
  let cs := Run.is_canceled ev s in
  cs.1 = seen ev (cancel_reads s)
  ∧ (cancel_reads cs.2 <= S (cancel_reads s))%nat
  ∧ (cs.1 = true → cancel_reads cs.2 = S (cancel_reads s))
  ∧ (∀ i, (cancel_reads s <= i < cancel_reads cs.2)%nat → i = cancel_reads s).
Proof.
  destruct ev; simpl; repeat split; try lia; try done.
Qed.

Lemma canceled_at_reads w t0 mp s :
  cancel_reads (Run.canceled_at w t0 mp s).2 = cancel_reads s.
Proof. reflexivity. Qed.

Lemma attempt_body_post w ev schema g a t0 mp temp use_g s :
  let rs := Run.attempt_body w ev schema g a t0 mp temp use_g s in
  attempt_post w ev schema 2 s
    (match rs.1 with inr r => Some r | inl _ => None end) rs.2.
Proof.
  unfold Run.attempt_body.
  destruct (_call_calls w g a temp use_g s) as (added & Hadd & Hlen & Hreads).
  destruct (Run._call w g a temp use_g s) as [[reply|] s1]; cbn [fst snd] in *.
  2:{ split; [exists added; split; [done|lia]|].
      split; [done|]. intros i Hi. lia. }
  pose proof (is_canceled_calls ev s1) as Hc.
  pose proof (is_canceled_reads ev s1) as (Hseen & Hle & Hinc & Hidx).
  destruct (Run.is_canceled ev s1) as [c s2]; cbn [fst snd] in *.
  assert (calls_added s s2 added) as Hs2.
  { rewrite <- (app_nil_r added). by eapply calls_added_trans. }
  destruct c.
  - destruct (canceled_at_calls w t0 mp s2) as [Hcc Hres].
    pose proof (canceled_at_reads w t0 mp s2) as Hr.
    destruct (Run.canceled_at w t0 mp s2) as [res s3]; cbn [fst snd] in *.
    split; [exists added; split; [|lia]|].
    { rewrite <- (app_nil_r added). by eapply calls_added_trans. }
    split.
    + intros r [= <-]. by apply canceled_well_shaped.
    + intros i Hi Hset. by exists res.
  - assert (∀ i, (cancel_reads s <= i < cancel_reads s2)%nat →
                 seen ev i = true → False) as Hno.
    { intros i Hi Hset. rewrite <- Hreads in Hi. rewrite (Hidx i Hi) in Hset.
      congruence. }
    destruct reply as [content| | |]; cbn [fst snd].
    2-4: (split; [exists added; split; [done|lia]|];
          split; [done|]; intros i Hi Hset; destruct (Hno i Hi Hset)).
    destruct (String.eqb (Text.strip (default EmptyString content)) EmptyString)
      eqn:Hempty; cbn [fst snd].
    { split; [exists added; split; [done|lia]|].
      split; [done|]. intros i Hi Hset. destruct (Hno i Hi Hset). }
    destruct (Run.interpret w schema _) as [f|[v conf]] eqn:Hint; cbn [fst snd].
    { split; [exists added; split; [done|lia]|].
      split; [done|]. intros i Hi Hset. destruct (Hno i Hi Hset). }
    split; [exists added; split; [|lia]|].
    { rewrite <- (app_nil_r added). eapply calls_added_trans; [exact Hs2|].
      apply (now_calls w s2). }
    split.
    + intros r [= <-]. apply success_well_shaped; [|exact Hint].
      by apply String.eqb_neq.
    + intros i Hi Hset. destruct (Hno i Hi Hset).
Qed.

Lemma attempts_post w ev schema g a t0 mp plan last s :
  let rs := Run.attempts w ev schema g a t0 mp plan last s in
  attempt_post w ev schema (2 * length plan) s (Some rs.1) rs.2.
Proof.
  revert last s. induction plan as [|[temp use_g] rest IH]; intros last s.
  - simpl. split; [exists []; split; [apply (now_calls w s)|simpl; lia]|].
    split.
    + intros r [= <-]. apply failed_well_shaped.
    + intros i Hi. simpl in Hi. lia.
  - cbn [Run.attempts length].
    pose proof (is_canceled_calls ev s) as Hc.
    pose proof (is_canceled_reads ev s) as (Hseen & Hle & Hinc & Hidx).
    destruct (Run.is_canceled ev s) as [c s1]; cbn [fst snd] in *.
    destruct c.
    { destruct (canceled_at_calls w t0 mp s1) as [Hcc Hres].
      pose proof (canceled_at_reads w t0 mp s1) as Hr.
      destruct (Run.canceled_at w t0 mp s1) as [res s2]; cbn [fst snd] in *.
      split; [exists []; split; [|simpl; lia]|].
      { change [] with (@nil event ++ []). by eapply calls_added_trans. }
      split.
      - intros r [= <-]. by apply canceled_well_shaped.
      - intros i Hi Hset. cbn [fst snd] in Hi. by exists res. }
    assert (∀ i, (cancel_reads s <= i < cancel_reads s1)%nat →
                 seen ev i = true → False) as Hno1.
    { intros i Hi Hset. cbn [fst snd] in Hi. rewrite (Hidx i Hi) in Hset. congruence. }
    pose proof (attempt_body_post w ev schema g a t0 mp temp use_g s1) as Hb.
    destruct (Run.attempt_body w ev schema g a t0 mp temp use_g s1) as [out s2].
    cbn [fst snd] in Hb. destruct Hb as ((added & Hadd & Hlen) & Hshape & Hcan).
    assert (calls_added s s2 added) as Hs2.
    { change added with ([] ++ added). by eapply calls_added_trans. }
    assert (cancel_reads s1 <= cancel_reads s2)%nat as Hmono
      by (destruct Hadd as (_ & _ & _ & _ & _ & ?); done).
    destruct out as [f|res].
    + pose proof (is_canceled_calls ev s2) as Hc2.
      pose proof (is_canceled_reads ev s2) as (Hseen2 & Hle2 & Hinc2 & Hidx2).
      destruct (Run.is_canceled ev s2) as [c2 s3]; cbn [fst snd] in *.
      assert (calls_added s s3 added) as Hs3.
      { rewrite <- (app_nil_r added). by eapply calls_added_trans. }
      assert (∀ i, (cancel_reads s <= i < cancel_reads s2)%nat →
                   seen ev i = true → False) as Hno2.
      { intros i Hi Hset. cbn [fst snd] in Hi.
        destruct (decide (i < cancel_reads s1)%nat) as [Hlt|Hge].
        - apply (Hno1 i); [lia|done].
        - destruct (Hcan i) as (r & Hr' & _); [lia|done|discriminate]. }
      destruct c2.
      * destruct (canceled_at_calls w t0 mp s3) as [Hcc Hres].
        pose proof (canceled_at_reads w t0 mp s3) as Hr.
        destruct (Run.canceled_at w t0 mp s3) as [res s4]; cbn [fst snd] in *.
        split; [exists added; split; [|lia]|].
        { rewrite <- (app_nil_r added). by eapply calls_added_trans. }
        split.
        -- intros r [= <-]. by apply canceled_well_shaped.
        -- intros i Hi Hset. cbn [fst snd] in Hi. by exists res.
      * specialize (IH (Some (Run.failure_text w f)) s3).
        destruct (Run.attempts w ev schema g a t0 mp rest _ s3) as [res s4].
        cbn [fst snd] in IH. destruct IH as ((added' & Hadd' & Hlen') & Hshape' & Hcan').
        split; [exists (added ++ added'); split|].
        { by eapply calls_added_trans. }
        { rewrite length_app. lia. }
        split; [exact Hshape'|].
        intros i Hi Hset. cbn [fst snd] in Hi.
        destruct (decide (i < cancel_reads s2)%nat) as [Hlt|Hge].
        -- destruct (Hno2 i); [lia|done].
        -- destruct (decide (i < cancel_reads s3)%nat) as [Hlt3|Hge3].
           ++ rewrite (Hidx2 i) in Hset by lia. congruence.
           ++ apply (Hcan' i); [lia|done].
    + split; [exists added; split; [done|lia]|].
      split; [intros r [= <-]; by apply Hshape|].
      intros i Hi Hset. cbn [fst snd] in Hi.
      destruct (decide (i < cancel_reads s1)%nat) as [Hlt|Hge].
      * destruct (Hno1 i); [lia|done].
      * destruct (Hcan i) as (r & [= <-] & Hr'); [lia|done|]. by exists res.
Qed.

(** ** The worker-process strategy *)
Lemma worker_events_refl s : worker_events_added s s [].
Proof. unfold worker_events_added. rewrite app_nil_r. simpl. repeat split; lia. Qed.

Lemma worker_events_trans s1 s2 s3 a b :
  worker_events_added s1 s2 a → worker_events_added s2 s3 b →
  worker_events_added s1 s3 (a ++ b).
Proof.
  intros (T1 & F1 & E1 & L1 & C1) (T2 & F2 & E2 & L2 & C2).
  unfold worker_events_added. rewrite T2, T1, forallb_app, F1, F2.
  rewrite app_assoc. repeat split; try congruence; lia.
Qed.

Lemma worker_events_emit e s :
  out_of_process e = true → worker_events_added s (Run.emit e s) [e].
Proof.
  intros He. unfold worker_events_added. simpl. rewrite He.
  repeat split; lia.
Qed.

Lemma worker_events_is_canceled ev s :
  worker_events_added s (Run.is_canceled ev s).2 [].
Proof.
  destruct ev; simpl; [|apply worker_events_refl].
  unfold worker_events_added. simpl. rewrite app_nil_r. repeat split; lia.
Qed.

Lemma worker_events_now w s : worker_events_added s (Run.now w s).2 [].
Proof.
  unfold worker_events_added. simpl. rewrite app_nil_r. repeat split; lia.
Qed.

Lemma worker_events_exited w s : worker_events_added s (Run.exited w s).2 [].
Proof.
  unfold worker_events_added. simpl. rewrite app_nil_r. repeat split; lia.
Qed.

Lemma worker_events_canceled_at w t0 mp s :
  worker_events_added s (Run.canceled_at w t0 mp s).2 [].
Proof. apply (worker_events_now w s). Qed.

Lemma read_worker_post w schema t0 mp s :
  let rs := Run.read_worker w schema t0 mp s in
  worker_events_added s rs.2 [EvCommunicate]
  ∧ cancel_reads rs.2 = cancel_reads s
  ∧ (∀ r, rs.1 = inr r → well_shaped w schema r).
Proof.
  unfold Run.read_worker.
  assert (worker_events_added s (Run.emit EvCommunicate s) [EvCommunicate]) as He
    by (by apply worker_events_emit).
  assert (∀ s1, worker_events_added (Run.emit EvCommunicate s) s1 [] →
                worker_events_added s s1 [EvCommunicate]) as Hnow.
  { intros s1 H. change [EvCommunicate] with ([EvCommunicate] ++ []).
    by eapply worker_events_trans. }
  set (s0 := Run.emit EvCommunicate s) in *.
  assert (cancel_reads s0 = cancel_reads s) as Hr0 by reflexivity.
  destruct (communicate_ok w); cbn [negb fst snd]; [|done].
  destruct (String.eqb (worker_stdout w) EmptyString).
  { cbn [Run.now fst snd]. split; [apply Hnow, (worker_events_now w s0)|].
    split; [done|]. intros r [= <-]. apply failed_well_shaped. }
  destruct (json_loads w (worker_stdout w)) as [[| | | | | |payload]|];
    cbn [fst snd]; try done.
  destruct (Run.truthy (default PNone (Py.assoc "ok" payload))).
  2:{ cbn [Run.now fst snd]. split; [apply Hnow, (worker_events_now w s0)|].
      split; [done|]. intros r [= <-].
      destruct (Run.truthy _); apply failed_well_shaped. }
  destruct (if Run.truthy _ then _ else _) as [| | | |text| |];
    cbn [fst snd]; try done.
  destruct (String.eqb (Text.strip text) EmptyString) eqn:Hempty.
  { cbn [Run.now fst snd]. split; [apply Hnow, (worker_events_now w s0)|].
    split; [done|]. intros r [= <-]. apply failed_well_shaped. }
  destruct (Run.interpret w schema (Text.strip text)) as [f|[v conf]] eqn:Hint;
    cbn [Run.now fst snd]; [done|].
  split; [apply Hnow, (worker_events_now w s0)|].
  split; [done|]. intros r [= <-].
  apply success_well_shaped; [|exact Hint]. by apply String.eqb_neq.
Qed.

Lemma poll_loop_post fuel w ev schema t0 mp s :
  let rs := Run.poll_loop fuel w ev schema t0 mp s in
  poll_post w ev schema s rs.1 rs.2.
Proof.
  revert s. induction fuel as [|fuel IH]; intros s.
  - simpl. split; [exists []; apply worker_events_refl|].
    split; [done|]. split; [done|]. intros i Hi. simpl in Hi. lia.
  - cbn [Run.poll_loop].
    pose proof (worker_events_is_canceled ev s) as Hc.
    pose proof (is_canceled_reads ev s) as (Hseen & Hle & Hinc & Hidx).
    destruct (Run.is_canceled ev s) as [c s1]; cbn [fst snd] in *.
    destruct c.
    + (* canceled: terminate, wait, kill *)
      assert (∃ s2 added, (if terminate_ok w
                then let '(gone, s0) := Run.exited w
                            (Run.emit (EvSleep (F64.lit "0.25"))
                               (Run.emit EvTerminate s1)) in
                     if gone then s0 else Run.emit EvKill s0
                else Run.emit EvTerminate s1) = s2
              ∧ worker_events_added s1 s2 added
              ∧ cancel_reads s2 = cancel_reads s1) as (s2 & added & -> & Ha & Hr).
      { destruct (terminate_ok w).
        - destruct (worker_exited w (polls s1)) eqn:Hg;
            unfold Run.exited; cbn [Run.emit polls fst snd]; rewrite Hg;
            eexists _, _; (split; [reflexivity|]); split; try reflexivity.
          + unfold worker_events_added. simpl.
            instantiate (1 := [EvTerminate; EvSleep (F64.lit "0.25")]).
            rewrite <- app_assoc. simpl. repeat split; lia.
          + unfold worker_events_added. simpl.
            instantiate (1 := [EvTerminate; EvSleep (F64.lit "0.25"); EvKill]).
            rewrite <- !app_assoc. simpl. repeat split; lia.
        - eexists _, [EvTerminate]. split; [reflexivity|].
          split; [by apply worker_events_emit|reflexivity]. }
      destruct (canceled_at_calls w t0 mp s2) as [_ Hres].
      pose proof (worker_events_canceled_at w t0 mp s2) as Hcc.
      pose proof (canceled_at_reads w t0 mp s2) as Hr2.
      destruct (Run.canceled_at w t0 mp s2) as [res s3]; cbn [fst snd] in *.
      split.
      { exists (([] ++ added) ++ []).
        eapply worker_events_trans; [|exact Hcc].
        eapply worker_events_trans; [exact Hc|exact Ha]. }
      split; [done|]. split.
      * intros r [= <-]. by apply canceled_well_shaped.
      * intros i Hi Hset. by exists res.
    + assert (∀ i, (cancel_reads s <= i < cancel_reads s1)%nat →
                   seen ev i = true → False) as Hno1.
      { intros i Hi Hset. rewrite (Hidx i Hi) in Hset. congruence. }
      pose proof (worker_events_exited w s1) as He.
      assert (cancel_reads (Run.exited w s1).2 = cancel_reads s1) as Hre
        by reflexivity.
      destruct (Run.exited w s1) as [gone s2]; cbn [fst snd] in *.
      assert (worker_events_added s s2 []) as Hs2.
      { change [] with (@nil event ++ []). by eapply worker_events_trans. }
      destruct gone.
      * pose proof (read_worker_post w schema t0 mp s2) as (Hrw & Hrr & Hshape).
        destruct (Run.read_worker w schema t0 mp s2) as [[f|res] s3];
          cbn [fst snd] in *.
        -- cbn [Run.now fst snd].
           split.
           { exists (([] ++ [EvCommunicate]) ++ []).
             eapply worker_events_trans; [|apply (worker_events_now w s3)].
             by eapply worker_events_trans. }
           split; [done|]. split.
           ++ intros r [= <-]. apply failed_well_shaped.
           ++ intros i Hi Hset. simpl in Hi.
              destruct (Hno1 i); [lia|done].
        -- split.
           { exists ([] ++ [EvCommunicate]). by eapply worker_events_trans. }
           split; [done|]. split.
           ++ intros r [= <-]. by apply Hshape.
           ++ intros i Hi Hset. destruct (Hno1 i); [lia|done].
      * specialize (IH (Run.emit (EvSleep (F64.lit "0.05")) s2)).
        destruct (Run.poll_loop fuel w ev schema t0 mp _) as [out s3].
        cbn [fst snd] in IH.
        destruct IH as ((added & Hadd) & Hne & Hshape & Hcan).
        split.
        { exists (([] ++ [EvSleep (F64.lit "0.05")]) ++ added).
          eapply worker_events_trans; [|exact Hadd].
          eapply worker_events_trans; [exact Hs2|].
          by apply worker_events_emit. }
        split; [done|]. split; [done|].
        intros i Hi Hset. cbn [fst snd] in Hi.
        destruct (decide (i < cancel_reads s1)%nat) as [Hlt|Hge].
        -- destruct (Hno1 i); [lia|done].
        -- apply (Hcan i); [|done]. simpl. lia.
Qed.

Lemma locked_body_post w ev mp schema s :
  let rs := Run.locked_body w ev mp schema s in
  let loads := negb (must_load s mp) || load_succeeds w mp in
  (∃ calls,
     trace rs.2 = trace s
                  ++ (if must_load s mp then [EvLoadModel mp] else [])
                  ++ (if loads
                      then EvCompileGrammar (_gbnf_for_schema schema) :: calls
                      else [])
     ∧ forallb Run.is_engine_call calls = true
     ∧ (length calls <= 6)%nat
     ∧ engine_calls rs.2 = (engine_calls s + length calls)%nat)
  ∧ (rs.1 = Raised ↔ loads = false ∨ spec_block_builds w schema = false)
  ∧ rs.1 ≠ StillPolling
  ∧ loaded_model rs.2 = (if loads then Some mp else loaded_model s)
  ∧ (∀ r, rs.1 = Returned r → well_shaped w schema r)
  ∧ (∀ i, (cancel_reads s <= i < cancel_reads rs.2)%nat → seen ev i = true →
          ∃ r, rs.1 = Returned r ∧ is_canceled_result r).
Proof.
  unfold Run.locked_body. fold (must_load s mp).
  destruct (must_load s mp) eqn:Hml; cbn [andb orb negb].
  - destruct (load_succeeds w mp) eqn:Hload; cbn [negb fst snd].
    + destruct (spec_block_builds w schema) eqn:Hspec; cbn [negb fst snd].
      * set (s0 := Run.emit _ (Run.set_loaded mp (Run.emit (EvLoadModel mp) s))).
        pose proof (attempts_post w ev schema
                      (grammar_compiles w (_gbnf_for_schema schema))
                      (Run.has_event ev && supports_abort_callback w)
                      (Run.now w s0).1 mp Run.plan None (Run.now w s0).2) as Hp.
        cbn [Run.now fst snd] in *.
        destruct (Run.attempts _ _ _ _ _ _ _ _ _ _) as [res s1].
        cbn [fst snd] in *.
        destruct Hp as ((calls & (Ht & Hf & He & _ & Hl & _) & Hlen) & Hshape & Hcan).
        split.
        { exists calls. simpl in Ht, He, Hlen |- *.
          rewrite Ht, <- !app_assoc. simpl. repeat split; try done; lia. }
        split; [split; [done|intros [?|?]; discriminate]|].
        split; [done|]. split; [exact Hl|].
        split; [intros r [= <-]; by apply Hshape|].
        intros i Hi Hset. destruct (Hcan i Hi Hset) as (r & [= <-] & Hr).
        by exists res.
      * split.
        { exists []. simpl. rewrite <- !app_assoc. simpl. repeat split; lia. }
        split; [split; [by right|done]|].
        split; [done|]. split; [reflexivity|].
        split; [done|]. intros i Hi. simpl in Hi. lia.
    + split.
      { exists []. simpl. rewrite ?app_nil_r. repeat split; lia. }
      split; [split; [by left|done]|].
      split; [done|]. split; [reflexivity|].
      split; [done|]. intros i Hi. simpl in Hi. lia.
  - assert (loaded_model s = Some mp) as Hsame.
    { unfold must_load in Hml. destruct (loaded_model s) as [p|]; [|discriminate].
      apply negb_false_iff, String.eqb_eq in Hml. by subst. }
    destruct (spec_block_builds w schema) eqn:Hspec; cbn [negb fst snd].
    + set (s0 := Run.emit _ s).
      pose proof (attempts_post w ev schema
                    (grammar_compiles w (_gbnf_for_schema schema))
                    (Run.has_event ev && supports_abort_callback w)
                    (Run.now w s0).1 mp Run.plan None (Run.now w s0).2) as Hp.
      cbn [Run.now fst snd] in *.
      destruct (Run.attempts _ _ _ _ _ _ _ _ _ _) as [res s1].
      cbn [fst snd] in *.
      destruct Hp as ((calls & (Ht & Hf & He & _ & Hl & _) & Hlen) & Hshape & Hcan).
      split.
      { exists calls. simpl in Ht, He, Hlen |- *.
        rewrite Ht, <- !app_assoc. simpl. repeat split; try done; lia. }
      split; [split; [done|intros [?|?]; discriminate]|].
      split; [done|]. split; [by rewrite Hl|].
      split; [intros r [= <-]; by apply Hshape|].
      intros i Hi Hset. destruct (Hcan i Hi Hset) as (r & [= <-] & Hr).
      by exists res.
    + split.
      { exists []. simpl. rewrite ?app_nil_r. repeat split; lia. }
      split; [split; [by right|done]|].
      split; [done|]. split; [exact Hsame|].
      split; [done|]. intros i Hi. simpl in Hi. lia.
Qed.

Lemma run_llm_soft_past_checks w ev mp schema s :
  path_exists w mp = true → schema ≠ ∅ → llama_importable w = true →
  Run.run_llm_soft w ev mp schema s
  = ((Run.locked_body w ev mp schema (Run.emit EvAcquireLock s)).1,
     Run.emit EvReleaseLock
       (Run.locked_body w ev mp schema (Run.emit EvAcquireLock s)).2).
Proof.
  intros Hp Hs Hl. unfold Run.run_llm_soft. rewrite Hp, Hl. cbn [negb].
  destruct (decide (schema = ∅)); [done|].
  by destruct (Run.locked_body _ _ _ _ _).
Qed.

(** X15.  Past its three checks, [run_llm_soft] takes the lock,
    loads the model only if none or another one is loaded, compiles the
    grammar, makes at most six completion calls and releases the lock on
    every path, also when an exception leaves it; an exception leaves it
    exactly when the load fails or [build_spec_block] raises; and the
    model loaded afterwards is the one asked for unless the load
    failed. *)
Theorem soft_wrapper_holds_the_lock_for_at_most_six_calls
    (w : world) (ev : cancel_event) (model_path : string)
    (schema : dict (dict pyval)) (s : state) :
  path_exists w model_path = true → schema ≠ ∅ → llama_importable w = true →
  ∃ out s' calls,
    Run.run_llm_soft w ev model_path schema s = (out, s')
    ∧ trace s'
      = trace s ++ [EvAcquireLock]
        ++ (if must_load s model_path then [EvLoadModel model_path] else [])
        ++ (if negb (must_load s model_path) || load_succeeds w model_path
            then EvCompileGrammar (_gbnf_for_schema schema) :: calls
            else [])
        ++ [EvReleaseLock]
    ∧ forallb Run.is_engine_call calls = true
    ∧ (length calls <= 6)%nat
    ∧ engine_calls s' = (engine_calls s + length calls)%nat
    ∧ (out = Raised
       ↔ negb (must_load s model_path) || load_succeeds w model_path = false
         ∨ spec_block_builds w schema = false)
    ∧ loaded_model s'
      = (if negb (must_load s model_path) || load_succeeds w model_path
         then Some model_path else loaded_model s).
Proof.
  intros Hp Hs Hl.
  rewrite (run_llm_soft_past_checks w ev model_path schema s Hp Hs Hl).
  pose proof (locked_body_post w ev model_path schema (Run.emit EvAcquireLock s))
    as ((calls & Ht & Hf & Hlen & He) & Hr & _ & Hm & _).
  change (must_load (Run.emit EvAcquireLock s) model_path)
    with (must_load s model_path) in *.
  destruct (Run.locked_body _ _ _ _ _) as [out s1]. cbn [fst snd] in *.
  exists out, (Run.emit EvReleaseLock s1), calls.
  split; [reflexivity|]. split.
  { cbn [Run.emit trace]. rewrite Ht. cbn [Run.emit trace].
    rewrite <- !app_assoc. reflexivity. }
  split; [exact Hf|]. split; [exact Hlen|]. split; [exact He|].
  split; [exact Hr|]. exact Hm.
Qed.

Lemma soft_wrapper_holds_the_lock_for_at_most_six_calls_witness :
  ∃ out s' calls,
    Run.run_llm_soft (calm_world true) None "model.gguf" x_schema (initial None)
    = (out, s')
    ∧ trace s'
      = trace (initial None) ++ [EvAcquireLock]
        ++ (if must_load (initial None) "model.gguf"
            then [EvLoadModel "model.gguf"] else [])
        ++ (if negb (must_load (initial None) "model.gguf")
               || load_succeeds (calm_world true) "model.gguf"
            then EvCompileGrammar (_gbnf_for_schema x_schema) :: calls
            else [])
        ++ [EvReleaseLock]
    ∧ forallb Run.is_engine_call calls = true
    ∧ (length calls <= 6)%nat
    ∧ engine_calls s' = (engine_calls (initial None) + length calls)%nat
    ∧ (out = Raised
       ↔ negb (must_load (initial None) "model.gguf")
         || load_succeeds (calm_world true) "model.gguf" = false
         ∨ spec_block_builds (calm_world true) x_schema = false)
    ∧ loaded_model s'
      = (if negb (must_load (initial None) "model.gguf")
            || load_succeeds (calm_world true) "model.gguf"
         then Some "model.gguf"%string else loaded_model (initial None)).
Proof.
  apply (soft_wrapper_holds_the_lock_for_at_most_six_calls
           (calm_world true) None "model.gguf" x_schema (initial None)).
  - reflexivity.
  - exact x_schema_not_empty.
  - reflexivity.
Defined.

Lemma run_llm_hard_spawned fuel w ev mp schema s :
  path_exists w mp = true → schema ≠ ∅ →
  mkdir_ok w = true → write_args_ok w = true → spawn_ok w = true →
  let s0 := Run.emit EvSpawnWorker (Run.emit EvWriteArgs
              (Run.emit EvMakeTmpDir (Run.emit EvWriteWorkerScript
                 (Run.now w s).2))) in
  Run.run_llm_hard fuel w ev mp schema s
  = ((Run.poll_loop fuel w ev schema (Run.now w s).1 mp s0).1,
     Run.emit EvRemoveArgs
       (Run.poll_loop fuel w ev schema (Run.now w s).1 mp s0).2).
Proof.
  intros Hp Hs Hm Hw Hsp. unfold Run.run_llm_hard. cbn [Run.now fst snd].
  rewrite Hp, Hm, Hw, Hsp. cbn [negb].
  destruct (decide (schema = ∅)); [done|].
  by destruct (Run.poll_loop _ _ _ _ _ _ _).
Qed.

Lemma run_llm_hard_events
    (fuel : nat) (w : world) (ev : cancel_event) (model_path : string)
    (schema : dict (dict pyval)) (s : state) :
  ∃ out s' added,
    Run.run_llm_hard fuel w ev model_path schema s = (out, s')
    ∧ trace s' = trace s ++ added
    ∧ forallb out_of_process added = true
    ∧ engine_calls s' = engine_calls s
    ∧ loaded_model s' = loaded_model s
    ∧ (EvSpawnWorker ∈ added → spawn_ok w = true →
       out ≠ Raised ∧ ∃ before, added = before ++ [EvRemoveArgs])
    ∧ (out = Raised → EvRemoveArgs ∉ added).
Proof.
  unfold Run.run_llm_hard. cbn [Run.now fst snd].
  set (s1 := {| trace := trace s; cancel_reads := cancel_reads s;
                clock_reads := S (clock_reads s); engine_calls := engine_calls s;
                polls := polls s; loaded_model := loaded_model s |}).
  assert (∀ (out : outcome result) l,
            (EvSpawnWorker ∉ l ∨ spawn_ok w = false) → (EvRemoveArgs ∉ l) →
            (EvSpawnWorker ∈ l → spawn_ok w = true →
             out ≠ Raised ∧ ∃ before, l = before ++ [EvRemoveArgs])
            ∧ (out = Raised → EvRemoveArgs ∉ l)) as Hearly.
  { intros out l Hno Hrm. split; [|done].
    intros Hin Hok. destruct Hno as [Hno|Hno]; [done|congruence]. }
  destruct (path_exists w model_path); cbn [negb].
  2:{ eexists _, _, []. split; [reflexivity|].
      split; [by rewrite app_nil_r|]. do 3 (split; [reflexivity|]).
      apply Hearly; [left|]; apply not_elem_of_nil. }
  destruct (decide (schema = ∅)).
  { eexists _, _, []. split; [reflexivity|].
    split; [by rewrite app_nil_r|]. do 3 (split; [reflexivity|]).
    apply Hearly; [left|]; apply not_elem_of_nil. }
  destruct (mkdir_ok w); cbn [negb].
  2:{ eexists _, _, [EvWriteWorkerScript; EvMakeTmpDir].
      split; [reflexivity|].
      split; [simpl; by rewrite <- !app_assoc|]. do 3 (split; [reflexivity|]).
      apply Hearly; [left|];
        repeat (apply not_elem_of_cons; split; [discriminate|]);
        apply not_elem_of_nil. }
  destruct (write_args_ok w); cbn [negb].
  2:{ eexists _, _, [EvWriteWorkerScript; EvMakeTmpDir; EvWriteArgs].
      split; [reflexivity|].
      split; [simpl; by rewrite <- !app_assoc|]. do 3 (split; [reflexivity|]).
      apply Hearly; [left|];
        repeat (apply not_elem_of_cons; split; [discriminate|]);
        apply not_elem_of_nil. }
  destruct (spawn_ok w) eqn:Hsp; cbn [negb].
  2:{ eexists _, _, [EvWriteWorkerScript; EvMakeTmpDir; EvWriteArgs; EvSpawnWorker].
      split; [reflexivity|].
      split; [simpl; by rewrite <- !app_assoc|]. do 3 (split; [reflexivity|]).
      apply Hearly; [by right|].
      repeat (apply not_elem_of_cons; split; [discriminate|]).
      apply not_elem_of_nil. }
  match goal with
  | |- context [Run.poll_loop fuel w ev schema ?t ?m ?s0] =>
      pose proof (poll_loop_post fuel w ev schema t m s0) as Hp;
      destruct (Run.poll_loop fuel w ev schema t m s0) as [out s2]
  end.
  cbn [fst snd] in Hp.
  destruct Hp as ((added & Ht & Hf & He & Hl & _) & Hne & _).
  exists out, (Run.emit EvRemoveArgs s2),
    ([EvWriteWorkerScript; EvMakeTmpDir; EvWriteArgs; EvSpawnWorker]
       ++ added ++ [EvRemoveArgs]).
  split; [reflexivity|]. split.
  { cbn [Run.emit trace]. rewrite Ht. simpl. rewrite <- !app_assoc. reflexivity. }
  split.
  { rewrite !forallb_app, Hf. reflexivity. }
  split; [exact He|]. split; [exact Hl|]. split.
  - intros _ _. split; [exact Hne|].
    exists ([EvWriteWorkerScript; EvMakeTmpDir; EvWriteArgs; EvSpawnWorker] ++ added).
    by rewrite <- app_assoc.
  - intros ->. done.
Qed.

(** X16.  [run_llm_hard] does nothing in process: every event of it
    concerns the worker script, the argument file or the worker process,
    it makes no completion call and loads no model.  Once the worker is
    started no exception leaves the wrapper and the last thing it does is
    to remove the argument file; an exception leaves it only before, and
    then the argument file is not removed. *)
Theorem hard_wrapper_stays_out_of_process
    (fuel : nat) (w : world) (ev : cancel_event) (model_path : string)
    (schema : dict (dict pyval)) (s : state) :
  ∃ out s' added,
    Run.run_llm_hard fuel w ev model_path schema s = (out, s')
    ∧ trace s' = trace s ++ added
    ∧ forallb out_of_process added = true
    ∧ engine_calls s' = engine_calls s
    ∧ loaded_model s' = loaded_model s
    ∧ (EvSpawnWorker ∈ added → spawn_ok w = true →
       out ≠ Raised ∧ ∃ before, added = before ++ [EvRemoveArgs])
    ∧ (out = Raised → EvRemoveArgs ∉ added).
Proof. exact (run_llm_hard_events fuel w ev model_path schema s). Qed.

(** Once the event is seen set or the worker is seen gone, at the
    [n]-th round, the loop returns, whatever fuel is left over. *)
Lemma poll_loop_stops w ev schema t0 mp n :
  ∀ s fuel,
    (∀ i, (i < n)%nat → seen ev (cancel_reads s + i) = false
                        ∧ worker_exited w (polls s + i) = false) →
    seen ev (cancel_reads s + n) = true ∨ worker_exited w (polls s + n) = true →
    (n < fuel)%nat →
    Run.poll_loop fuel w ev schema t0 mp s = Run.poll_loop (S n) w ev schema t0 mp s
    ∧ ∃ r s', Run.poll_loop (S n) w ev schema t0 mp s = (Returned r, s').
Proof.
  induction n as [|n IH]; intros s fuel Hbefore Hstop Hfuel.
  - destruct fuel as [|fuel]; [lia|]. rewrite !Nat.add_0_r in Hstop.
    cbn [Run.poll_loop].
    pose proof (is_canceled_reads ev s) as (Hseen & _).
    assert (polls (Run.is_canceled ev s).2 = polls s) as Hp
      by (destruct ev; reflexivity).
    destruct (Run.is_canceled ev s) as [c s1]. cbn [fst snd] in *.
    destruct c.
    + split; [reflexivity|].
      match goal with
      | |- context [Run.canceled_at w t0 mp ?s2] =>
          destruct (Run.canceled_at w t0 mp s2) as [res s3]
      end.
      by eexists _, _.
    + unfold Run.exited. rewrite Hp. cbn [fst snd].
      destruct Hstop as [Hstop|Hstop]; [congruence|]. rewrite Hstop.
      split; [reflexivity|].
      destruct (Run.read_worker _ _ _ _ _) as [[f|res] s3]; by eexists _, _.
  - destruct fuel as [|fuel]; [lia|].
    destruct (Hbefore 0%nat) as [H0c H0e]; [lia|]. rewrite !Nat.add_0_r in *.
    cbn [Run.poll_loop].
    pose proof (is_canceled_reads ev s) as (Hseen & _ ).
    assert (polls (Run.is_canceled ev s).2 = polls s) as Hp
      by (destruct ev; reflexivity).
    assert (∀ i, seen ev (cancel_reads (Run.is_canceled ev s).2 + i)
                 = seen ev (cancel_reads s + S i)) as Hr.
    { intros i. destruct ev as [is_set|]; [|reflexivity].
      simpl. f_equal. lia. }
    destruct (Run.is_canceled ev s) as [c s1]. cbn [fst snd] in *.
    destruct c; [congruence|].
    unfold Run.exited. rewrite Hp, H0e. cbn [fst snd].
    apply IH.
    + intros i Hi. cbn [Run.emit cancel_reads polls]. rewrite Hr.
      destruct (Hbefore (S i)) as [? ?]; [lia|].
      split; [done|]. by replace (S (polls s) + i)%nat with (polls s + S i)%nat by lia.
    + cbn [Run.emit cancel_reads polls]. rewrite Hr.
      by replace (S (polls s) + n)%nat with (polls s + S n)%nat by lia.
    + lia.
Qed.

(** X17.  When the worker process could be started and, at the
    [n]-th round of the polling loop, the event is seen set or the
    process is seen gone, [run_llm_hard] returns a well-shaped result
    after removing the argument file; the result is the same for every
    bound on the rounds larger than [n]. *)
Theorem hard_wrapper_returns_once_the_worker_stops
    (fuel n : nat) (w : world) (ev : cancel_event) (model_path : string)
    (schema : dict (dict pyval)) (s : state) :
  path_exists w model_path = true → schema ≠ ∅ →
  mkdir_ok w = true → write_args_ok w = true → spawn_ok w = true →
  (∀ i, (i < n)%nat → seen ev (cancel_reads s + i) = false
                      ∧ worker_exited w (polls s + i) = false) →
  seen ev (cancel_reads s + n) = true ∨ worker_exited w (polls s + n) = true →
  (n < fuel)%nat →
  ∃ r s', Run.run_llm_hard fuel w ev model_path schema s = (Returned r, s')
          ∧ Run.run_llm_hard (S n) w ev model_path schema s = (Returned r, s')
          ∧ well_shaped w schema r
          ∧ ∃ before, trace s' = trace s ++ before ++ [EvRemoveArgs].
Proof.
  intros Hp Hs Hm Hw Hsp Hbefore Hstop Hfuel.
  rewrite !(run_llm_hard_spawned _ w ev model_path schema s Hp Hs Hm Hw Hsp).
  cbv zeta.
  match goal with
  | |- context [Run.poll_loop fuel w ev schema ?t ?m ?s0] =>
      destruct (poll_loop_stops w ev schema t m n s0 fuel) as (-> & r & s' & Hr);
        [exact Hbefore|exact Hstop|exact Hfuel|];
      pose proof (poll_loop_post (S n) w ev schema t m s0) as Hpost;
      rewrite Hr in Hpost |- *
  end.
  cbn [fst snd] in *.
  destruct Hpost as ((added & Ht & _) & _ & Hshape & _).
  exists r, (Run.emit EvRemoveArgs s'). split; [reflexivity|].
  split; [reflexivity|]. split; [by apply Hshape|].
  exists ([EvWriteWorkerScript; EvMakeTmpDir; EvWriteArgs; EvSpawnWorker] ++ added).
  cbn [Run.emit trace]. rewrite Ht. cbn [Run.emit Run.now trace snd].
  rewrite <- !app_assoc. reflexivity.
Qed.

Lemma hard_wrapper_returns_once_the_worker_stops_witness :
  ∃ r s', Run.run_llm_hard 1 (calm_world true) (Some always_set) "model.gguf"
            x_schema (initial None) = (Returned r, s')
          ∧ Run.run_llm_hard 1 (calm_world true) (Some always_set) "model.gguf"
              x_schema (initial None) = (Returned r, s')
          ∧ well_shaped (calm_world true) x_schema r
          ∧ ∃ before, trace s' = trace (initial None) ++ before ++ [EvRemoveArgs].
Proof.
  apply (hard_wrapper_returns_once_the_worker_stops 1 0 (calm_world true)
           (Some always_set) "model.gguf" x_schema (initial None)).
  - reflexivity.
  - exact x_schema_not_empty.
  - reflexivity.
  - reflexivity.
  - reflexivity.
  - intros i Hi. lia.
  - left. reflexivity.
  - lia.
Defined.

(** X18.  Every dictionary that [run_llm_soft] or [run_llm_hard]
    returns is well shaped: with [ok] it holds the non-empty response
    text and what [validate_and_clip] and [confidence_score] made of the
    JSON span of that text, with parameters of exactly the keys of the
    schema and a confidence in [0, 1]; without [ok] it holds no
    parameters, no text, no clip report, the confidence 0.0 and a report
    of the error. *)
Theorem returned_results_are_well_shaped
    (fuel : nat) (w : world) (ev : cancel_event) (model_path : string)
    (schema : dict (dict pyval)) (s : state) (r : result) (s' : state) :
  Run.run_llm_soft w ev model_path schema s = (Returned r, s')
  ∨ Run.run_llm_hard fuel w ev model_path schema s = (Returned r, s') →
  well_shaped w schema r.
Proof.
  intros [H|H].
  - unfold Run.run_llm_soft in H.
    destruct (path_exists w model_path); cbn [negb] in H.
    2:{ injection H as <- _. apply failed_well_shaped. }
    destruct (decide (schema = ∅)).
    { injection H as <- _. apply failed_well_shaped. }
    destruct (llama_importable w); cbn [negb] in H.
    2:{ injection H as <- _. apply failed_well_shaped. }
    pose proof (locked_body_post w ev model_path schema (Run.emit EvAcquireLock s))
      as (_ & _ & _ & _ & Hshape & _).
    destruct (Run.locked_body _ _ _ _ _) as [out s1]. cbn [fst snd] in *.
    injection H as -> _. by apply Hshape.
  - unfold Run.run_llm_hard in H. cbn [Run.now fst snd] in H.
    destruct (path_exists w model_path); cbn [negb] in H.
    2:{ injection H as <- _. apply failed_well_shaped. }
    destruct (decide (schema = ∅)).
    { injection H as <- _. apply failed_well_shaped. }
    destruct (mkdir_ok w); cbn [negb] in H; [|discriminate].
    destruct (write_args_ok w); cbn [negb] in H; [|discriminate].
    destruct (spawn_ok w); cbn [negb] in H; [|discriminate].
    match type of H with
    | context [Run.poll_loop fuel w ev schema ?t ?m ?s0] =>
        pose proof (poll_loop_post fuel w ev schema t m s0) as Hp;
        destruct (Run.poll_loop fuel w ev schema t m s0) as [out s2]
    end.
    cbn [fst snd] in Hp. destruct Hp as (_ & _ & Hshape & _).
    injection H as -> _. by apply Hshape.
Qed.

Lemma returned_results_are_well_shaped_witness :
  ∃ r s', Run.run_llm_soft (calm_world true) None "model.gguf" x_schema
            (initial None) = (Returned r, s')
          ∧ ok r = true
          ∧ well_shaped (calm_world true) x_schema r.
Proof.
  assert (∃ r s', Run.run_llm_soft (calm_world true) None "model.gguf" x_schema
                    (initial None) = (Returned r, s') ∧ ok r = true)
    as (r & s' & Hrun & Hok).
  { eexists _, _. split; vm_compute; reflexivity. }
  exists r, s'. split; [exact Hrun|]. split; [exact Hok|].
  exact (returned_results_are_well_shaped 0 (calm_world true) None "model.gguf"
           x_schema (initial None) r s' (or_introl Hrun)).
Defined.

(** X19.  Whenever [cancel_event.is_set()] gives [True] to one of
    the wrappers, the wrapper returns the canceled result, also when a
    valid response is already in hand. *)
Theorem observed_cancellation_wins
    (fuel : nat) (w : world) (is_set : nat → bool) (model_path : string)
    (schema : dict (dict pyval)) (s : state) (out : outcome result) (s' : state)
    (i : nat) :
  Run.run_llm_soft w (Some is_set) model_path schema s = (out, s')
  ∨ Run.run_llm_hard fuel w (Some is_set) model_path schema s = (out, s') →
  (cancel_reads s <= i < cancel_reads s')%nat → is_set i = true →
  ∃ r, out = Returned r ∧ is_canceled_result r.
Proof.
  intros [H|H] Hi Hset.
  - unfold Run.run_llm_soft in H.
    destruct (path_exists w model_path); cbn [negb] in H.
    2:{ injection H as _ <-. lia. }
    destruct (decide (schema = ∅)).
    { injection H as _ <-. lia. }
    destruct (llama_importable w); cbn [negb] in H.
    2:{ injection H as _ <-. lia. }
    pose proof (locked_body_post w (Some is_set) model_path schema
                  (Run.emit EvAcquireLock s)) as (_ & _ & _ & _ & _ & Hcan).
    destruct (Run.locked_body _ _ _ _ _) as [out1 s1]. cbn [fst snd] in *.
    injection H as -> <-. apply (Hcan i); [exact Hi|exact Hset].
  - unfold Run.run_llm_hard in H. cbn [Run.now fst snd] in H.
    destruct (path_exists w model_path); cbn [negb] in H.
    2:{ injection H as _ <-. simpl in Hi. lia. }
    destruct (decide (schema = ∅)).
    { injection H as _ <-. simpl in Hi. lia. }
    destruct (mkdir_ok w); cbn [negb] in H.
    2:{ injection H as _ <-. simpl in Hi. lia. }
    destruct (write_args_ok w); cbn [negb] in H.
    2:{ injection H as _ <-. simpl in Hi. lia. }
    destruct (spawn_ok w); cbn [negb] in H.
    2:{ injection H as _ <-. simpl in Hi. lia. }
    match type of H with
    | context [Run.poll_loop fuel w ?e schema ?t ?m ?s0] =>
        pose proof (poll_loop_post fuel w e schema t m s0) as Hp;
        destruct (Run.poll_loop fuel w e schema t m s0) as [out2 s2]
    end.
    cbn [fst snd] in Hp. destruct Hp as (_ & _ & _ & Hcan).
    injection H as -> <-. apply (Hcan i); [exact Hi|exact Hset].
Qed.

Lemma observed_cancellation_wins_witness :
  ∃ out s' r, Run.run_llm_soft (calm_world true) (Some always_set) "model.gguf"
                x_schema (initial None) = (out, s')
              ∧ out = Returned r ∧ is_canceled_result r.
Proof.
  assert (∃ out s', Run.run_llm_soft (calm_world true) (Some always_set)
                      "model.gguf" x_schema (initial None) = (out, s')
                    ∧ cancel_reads s' = 1%nat) as (out & s' & Hrun & Hreads).
  { eexists _, _. split; vm_compute; reflexivity. }
  destruct (observed_cancellation_wins 0 (calm_world true) always_set "model.gguf"
              x_schema (initial None) out s' 0 (or_introl Hrun)) as (r & Ho & Hr).
  - rewrite Hreads. simpl. lia.
  - reflexivity.
  - exists out, s', r. exact (conj Hrun (conj Ho Hr)).
Defined.

(** ** The three attempts *)
Lemma is_canceled_unseen ev s :
  (∀ i, seen ev i = false) →
  (Run.is_canceled ev s).1 = false
  ∧ trace (Run.is_canceled ev s).2 = trace s
  ∧ engine_calls (Run.is_canceled ev s).2 = engine_calls s.
Proof.
  intros Hseen. destruct ev as [is_set|]; simpl; [|done].
  split; [exact (Hseen (cancel_reads s))|done].
Qed.

Lemma attempts_all_raise w ev schema g a t0 mp plan :
  (∀ i, seen ev i = false) → (∀ n, engine w n = RaiseOther) →
  ∀ last s,
    let rs := Run.attempts w ev schema g a t0 mp plan last s in
    trace rs.2
    = trace s ++ map (fun p => EvEngineCall p.1 (p.2 && g) a) plan
    ∧ engine_calls rs.2 = (engine_calls s + length plan)%nat
    ∧ ok rs.1 = false
    ∧ violations rs.1
      = Run.error_report
          (default "unknown"%string
             (match plan with
              | [] => last
              | _ => Some (exn_text w (EngineRaised
                                         (engine_calls s + length plan - 1)))
              end)).
Proof.
  intros Hseen Hraise. induction plan as [|[temp use_g] rest IH]; intros last s.
  - simpl. rewrite app_nil_r. repeat split; (done || lia).
  - cbn [Run.attempts].
    destruct (is_canceled_unseen ev s Hseen) as (Hc & Ht & He).
    destruct (Run.is_canceled ev s) as [c s1]. cbn [fst snd] in *. subst c.
    unfold Run.attempt_body, Run._call, Run.next_reply.
    cbn [Run.emit engine_calls]. rewrite Hraise. cbn [fst snd].
    match goal with
    | |- context [Run.is_canceled ev ?s2] =>
        destruct (is_canceled_unseen ev s2 Hseen) as (Hc2 & Ht2 & He2);
        destruct (Run.is_canceled ev s2) as [c2 s3]
    end.
    cbn [fst snd] in *. subst c2.
    specialize (IH (Some (Run.failure_text w (EngineRaised (engine_calls s1)))) s3).
    destruct (Run.attempts _ _ _ _ _ _ _ rest _ s3) as [res s4].
    cbn [fst snd] in *. destruct IH as (Ht4 & He4 & Hok & Hv).
    cbn [Run.emit trace engine_calls] in Ht2, He2.
    rewrite Ht4, Ht2, Ht, He4, He2, He. cbn [map length fst snd].
    split; [by rewrite <- app_assoc|]. split; [lia|]. split; [exact Hok|].
    rewrite Hv. f_equal. f_equal. destruct rest as [|p rest'].
    + cbn [length Run.failure_text]. rewrite He. do 3 f_equal. lia.
    + rewrite He2, He. cbn [length]. do 3 f_equal. lia.
Qed.



(** ** The invariant is kept *)
Lemma alter_keeps_ids (f : Ui._Task → Ui._Task) (ts : list Ui._Task) (i : nat) :
  (∀ t, Ui.task_id (f t) = Ui.task_id t) →
  (∀ a t, ts !! a = Some t → Ui.task_id t = Z.of_nat (S a)) →
  ∀ a t, alter f i ts !! a = Some t → Ui.task_id t = Z.of_nat (S a).
Proof.
  intros Hf Hids a t. destruct (decide (i = a)) as [->|Hne].
  - rewrite list_lookup_alter_eq. destruct (ts !! a) as [t0|] eqn:Ht; [|done].
    intros [= <-]. rewrite Hf. by apply Hids.
  - rewrite list_lookup_alter_ne by done. apply Hids.
Qed.

Lemma single_flight_tasks st (ts : list Ui._Task) :
  single_flight st → length ts = length (Ui.tasks st) →
  (∀ a t, ts !! a = Some t → Ui.task_id t = Z.of_nat (S a)) →
  single_flight (Ui.set_tasks ts st).
Proof.
  intros (H1 & H2 & H3 & H4 & H5 & H6) Hlen Hids.
  unfold single_flight. simpl. rewrite Hlen. done.
Qed.

Lemma single_flight_show st es : single_flight st → single_flight (Ui.show es st).
Proof. done. Qed.

Lemma single_flight_no_thread st :
  single_flight st →
  Ui.treegen_engine_busy st || Ui.locked st = false → Ui.threads st = [].
Proof.
  intros (_ & H2 & _) [Hb _]%orb_false_elim.
  destruct (Ui.threads st) as [|th ths] eqn:Hth; [done|].
  destruct (H2 th) as (He & _); [left|]. congruence.
Qed.

Lemma single_flight_only_thread st th :
  single_flight st → th ∈ Ui.threads st → Ui.threads st = [th].
Proof.
  intros (H1 & _) Hin. destruct (Ui.threads st) as [|a [|b l]]; simpl in H1.
  - by apply elem_of_nil in Hin.
  - apply list_elem_of_singleton in Hin. by subst.
  - lia.
Qed.

Lemma has_thread_elem task st :
  Ui.has_thread task st = true →
  ∃ th, th ∈ Ui.threads st ∧ Ui.th_task th = task.
Proof.
  unfold Ui.has_thread. intros (th & Hin & Heq)%existsb_exists.
  exists th. split; [by apply list_elem_of_In|]. by apply Nat.eqb_eq.
Qed.

Lemma single_flight_generate g st :
  single_flight st → single_flight (Ui.TREE_OT_Generate_execute g st).2.
Proof.
  intros Hinv. unfold Ui.TREE_OT_Generate_execute.
  destruct (Ui.treegen_engine_busy st || Ui.locked st) eqn:Hbusy; [done|].
  destruct (String.eqb _ _); [done|].
  destruct (decide (Ui.g_SC g = ∅)); [done|].
  destruct (Ui.resolve_model g) as [[model_path|] set]; [|done].
  pose proof (single_flight_no_thread st Hinv Hbusy) as Hno.
  destruct Hinv as (H1 & H2 & H3 & H4 & H5 & H6).
  assert (∀ a t, (Ui.tasks st ++ [Ui.Task (Ui._TASK_SEQ st + 1) false false]) !! a
                 = Some t → Ui.task_id t = Z.of_nat (S a)) as Hids.
  { intros a t [Ht|[Ha Ht]]%lookup_app_Some; [by apply H5|].
    destruct (a - length (Ui.tasks st))%nat as [|k] eqn:Hk; [|done].
    injection Ht as <-. simpl. rewrite H4. lia. }
  destruct (Ui.g_schema_copy g) as [schema_copy|];
    unfold single_flight; simpl; rewrite Hno, length_app; simpl.
  - split; [lia|]. split.
    { intros th ->%list_elem_of_singleton. simpl.
      repeat split; rewrite ?length_app; simpl; lia. }
    split; [done|]. split; [rewrite ?length_app; simpl; lia|].
    split; [exact Hids|].
    intros a [= <-]. rewrite ?length_app; simpl; lia.
  - split; [lia|]. split.
    { intros th Hin. by apply elem_of_nil in Hin. }
    split; [done|]. split; [rewrite ?length_app; simpl; lia|].
    split; [exact Hids|].
    intros a [= <-]. rewrite ?length_app; simpl; lia.
Qed.

Lemma cancel_current_tasks c st :
  (∀ a t, Ui.tasks st !! a = Some t → Ui.task_id t = Z.of_nat (S a)) →
  ∃ ts es, Ui.cancel_current c st = Ui.show es (Ui.set_tasks ts st)
           ∧ length ts = length (Ui.tasks st)
           ∧ (∀ a t, ts !! a = Some t → Ui.task_id t = Z.of_nat (S a))
           ∧ (∀ task, Ui._CURRENT_TASK st = Some task →
                ts = alter (fun t => Ui.Task (Ui.task_id t) true (Ui.proc_attached t))
                           task (Ui.tasks st))
           ∧ Ui.quiet es = true.
Proof.
  intros H5. unfold Ui.cancel_current, Ui._get_task.
  destruct (Ui._CURRENT_TASK st) as [task|] eqn:Hcur.
  - set (ts := alter (fun t => Ui.Task (Ui.task_id t) true (Ui.proc_attached t))
                     task (Ui.tasks st)).
    assert (∀ es, Ui.show es (Ui.set_cancel_event task st)
                  = Ui.show es (Ui.set_tasks ts st)) as Hshow by done.
    assert (Ui.set_cancel_event task st = Ui.show [] (Ui.set_tasks ts st))
      as Hnone.
    { unfold Ui.show, Ui.set_cancel_event. simpl. by rewrite app_nil_r. }
    assert (length ts = length (Ui.tasks st)
            ∧ (∀ a t, ts !! a = Some t → Ui.task_id t = Z.of_nat (S a))
            ∧ (∀ task', Some task = Some task' →
                 ts = alter (fun t => Ui.Task (Ui.task_id t) true
                                        (Ui.proc_attached t)) task' (Ui.tasks st)))
      as (Hlen & Hids & Hsame).
    { split; [apply length_alter|]. split; [by apply alter_keeps_ids|].
      by intros ? [= <-]. }
    assert (∀ es, Ui.quiet es = true →
              ∃ ts0 es0, Ui.show es (Ui.set_tasks ts st)
                         = Ui.show es0 (Ui.set_tasks ts0 st)
                ∧ length ts0 = length (Ui.tasks st)
                ∧ (∀ a t, ts0 !! a = Some t → Ui.task_id t = Z.of_nat (S a))
                ∧ (∀ task', Some task = Some task' →
                     ts0 = alter (fun t => Ui.Task (Ui.task_id t) true
                                             (Ui.proc_attached t))
                                 task' (Ui.tasks st))
                ∧ Ui.quiet es0 = true) as Hpack.
    { intros es Hes. by exists ts, es. }
    cbv zeta.
    destruct (Ui.tasks _ !! task) as [t|].
    + destruct (Ui.proc_attached t && Ui.c_running c).
      * destruct (Ui.c_terminate_ok c); rewrite Hshow; apply Hpack;
          [by destruct (Ui.c_running_after c)|done].
      * rewrite Hnone. by apply Hpack.
    + rewrite Hnone. by apply Hpack.
  - exists (Ui.tasks st), []. split.
    + unfold Ui.show, Ui.set_tasks. simpl. rewrite app_nil_r. by destruct st.
    + done.
Qed.

Lemma quiet_not_spawned es r : Ui.quiet es = true → Ui.ObjectSpawned r ∉ es.
Proof.
  unfold Ui.quiet. rewrite forallb_forall. intros H Hin.
  apply list_elem_of_In in Hin. by specialize (H _ Hin).
Qed.

Lemma single_flight_cancel c st :
  single_flight st → single_flight (Ui.TREE_OT_Cancel_execute c st).2.
Proof.
  intros Hinv. unfold Ui.TREE_OT_Cancel_execute.
  destruct (cancel_current_tasks c st) as (ts & es & -> & Hlen & Hids & _ & _).
  { by destruct Hinv as (_ & _ & _ & _ & H5 & _). }
  pose proof (single_flight_tasks st ts Hinv Hlen Hids)
    as (H1 & H2 & H3 & H4 & H5 & H6).
  unfold single_flight. simpl in *.
  split; [done|]. split; [|done].
  intros th Hin. destruct (H2 th Hin) as (_ & ? & ?). done.
Qed.

Lemma single_flight_set_in_lock task b st :
  single_flight st → single_flight (Ui.set_in_lock task b st).
Proof.
  intros (H1 & H2 & H3 & H4 & H5 & H6). unfold single_flight, Ui.set_in_lock.
  simpl. rewrite length_map. split; [done|]. split; [|done].
  intros th (th0 & -> & Hin)%list_elem_of_fmap.
  destruct (H2 th0 Hin) as (? & ? & ?).
  by destruct (Nat.eqb (Ui.th_task th0) task).
Qed.

Lemma drop_thread_none task st :
  single_flight st → Ui.has_thread task st = true →
  Ui.threads (Ui.drop_thread task st) = []
  ∧ Ui._CURRENT_TASK st = Some task
  ∧ Ui.treegen_engine_busy st = true.
Proof.
  intros Hinv (th & Hin & <-)%has_thread_elem.
  pose proof (single_flight_only_thread st th Hinv Hin) as Hth.
  destruct Hinv as (_ & H2 & _). destruct (H2 th Hin) as (He & Hc & _).
  split; [|done]. unfold Ui.drop_thread. simpl. rewrite Hth. simpl.
  by rewrite Nat.eqb_refl.
Qed.

(** Once the only thread is gone, with no flag up, the session is
    idle. *)
Lemma single_flight_idle st ts cur es :
  single_flight st → length ts = length (Ui.tasks st) →
  (∀ a t, ts !! a = Some t → Ui.task_id t = Z.of_nat (S a)) →
  (∀ a, cur = Some a → (a < length ts)%nat) →
  single_flight (Ui.Session ts (Ui._TASK_SEQ st) cur false false [] es).
Proof.
  intros (H1 & H2 & H3 & H4 & H5 & H6) Hlen Hids Hcur.
  unfold single_flight. simpl. rewrite Hlen.
  split; [lia|]. split; [intros th Hin; by apply elem_of_nil in Hin|].
  split; [done|]. split; [done|]. split; [done|].
  intros a Ha. rewrite <- Hlen. by apply Hcur.
Qed.

Lemma callback_idle task out host_ok st :
  single_flight st → Ui.has_thread task st = true →
  out ≠ StillPolling →
  ∃ es, (match out with
         | Returned r => Ui._apply task r host_ok (Ui.drop_thread task st)
         | Raised => Ui._err task (Ui.drop_thread task st)
         | StillPolling => st
         end)
        = Ui.Session (Ui.tasks st) (Ui._TASK_SEQ st) None false false []
                     (Ui.shown st ++ es)
        ∧ (∀ r, Ui.ObjectSpawned r ∈ es →
             out = Returned r ∧ ok r = true ∧ host_ok = true
             ∧ Ui.task_canceled task st = false).
Proof.
  intros Hinv Hth Hout.
  destruct (drop_thread_none task st Hinv Hth) as (Hno & Hcur & Hbusy).
  simpl in Hno.
  destruct out as [r| |]; [| |done].
  - unfold Ui._apply, Ui.task_canceled. cbn [Ui.drop_thread Ui.set_threads Ui.tasks].
    destruct (Ui.tasks st !! task) as [t|] eqn:Ht.
    + destruct (Ui.cancel_event_set t) eqn:Hc.
      * exists [Ui.ProgressEnd]. unfold Ui._clear_task_if. simpl.
        rewrite Hcur, Nat.eqb_refl. simpl. rewrite Hno. split; [reflexivity|].
        intros r' Hin. apply list_elem_of_singleton in Hin. discriminate.
      * unfold Ui._apply_result. destruct (ok r) eqn:Hok; cbn [negb].
        -- destruct host_ok.
           ++ exists [Ui.ObjectSpawned r; Ui.ProgressEnd].
              unfold Ui._clear_task_if. simpl.
              rewrite Hcur, Nat.eqb_refl. simpl. rewrite Hno, <- ?app_assoc.
              split; [reflexivity|].
              intros r' Hin. apply elem_of_cons in Hin as [[= ->]|Hin]; [done|].
              apply list_elem_of_singleton in Hin. discriminate.
           ++ exists [Ui.ProgressEnd; Ui.Popup "TreeGen Error"].
              unfold Ui._clear_task_if. simpl.
              rewrite Hcur, Nat.eqb_refl. simpl. rewrite Hno, <- ?app_assoc.
              split; [reflexivity|].
              intros r' Hin. apply elem_of_cons in Hin as [?|Hin]; [discriminate|].
              apply list_elem_of_singleton in Hin. discriminate.
        -- exists [Ui.ProgressEnd]. unfold Ui._clear_task_if. simpl.
           rewrite Hcur, Nat.eqb_refl. simpl. rewrite Hno. split; [reflexivity|].
           intros r' Hin. apply list_elem_of_singleton in Hin. discriminate.
    + destruct Hinv as (_ & _ & _ & _ & _ & H6).
      specialize (H6 task Hcur). apply lookup_ge_None_1 in Ht. lia.
  - exists [Ui.ProgressEnd; Ui.Popup "TreeGen Error"].
    unfold Ui._err, Ui._clear_task_if. simpl.
    rewrite Hcur, Nat.eqb_refl. unfold Ui.show. simpl.
    rewrite Hno, <- app_assoc.
    split; [reflexivity|].
    intros r' Hin. apply elem_of_cons in Hin as [?|Hin]; [discriminate|].
    apply list_elem_of_singleton in Hin. discriminate.
Qed.

Lemma single_flight_step st i : single_flight st → single_flight (Ui.step st i).
Proof.
  intros Hinv. destruct i as [g|c|r|task|task|task|task out host_ok]; simpl.
  - by apply single_flight_generate.
  - by apply single_flight_cancel.
  - unfold Ui.TREE_OT_Reset_execute.
    by destruct (Ui.treegen_engine_busy st || Ui.locked st).
  - destruct (Ui.has_thread task st && negb (Ui.locked st)); [|done].
    by apply single_flight_set_in_lock.
  - destruct (Ui.thread_in_lock task st); [|done].
    by apply single_flight_set_in_lock.
  - destruct (Ui.has_thread task st); [|done].
    destruct (Ui._get_task st) as [t|]; [|done].
    apply single_flight_tasks; [done|apply length_alter|].
    apply alter_keeps_ids; [done|]. by destruct Hinv as (_ & _ & _ & _ & H5 & _).
  - destruct (Ui.has_thread task st) eqn:Hth; [|done].
    destruct (negb (Ui.thread_in_lock task st)); [|done]. cbn [andb].
    assert (out = StillPolling ∨ out ≠ StillPolling) as [->|Hout]
      by (destruct out; [by right|by right|by left]); [done|].
    destruct (callback_idle task out host_ok st Hinv Hth Hout) as (es & -> & _).
    apply single_flight_idle; try done.
    by destruct Hinv as (_ & _ & _ & _ & H5 & _).
Qed.

Lemma single_flight_steps inputs st :
  single_flight st → single_flight (foldl Ui.step st inputs).
Proof.
  revert st. induction inputs as [|i inputs IH]; intros st Hinv; [done|].
  simpl. apply IH. by apply single_flight_step.
Qed.

Lemma single_flight_registered : single_flight Ui.registered.
Proof.
  unfold single_flight. simpl. split; [lia|].
  split; [intros th Hin; by apply elem_of_nil in Hin|].
  repeat split; try done.
Qed.

(** ** Theorems *)
(** X22.  Whatever the user and the worker threads do, in which
    order ever: at most one worker thread is under way; it works for the
    current task; as long as it is there, or the progress flag is up,
    the engine flag is up; task ids count up from 1, so they are
    distinct.  The inference lock is held only while the engine flag is
    up, and the panel shows "Status: Idle" exactly when [Generate] would
    not be refused as busy. *)
Theorem single_flight_is_kept (inputs : list Ui.input) :
  single_flight (Ui.run inputs)
  ∧ (Ui.locked (Ui.run inputs) = true →
     Ui.treegen_engine_busy (Ui.run inputs) = true)
  ∧ (Ui.status (Ui.run inputs) = "Status: Idle"%string
     ↔ Ui.treegen_engine_busy (Ui.run inputs) || Ui.locked (Ui.run inputs) = false).
Proof.
  pose proof (single_flight_steps inputs Ui.registered single_flight_registered)
    as Hinv.
  fold (Ui.run inputs) in Hinv. set (st := Ui.run inputs) in *.
  split; [exact Hinv|]. destruct Hinv as (_ & H2 & H3 & _). split.
  - unfold Ui.locked. intros (th & Hin & _)%existsb_exists.
    apply list_elem_of_In in Hin. by destruct (H2 th Hin).
  - unfold Ui.status. destruct (Ui.treegen_busy st) eqn:Hb.
    + rewrite (H3 eq_refl). simpl. split; discriminate.
    + destruct (Ui.treegen_engine_busy st || Ui.locked st); split;
        try done; discriminate.
Qed.

(** X23.  While a worker thread is under way, [TREE_OT_Generate]
    is refused: it reports that the engine is busy, returns
    [{'CANCELLED'}] and changes nothing, so that no second inference is
    started. *)
Theorem generate_is_refused_while_a_worker_is_under_way
    (inputs : list Ui.input) (g : Ui.generate_input) :
  Ui.threads (Ui.run inputs) ≠ [] →
  Ui.TREE_OT_Generate_execute g (Ui.run inputs)
  = (Ui.CANCELLED,
     Ui.show [Ui.Report "WARNING"
                "Engine is busy (running or stopping). Please wait."]
             (Ui.run inputs)).
Proof.
  intros Hth.
  pose proof (single_flight_steps inputs Ui.registered single_flight_registered)
    as (_ & H2 & _).
  fold (Ui.run inputs) in H2. unfold Ui.TREE_OT_Generate_execute.
  destruct (Ui.threads (Ui.run inputs)) as [|th ths] eqn:Hl; [done|].
  destruct (H2 th) as (-> & _); [left|]. reflexivity.
Qed.

Lemma generate_is_refused_while_a_worker_is_under_way_witness :
  Ui.TREE_OT_Generate_execute a_request (Ui.run [Ui.PressGenerate a_request])
  = (Ui.CANCELLED,
     Ui.show [Ui.Report "WARNING"
                "Engine is busy (running or stopping). Please wait."]
             (Ui.run [Ui.PressGenerate a_request])).
Proof.
  apply (generate_is_refused_while_a_worker_is_under_way
           [Ui.PressGenerate a_request] a_request).
  assert (Ui.threads (Ui.run [Ui.PressGenerate a_request])
          = [Ui.WorkerThread 0 "AUTO" false]) as E by (vm_compute; reflexivity).
  rewrite E. discriminate.
Defined.

Lemma cancel_sets_the_event c st th :
  single_flight st → th ∈ Ui.threads st →
  Ui.task_canceled (Ui.th_task th) (Ui.TREE_OT_Cancel_execute c st).2 = true
  ∧ Ui.threads (Ui.TREE_OT_Cancel_execute c st).2 = Ui.threads st
  ∧ ∃ es, Ui.shown (Ui.TREE_OT_Cancel_execute c st).2 = Ui.shown st ++ es
          ∧ Ui.quiet es = true.
Proof.
  intros Hinv Hin. pose proof Hinv as (_ & H2 & _ & _ & H5 & _).
  destruct (H2 th Hin) as (_ & Hcur & Hlt).
  unfold Ui.TREE_OT_Cancel_execute.
  destruct (cancel_current_tasks c st H5) as (ts & es & -> & _ & _ & Hts & Hes).
  rewrite (Hts _ Hcur). unfold Ui.task_canceled. simpl.
  rewrite list_lookup_alter_eq.
  destruct (lookup_lt_is_Some_2 (Ui.tasks st) (Ui.th_task th) Hlt) as [t ->].
  split; [reflexivity|]. split; [reflexivity|].
  exists (es ++ [Ui.ProgressEnd;
                 Ui.Report "INFO"
                   "Cancel requested. Waiting for the engine to stop."]).
  split; [by rewrite <- !app_assoc|].
  unfold Ui.quiet in *. by rewrite forallb_app, Hes.
Qed.



Lemma stuck_step st i :
  single_flight st → stuck st →
  stuck (Ui.step st i)
  ∧ ∃ es, Ui.shown (Ui.step st i) = Ui.shown st ++ es ∧ Ui.quiet es = true.
Proof.
  intros Hinv (Hth & He & Hb).
  assert (stuck st ∧ ∃ es, Ui.shown st = Ui.shown st ++ es ∧ Ui.quiet es = true)
    as Hsame.
  { split; [done|]. exists []. by rewrite app_nil_r. }
  assert (Ui.locked st = false) as Hl by (unfold Ui.locked; by rewrite Hth).
  assert (∀ task, Ui.has_thread task st = false) as Hno
    by (intros task; unfold Ui.has_thread; by rewrite Hth).
  assert (∀ task, Ui.thread_in_lock task st = false) as Hnl
    by (intros task; unfold Ui.thread_in_lock; by rewrite Hth).
  destruct i as [g|c|r|task|task|task|task out host_ok]; cbn [Ui.step].
  - unfold Ui.TREE_OT_Generate_execute. rewrite He. cbn [orb snd].
    split; [done|]. by eexists.
  - unfold Ui.TREE_OT_Cancel_execute.
    destruct (cancel_current_tasks c st) as (ts & es & -> & _ & _ & _ & Hes).
    { by destruct Hinv as (_ & _ & _ & _ & H5 & _). }
    split; [done|]. eexists. split; [simpl; by rewrite <- !app_assoc|].
    unfold Ui.quiet in *. by rewrite forallb_app, Hes.
  - unfold Ui.TREE_OT_Reset_execute. rewrite He. cbn [orb snd].
    split; [done|]. by eexists.
  - by rewrite Hno.
  - by rewrite Hnl.
  - by rewrite Hno.
  - by rewrite Hno.
Qed.

Lemma stuck_steps more st :
  single_flight st → stuck st →
  stuck (foldl Ui.step st more)
  ∧ ∃ es, Ui.shown (foldl Ui.step st more) = Ui.shown st ++ es
          ∧ Ui.quiet es = true.
Proof.
  revert st. induction more as [|i more IH]; intros st Hinv Hst.
  - split; [done|]. exists []. by rewrite app_nil_r.
  - destruct (stuck_step st i Hinv Hst) as (Hst1 & es1 & Hs1 & Hq1).
    destruct (IH (Ui.step st i) (single_flight_step st i Hinv) Hst1)
      as (Hst2 & es2 & Hs2 & Hq2).
    split; [exact Hst2|]. exists (es1 ++ es2). simpl.
    split; [by rewrite Hs2, Hs1, <- app_assoc|].
    unfold Ui.quiet in *. by rewrite forallb_app, Hq1, Hq2.
Qed.

(** X25.  [TREE_OT_Cancel] raises the engine flag also when no
    worker is under way; no callback is then due that would clear it, so
    from there on, whatever happens, the panel shows "Status:
    Stopping...", [TREE_OT_Generate] is refused and no thread is started
    nor any object spawned. *)
Theorem cancel_with_no_worker_leaves_the_engine_busy
    (inputs more : list Ui.input) (c : Ui.cancel_input) (g : Ui.generate_input) :
  Ui.threads (Ui.run inputs) = [] →
  let st := foldl Ui.step (Ui.step (Ui.run inputs) (Ui.PressCancel c)) more in
  Ui.treegen_engine_busy st = true ∧ Ui.threads st = []
  ∧ Ui.status st = "Status: Stopping..."%string
  ∧ (Ui.TREE_OT_Generate_execute g st).1 = Ui.CANCELLED
  ∧ ∃ es, Ui.shown st = Ui.shown (Ui.run inputs) ++ es ∧ Ui.quiet es = true.
Proof.
  intros Hth st.
  pose proof (single_flight_steps inputs Ui.registered single_flight_registered)
    as Hinv.
  fold (Ui.run inputs) in Hinv.
  pose proof (single_flight_step _ (Ui.PressCancel c) Hinv) as Hinv1.
  assert (stuck (Ui.step (Ui.run inputs) (Ui.PressCancel c))
          ∧ ∃ es, Ui.shown (Ui.step (Ui.run inputs) (Ui.PressCancel c))
                  = Ui.shown (Ui.run inputs) ++ es ∧ Ui.quiet es = true)
    as (Hst1 & es1 & Hs1 & Hq1).
  { cbn [Ui.step]. unfold Ui.TREE_OT_Cancel_execute.
    destruct (cancel_current_tasks c (Ui.run inputs))
      as (ts & es & -> & _ & _ & _ & Hes).
    { by destruct Hinv as (_ & _ & _ & _ & H5 & _). }
    split; [done|]. eexists. split; [simpl; by rewrite <- !app_assoc|].
    unfold Ui.quiet in *. by rewrite forallb_app, Hes. }
  destruct (stuck_steps more _ Hinv1 Hst1) as ((Ht & He & Hb) & es2 & Hs2 & Hq2).
  fold st in Ht, He, Hb, Hs2.
  split; [exact He|]. split; [exact Ht|].
  split; [unfold Ui.status; by rewrite Hb, He|].
  split; [unfold Ui.TREE_OT_Generate_execute; by rewrite He|].
  exists (es1 ++ es2). split; [by rewrite Hs2, Hs1, <- app_assoc|].
  unfold Ui.quiet in *. by rewrite forallb_app, Hq1, Hq2.
Qed.

Lemma cancel_with_no_worker_leaves_the_engine_busy_witness :
  let st := foldl Ui.step (Ui.step (Ui.run []) (Ui.PressCancel a_cancel))
                  [Ui.PressGenerate a_request] in
  Ui.treegen_engine_busy st = true ∧ Ui.threads st = []
  ∧ Ui.status st = "Status: Stopping..."%string
  ∧ (Ui.TREE_OT_Generate_execute a_request st).1 = Ui.CANCELLED
  ∧ ∃ es, Ui.shown st = Ui.shown (Ui.run []) ++ es ∧ Ui.quiet es = true.
Proof.
  apply (cancel_with_no_worker_leaves_the_engine_busy
           [] [Ui.PressGenerate a_request] a_cancel a_request).
  reflexivity.
Defined.



Lemma forallb_weaken {A} (p q : A → bool) l :
  (∀ x, p x = true → q x = true) → forallb p l = true → forallb q l = true.
Proof.
  intros Hpq. rewrite !forallb_forall. intros H x Hx. apply Hpq. by apply H.
Qed.

Lemma run_llm_soft_events w ev mp schema s :
  ∃ added, trace (Run.run_llm_soft w ev mp schema s).2 = trace s ++ added
           ∧ forallb under_lock added = true.
Proof.
  destruct (path_exists w mp) eqn:Hp.
  2:{ unfold Run.run_llm_soft. rewrite Hp. exists []. by rewrite app_nil_r. }
  destruct (decide (schema = ∅)) as [He|Hne].
  { unfold Run.run_llm_soft. rewrite Hp. cbn [negb].
    destruct (decide (schema = ∅)); [|done]. exists []. by rewrite app_nil_r. }
  destruct (llama_importable w) eqn:Hl.
  2:{ unfold Run.run_llm_soft. rewrite Hp, Hl. cbn [negb].
      destruct (decide (schema = ∅)); [done|]. exists []. by rewrite app_nil_r. }
  rewrite (run_llm_soft_past_checks w ev mp schema s Hp Hne Hl). cbn [snd].
  pose proof (locked_body_post w ev mp schema (Run.emit EvAcquireLock s))
    as ((calls & Ht & Hf & _) & _).
  cbn [Run.emit trace]. rewrite Ht. cbn [Run.emit trace].
  eexists. split; [rewrite <- !app_assoc; reflexivity|].
  rewrite !forallb_app. cbn [forallb under_lock andb].
  destruct (must_load _ mp); destruct (negb _ || load_succeeds w mp);
    cbn [forallb under_lock in_process andb app];
    rewrite ?andb_true_r; try reflexivity;
    apply (forallb_weaken Run.is_engine_call); try exact Hf;
    by intros [].
Qed.

(** X21.  [_worker] runs one strategy: under "HARD", and under
    "AUTO" when [abort_callback] is not supported, only events of the
    worker-process strategy occur; otherwise ("SOFT", or "AUTO" with
    support) only events of the in-process strategy, under the lock. *)
Theorem each_cancel_mode_runs_one_strategy
    (fuel : nat) (w : world) (cancel_mode : string) (ev : cancel_event)
    (model_path : string) (schema_copy : dict (dict pyval)) (s : state) :
  (∃ added,
     trace (_worker fuel w cancel_mode ev model_path schema_copy s).2
     = trace s ++ added
     ∧ forallb (if Ui.use_hard cancel_mode (supports_abort_callback w)
                then out_of_process else under_lock) added = true)
  ∧ Ui.use_hard "SOFT" (supports_abort_callback w) = false
  ∧ Ui.use_hard "HARD" (supports_abort_callback w) = true
  ∧ Ui.use_hard "AUTO" (supports_abort_callback w)
    = negb (supports_abort_callback w).
Proof.
  split; [|by destruct (supports_abort_callback w)].
  unfold _worker. cbn [Run.now fst snd].
  set (s1 := {| trace := trace s; cancel_reads := cancel_reads s;
                clock_reads := S (clock_reads s); engine_calls := engine_calls s;
                polls := polls s; loaded_model := loaded_model s |}).
  assert (∃ added,
            trace (if Ui.use_hard cancel_mode (supports_abort_callback w)
                   then Run.run_llm_hard fuel w ev model_path schema_copy s1
                   else Run.run_llm_soft w ev model_path schema_copy s1).2
            = trace s ++ added
            ∧ forallb (if Ui.use_hard cancel_mode (supports_abort_callback w)
                       then out_of_process else under_lock) added = true)
    as (added & Ht & Hf).
  { destruct (Ui.use_hard cancel_mode _).
    - destruct (run_llm_hard_events fuel w ev model_path schema_copy s1)
        as (out & s' & added & -> & Ht & Hf & _).
      by exists added.
    - apply (run_llm_soft_events w ev model_path schema_copy s1). }
  exists added. split; [|exact Hf].
  destruct (if Ui.use_hard cancel_mode (supports_abort_callback w)
            then Run.run_llm_hard fuel w ev model_path schema_copy s1
            else Run.run_llm_soft w ev model_path schema_copy s1) as [[r| |] s2];
    exact Ht.
Qed.
